(** * fast-rlm: the recursive language-model driver, embedded in Rocq

    A shallow embedding of the TypeScript sources
    [subagents.ts], [provider_config.ts], [cli_common.ts], [call_llm.ts],
    [cli.ts] and [view_logs.ts], and the properties of the driver proved
    over it.

    JavaScript strings are [string]s (one character per code unit), JavaScript
    numbers are the type [number] below (the three non-finite values and the
    integers), objects are finite maps from property names to values. *)

From Stdlib Require Import ZArith Ascii.
From stdpp Require Import base numbers list strings pretty gmap.

Local Open Scope Z_scope.

(** ** JavaScript strings *)

Module JsString.

(** [s.length] *)
Definition length (s : string) : Z := Z.of_nat (String.length s).

(** Drop the first [n] characters. *)
Fixpoint drop (n : nat) (s : string) : string :=
  match n, s with
  | O, _ => s
  | S _, EmptyString => EmptyString
  | S n', String _ s' => drop n' s'
  end.

(** Keep the first [n] characters. *)
Fixpoint take (n : nat) (s : string) : string :=
  match n, s with
  | O, _ => EmptyString
  | S _, EmptyString => EmptyString
  | S n', String c s' => String c (take n' s')
  end.

(** [s.slice(start)]: a negative [start] counts from the end of the string
    and is clamped at 0, a non-negative one is clamped at the length. *)
Definition slice (start : Z) (s : string) : string :=
  let len := length s in
  let from := if start <? 0 then Z.max (len + start) 0 else Z.min start len in
  drop (Z.to_nat from) s.

(** [s.startsWith(p)] *)
Fixpoint startsWith (p s : string) : bool :=
  match p, s with
  | EmptyString, _ => true
  | String _ _, EmptyString => false
  | String a p', String b s' => if Ascii.eqb a b then startsWith p' s' else false
  end.

(** [s.includes(p)] *)
Fixpoint includes (p s : string) : bool :=
  startsWith p s ||
  match s with
  | EmptyString => false
  | String _ s' => includes p s'
  end.

End JsString.

(** ** JavaScript numbers *)

Inductive number : Type :=
| NaN
| PosInfinity
| NegInfinity
| Finite (z : Z).

Module Number.

(** [Number.isFinite] *)
Definition isFinite (x : number) : bool :=
  match x with Finite _ => true | _ => false end.

(** The least magnitude that the rounding of a sum takes to an infinity:
    half way from [Number.MAX_VALUE] to [2^1024]. *)
Definition MAX_VALUE_HALFWAY : Z := 2 ^ 1024 - 2 ^ 970.

(** [x + y].  A sum of finite numbers that is too large in magnitude is an
    infinity; the rounding of the other sums to 53 significant bits is left
    out. *)
Definition add (x y : number) : number :=
  match x, y with
  | NaN, _ | _, NaN => NaN
  | PosInfinity, NegInfinity | NegInfinity, PosInfinity => NaN
  | PosInfinity, _ | _, PosInfinity => PosInfinity
  | NegInfinity, _ | _, NegInfinity => NegInfinity
  | Finite a, Finite b =>
      if MAX_VALUE_HALFWAY <=? a + b then PosInfinity
      else if a + b <=? - MAX_VALUE_HALFWAY then NegInfinity
      else Finite (a + b)
  end.

(** [x <= y] *)
Definition le (x y : number) : bool :=
  match x, y with
  | NaN, _ | _, NaN => false
  | NegInfinity, _ => true
  | _, PosInfinity => true
  | PosInfinity, _ => false
  | _, NegInfinity => false
  | Finite a, Finite b => a <=? b
  end.

(** [x > y] *)
Definition gt (x y : number) : bool :=
  match x, y with
  | NaN, _ | _, NaN => false
  | PosInfinity, PosInfinity => false
  | PosInfinity, _ => true
  | _, PosInfinity => false
  | NegInfinity, _ => false
  | _, NegInfinity => true
  | Finite a, Finite b => b <? a
  end.

(** [String(x)], as a template literal prints a number. *)
Definition toString (x : number) : string :=
  match x with
  | NaN => "NaN"
  | PosInfinity => "Infinity"
  | NegInfinity => "-Infinity"
  | Finite z => pretty z
  end.

(** The numbers that are at least 0. *)
Definition nonneg (x : number) : Prop :=
  match x with
  | Finite z => 0 <= z
  | PosInfinity => True
  | _ => False
  end.

End Number.

(** ** Configuration ([rlm_config.yaml]) *)

Record RlmConfig : Type := {
  max_calls_per_subagent : option Z;
  max_depth : option Z;
  truncate_len : option Z;
  primary_agent : option string;
  sub_agent : option string;
  max_prompt_tokens : option number;
  max_completion_tokens : option number;
}.

(** What [loadConfig] returns when the file is missing: [{}]. *)
Definition empty_config : RlmConfig :=
  {| max_calls_per_subagent := None; max_depth := None; truncate_len := None;
     primary_agent := None; sub_agent := None;
     max_prompt_tokens := None; max_completion_tokens := None |}.

Definition MAX_CALLS (_config : RlmConfig) : Z :=
  default 20 (max_calls_per_subagent _config).
Definition MAX_DEPTH (_config : RlmConfig) : Z :=
  default 3 (max_depth _config).
Definition TRUNCATE_LEN (_config : RlmConfig) : Z :=
  default 5000 (truncate_len _config).

(** ** Output truncation ([subagents.ts], [truncateText]) *)

Definition TRUNCATED_PREFIX (_config : RlmConfig) : string :=
  "[TRUNCATED: Last " +:+ pretty (TRUNCATE_LEN _config) +:+ " chars shown].. ".
Definition FULL_PREFIX : string := "[FULL OUTPUT SHOWN]... ".
Definition EMPTY_OUTPUT : string := "[EMPTY OUTPUT]".

Definition truncateText (_config : RlmConfig) (text : string) : string :=
  if TRUNCATE_LEN _config <? JsString.length text then
    TRUNCATED_PREFIX _config +:+ JsString.slice (- TRUNCATE_LEN _config) text
  else if JsString.length text =? 0 then
    EMPTY_OUTPUT
  else
    FULL_PREFIX +:+ text.

(** ** JavaScript values ([unknown]) *)

#[warnings="-register-all"]
Inductive value : Type :=
| Undefined
| Null
| Bool (b : bool)
| Num (n : number)
| Str (s : string)
| Arr (items : list value)
| Obj (fields : gmap string value).

Module Js.

(** [v.k] on a value that is neither [undefined] nor [null]: the property
    of an object, [undefined] when the object has no such property and on
    the primitive values, whose prototypes carry none of the names read
    here.  Every read below is guarded by [??] or [?.], so [undefined] and
    [null] never reach it. *)
Definition get (v : value) (k : string) : value :=
  match v with
  | Obj fields => default Undefined (fields !! k)
  | _ => Undefined
  end.

(** [v?.k] *)
Definition opt_get (v : value) (k : string) : value :=
  match v with
  | Undefined | Null => Undefined
  | _ => get v k
  end.

(** [v ?? d] *)
Definition coalesce (v d : value) : value :=
  match v with
  | Undefined | Null => d
  | _ => v
  end.

(** An optional number field, read as a value. *)
Definition of_optional (x : option number) : value :=
  match x with
  | Some n => Num n
  | None => Undefined
  end.

(** Truthiness of a string: every string but the empty one. *)
Definition truthy (s : string) : bool :=
  match s with
  | EmptyString => false
  | String _ _ => true
  end.

(** [c] is removed by [String.prototype.trim]: the white space and line
    terminator code units below 256. *)
Definition isWhiteSpace (c : ascii) : bool :=
  match c with
  | "009" | "010" | "011" | "012" | "013" | " " | "160" => true
  | _ => false
  end%char.

Fixpoint trimStart (s : string) : string :=
  match s with
  | EmptyString => EmptyString
  | String c s' => if isWhiteSpace c then trimStart s' else s
  end.

Fixpoint trimEnd (s : string) : string :=
  match s with
  | EmptyString => EmptyString
  | String c s' =>
      match trimEnd s' with
      | EmptyString => if isWhiteSpace c then EmptyString else String c EmptyString
      | r => String c r
      end
  end.

(** [s.trim()] *)
Definition trim (s : string) : string := trimEnd (trimStart s).

End Js.

(** ** Provider configuration ([provider_config.ts]) *)

Definition EnvGetter : Type := string -> option string.

Definition DEFAULT_PRIMARY_MODEL : string := "gpt-5".
Definition DEFAULT_SUB_MODEL : string := "gpt-5-codex-mini".

Definition PRIMARY_FALLBACKS : list string :=
  ["gpt-5"; "gpt-5.1"; "gpt-5.2"; "gpt-5-codex"].

Definition SUB_FALLBACKS : list string :=
  ["gpt-5-codex-mini"; "gpt-5.1-codex-mini"; "gemini-2.5-flash"].

Record Usage : Type := {
  prompt_tokens : number;
  completion_tokens : number;
  total_tokens : number;
  cached_tokens : number;
  reasoning_tokens : number;
  cost : number;
}.

Record TokenLimits : Type := {
  maxPromptTokens : option number;
  maxCompletionTokens : option number;
}.

Record ModelNames : Type := {
  requestedPrimary : string;
  requestedSub : string;
}.

Record RuntimeModelResolution : Type := {
  primaryAgent : string;
  subAgent : string;
  warnings : list string;
}.

Definition getEnvValue (name : string) (getEnv : EnvGetter) : option string :=
  match getEnv name with
  | Some raw => let value := Js.trim raw in
                if Js.truthy value then Some value else None
  | None => None
  end.

Definition coercePositiveNumber (v : value) : option number :=
  match v with
  | Num n =>
      if negb (Number.isFinite n) || Number.le n (Finite 0) then None else Some n
  | _ => None
  end.

(** [a || b] on an optional string: [a] unless it is missing or empty. *)
Definition or_else (a : option string) (b : string) : string :=
  match a with
  | Some s => if Js.truthy s then s else b
  | None => b
  end.

Definition resolveModelNames (config : RlmConfig) (getEnv : EnvGetter) : ModelNames :=
  {| requestedPrimary :=
       or_else (getEnvValue "RLM_PRIMARY_AGENT" getEnv)
         (or_else (primary_agent config) DEFAULT_PRIMARY_MODEL);
     requestedSub :=
       or_else (getEnvValue "RLM_SUB_AGENT" getEnv)
         (or_else (sub_agent config) DEFAULT_SUB_MODEL) |}.

Inductive Role : Type := primary | sub.

Definition role_name (role : Role) : string :=
  match role with primary => "primary" | sub => "sub" end.

Record Picked : Type := {
  selected : string;
  warning : option string;
}.

(** [availableSet.has(id)] for [availableSet = new Set(available)] *)
Definition has (availableSet : gset string) (id : string) : bool :=
  bool_decide (id ∈ availableSet).

(** The [for ... of] scan of the built-in candidates: the first one that the
    set has. *)
Fixpoint scan (availableSet : gset string) (candidates : list string) : option string :=
  match candidates with
  | [] => None
  | candidate :: rest =>
      if has availableSet candidate then Some candidate else scan availableSet rest
  end.

(** [available[0]] is read only after the scan found nothing; on an empty list
    JavaScript has [undefined] there, the embedding the empty string
    ([fetchAvailableModels] returns no empty list). *)
Definition pickModel (role : Role) (requested : string) (available : list string)
    (getEnv : EnvGetter) : Picked :=
  let availableSet : gset string := list_to_set available in
  if has availableSet requested then
    {| selected := requested; warning := None |}
  else
    let fallbackEnvName :=
      match role with primary => "RLM_FALLBACK_PRIMARY" | sub => "RLM_FALLBACK_SUB" end in
    let fallbackFromEnv := getEnvValue fallbackEnvName getEnv in
    let from_defaults :=
      let defaultCandidates :=
        match role with primary => PRIMARY_FALLBACKS | sub => SUB_FALLBACKS end in
      match scan availableSet defaultCandidates with
      | Some candidate =>
          {| selected := candidate;
             warning := Some ("Requested " +:+ role_name role +:+ " model '" +:+ requested
                              +:+ "' is unavailable; using fallback '" +:+ candidate +:+ "'.") |}
      | None =>
          let selected := default "" (head available) in
          {| selected := selected;
             warning := Some ("Requested " +:+ role_name role +:+ " model '" +:+ requested
                              +:+ "' is unavailable; using first available model '"
                              +:+ selected +:+ "'.") |}
      end in
    match fallbackFromEnv with
    | Some fromEnv =>
        if has availableSet fromEnv then
          {| selected := fromEnv;
             warning := Some ("Requested " +:+ role_name role +:+ " model '" +:+ requested
                              +:+ "' is unavailable; using " +:+ fallbackEnvName +:+ "='"
                              +:+ fromEnv +:+ "'.") |}
        else from_defaults
    | None => from_defaults
    end.

(** [if (w) warnings.push(w)] *)
Definition push_warning (warnings : list string) (w : option string) : list string :=
  match w with
  | Some text => if Js.truthy text then warnings ++ [text] else warnings
  | None => warnings
  end.

Definition resolveRuntimeModels (requested : ModelNames) (available : list string)
    (getEnv : EnvGetter) : RuntimeModelResolution :=
  let warnings : list string := [] in
  let primary_pick := pickModel primary (requestedPrimary requested) available getEnv in
  let sub_pick := pickModel sub (requestedSub requested) available getEnv in
  let warnings := push_warning warnings (warning primary_pick) in
  let warnings := push_warning warnings (warning sub_pick) in
  {| primaryAgent := selected primary_pick;
     subAgent := selected sub_pick;
     warnings := warnings |}.

Definition resolveTokenLimits (config : RlmConfig) : TokenLimits :=
  {| maxPromptTokens := coercePositiveNumber (Js.of_optional (max_prompt_tokens config));
     maxCompletionTokens := coercePositiveNumber (Js.of_optional (max_completion_tokens config)) |}.

(** [a ?? b ?? c] on the results of [coercePositiveNumber] *)
Definition first_of (a b : option number) (c : number) : number :=
  match a with
  | Some x => x
  | None => default c b
  end.

Definition normalizeUsage (rawUsage : value) : Usage :=
  let usage := Js.coalesce rawUsage (Obj ∅) in
  let usageMetadata := Js.get usage "usageMetadata" in
  let promptTokens :=
    first_of (coercePositiveNumber (Js.get usage "prompt_tokens"))
             (coercePositiveNumber (Js.opt_get usageMetadata "promptTokenCount"))
             (Finite 0) in
  let completionTokens :=
    first_of (coercePositiveNumber (Js.get usage "completion_tokens"))
             (coercePositiveNumber (Js.opt_get usageMetadata "candidatesTokenCount"))
             (Finite 0) in
  let totalTokens :=
    first_of (coercePositiveNumber (Js.get usage "total_tokens"))
             (coercePositiveNumber (Js.opt_get usageMetadata "totalTokenCount"))
             (Number.add promptTokens completionTokens) in
  let promptTokenDetails := Js.get usage "prompt_tokens_details" in
  let completionTokenDetails := Js.get usage "completion_tokens_details" in
  {| prompt_tokens := promptTokens;
     completion_tokens := completionTokens;
     total_tokens := totalTokens;
     cached_tokens :=
       default (Finite 0)
         (coercePositiveNumber (Js.opt_get promptTokenDetails "cached_tokens"));
     reasoning_tokens :=
       default (Finite 0)
         (coercePositiveNumber (Js.opt_get completionTokenDetails "reasoning_tokens"));
     cost :=
       match Js.get usage "cost" with
       | Num n => if Number.isFinite n then n else Finite 0
       | _ => Finite 0
       end |}.

(** The object that [normalizeUsage] returns, as a value that can be passed
    to it again. *)
Definition usage_object (u : Usage) : value :=
  Obj (<["prompt_tokens" := Num (prompt_tokens u)]>
      (<["completion_tokens" := Num (completion_tokens u)]>
      (<["total_tokens" := Num (total_tokens u)]>
      (<["cached_tokens" := Num (cached_tokens u)]>
      (<["reasoning_tokens" := Num (reasoning_tokens u)]>
      (<["cost" := Num (cost u)]> ∅)))))).

(** *** The selection rule of [resolveRuntimeModels], in the words of its
    description

    The requested id when it is available; else the role's fallback
    environment variable when it is set and available; else the first
    available member of the role's built-in list; else the first available
    model.  The variable is read from the environment itself: its value counts
    without the white space around it, and not at all when nothing is left. *)

Definition fallback_variable (role : Role) : string :=
  match role with primary => "RLM_FALLBACK_PRIMARY" | sub => "RLM_FALLBACK_SUB" end.

Definition builtin_fallbacks (role : Role) : list string :=
  match role with
  | primary => ["gpt-5"; "gpt-5.1"; "gpt-5.2"; "gpt-5-codex"]
  | sub => ["gpt-5-codex-mini"; "gpt-5.1-codex-mini"; "gemini-2.5-flash"]
  end.

(** The word for the role in a warning. *)
Definition role_word (role : Role) : string :=
  match role with primary => "primary" | sub => "sub" end.

Definition described_choice (role : Role) (requested : string)
    (available : list string) (getEnv : EnvGetter) : string :=
  let from_list :=
    match List.find (fun id => bool_decide (id ∈ available)) (builtin_fallbacks role) with
    | Some id => id
    | None => default "" (head available)
    end in
  if bool_decide (requested ∈ available) then requested
  else
    match getEnv (fallback_variable role) with
    | Some raw =>
        if bool_decide (Js.trim raw <> "" /\ Js.trim raw ∈ available) then Js.trim raw
        else from_list
    | None => from_list
    end.

(** The warning of the described rule for a requested id that is not
    available: it names the role, the requested id and the chosen id, and
    says where the chosen id comes from. *)
Definition described_warning (role : Role) (requested : string)
    (available : list string) (getEnv : EnvGetter) : string :=
  let chosen := described_choice role requested available getEnv in
  let from_env :=
    match getEnv (fallback_variable role) with
    | Some raw => bool_decide (Js.trim raw <> "" /\ Js.trim raw ∈ available)
    | None => false
    end in
  let from_builtin :=
    bool_decide (Exists (fun id => id ∈ available) (builtin_fallbacks role)) in
  "Requested " +:+ role_word role +:+ " model '" +:+ requested
  +:+ "' is unavailable; using "
  +:+ (if from_env then fallback_variable role +:+ "='"
       else if from_builtin then "fallback '"
       else "first available model '")
  +:+ chosen +:+ "'.".

(** An environment that sets the fallback of the primary role, with white
    space around the value. *)
Definition fallback_env : EnvGetter :=
  fun name => if String.eqb name "RLM_FALLBACK_PRIMARY" then Some " gpt-4o " else None.

(** A value that is a finite number above 0. *)
Definition positive_finite (v : value) : Prop :=
  exists z, v = Num (Finite z) /\ 0 < z.

(** The usage [u] with its two detail counters set to 0. *)
Definition without_details (u : Usage) : Usage :=
  {| prompt_tokens := prompt_tokens u;
     completion_tokens := completion_tokens u;
     total_tokens := total_tokens u;
     cached_tokens := Finite 0;
     reasoning_tokens := Finite 0;
     cost := cost u |}.

(** ** Thrown values and exit codes ([cli_common.ts]) *)

Inductive CliErrorKind : Type :=
| usage_error | config_error | proxy_error | model_error
| runtime_error | output_error | interrupted_error | generic_error.

(** A thrown [Error] object: its [name], its [message], and its [kind] when
    it is a [CliError].  Only instances of [Error] are thrown in this model. *)
Record Exception : Type := {
  ename : string;
  emessage : string;
  ekind : option CliErrorKind;
}.

(** [new Error(message)] *)
Definition new_Error (message : string) : Exception :=
  {| ename := "Error"; emessage := message; ekind := None |}.

(** [new CliError(kind, message)] *)
Definition new_CliError (kind : CliErrorKind) (message : string) : Exception :=
  {| ename := "CliError"; emessage := message; ekind := Some kind |}.

(** [String(err)] ([Error.prototype.toString]) *)
Definition String_of_error (err : Exception) : string :=
  if negb (Js.truthy (ename err)) then emessage err
  else if negb (Js.truthy (emessage err)) then ename err
  else ename err +:+ ": " +:+ emessage err.

(** A computation that returns or throws. *)
Inductive Outcome (A : Type) : Type :=
| Returned (a : A)
| Threw (err : Exception).
Arguments Returned {A} a.
Arguments Threw {A} err.

Module EXIT_CODES.
Definition OK : Z := 0.
Definition GENERIC : Z := 1.
Definition USAGE : Z := 2.
Definition CONFIG : Z := 3.
Definition PROXY : Z := 4.
Definition MODEL : Z := 5.
Definition RUNTIME : Z := 6.
Definition OUTPUT_WRITE : Z := 7.
Definition INTERRUPTED : Z := 130.
End EXIT_CODES.

Definition exitCodeForError (err : Exception) : Z :=
  match ekind err with
  | Some usage_error => EXIT_CODES.USAGE
  | Some config_error => EXIT_CODES.CONFIG
  | Some proxy_error => EXIT_CODES.PROXY
  | Some model_error => EXIT_CODES.MODEL
  | Some runtime_error => EXIT_CODES.RUNTIME
  | Some output_error => EXIT_CODES.OUTPUT_WRITE
  | Some interrupted_error => EXIT_CODES.INTERRUPTED
  | Some generic_error => EXIT_CODES.GENERIC
  | None => EXIT_CODES.GENERIC
  end.

(** ** Secret redaction ([cli_common.ts], [redactSecrets]) *)

Module Redact.

(** [[A-Za-z0-9._-]] *)
Definition isTokenChar (c : ascii) : bool :=
  let n := N_of_ascii c in
  ((65 <=? n) && (n <=? 90) || (97 <=? n) && (n <=? 122)
   || (48 <=? n) && (n <=? 57) || (n =? 46) || (n =? 95) || (n =? 45))%N.

(** Lower-case image of an ASCII letter, for the [i] flag. *)
Definition lower (c : ascii) : ascii :=
  let n := N_of_ascii c in
  if ((65 <=? n) && (n <=? 90))%N then ascii_of_N (n + 32) else c.

(** [s] starts with [p], letter case ignored; the rest of [s]. *)
Fixpoint stripPrefix_ci (p s : string) : option string :=
  match p, s with
  | EmptyString, _ => Some s
  | String _ _, EmptyString => None
  | String a p', String b s' =>
      if Ascii.eqb (lower a) (lower b) then stripPrefix_ci p' s' else None
  end.

(** [s] starts with [p]; the rest of [s]. *)
Fixpoint stripPrefix (p s : string) : option string :=
  match p, s with
  | EmptyString, _ => Some s
  | String _ _, EmptyString => None
  | String a p', String b s' =>
      if Ascii.eqb a b then stripPrefix p' s' else None
  end.

(** Number of leading characters of [s] in the class [f]. *)
Fixpoint span (f : ascii -> bool) (s : string) : nat :=
  match s with
  | EmptyString => O
  | String c s' => if f c then S (span f s') else O
  end.

(** Length of the match of [/Bearer\s+[A-Za-z0-9._-]+/i] at the start of
    [s].  Both repetitions are greedy and their classes are disjoint, so
    the match is the longest run of each. *)
Definition matchBearer (s : string) : option nat :=
  match stripPrefix_ci "Bearer" s with
  | None => None
  | Some rest =>
      let spaces := span Js.isWhiteSpace rest in
      let token := span isTokenChar (JsString.drop spaces rest) in
      if (0 <? spaces)%nat && (0 <? token)%nat
      then Some (6 + spaces + token)%nat else None
  end.

(** The match, at the start of [s], of the second pattern: the literal
    [RLM_MODEL_API_KEY], any white space, [=] and any white space (group 1),
    then one or more characters that are not white space (group 2).  The
    result is the lengths of the two groups. *)
Definition matchApiKey (s : string) : option (nat * nat) :=
  match stripPrefix "RLM_MODEL_API_KEY" s with
  | None => None
  | Some rest =>
      let before := span Js.isWhiteSpace rest in
      match stripPrefix "=" (JsString.drop before rest) with
      | None => None
      | Some rest' =>
          let after := span Js.isWhiteSpace rest' in
          let secret :=
            span (fun c => negb (Js.isWhiteSpace c)) (JsString.drop after rest') in
          if (0 <? secret)%nat
          then Some (17 + before + 1 + after, secret)%nat else None
      end
  end.

(** [s.replace(/Bearer\s+[A-Za-z0-9._-]+/gi, "Bearer [REDACTED]")]: matches
    are taken left to right and do not overlap.  Each step passes at least
    one character, so [fuel] at least the length of [s] is enough. *)
Fixpoint replaceBearer (fuel : nat) (s : string) : string :=
  match fuel, s with
  | O, _ => s
  | S _, EmptyString => EmptyString
  | S fuel', String c s' =>
      match matchBearer s with
      | Some len => "Bearer [REDACTED]" +:+ replaceBearer fuel' (JsString.drop len s)
      | None => String c (replaceBearer fuel' s')
      end
  end.

(** The second [replace], global: every match of the pattern of
    [matchApiKey] becomes its group 1 followed by [[REDACTED]]. *)
Fixpoint replaceApiKey (fuel : nat) (s : string) : string :=
  match fuel, s with
  | O, _ => s
  | S _, EmptyString => EmptyString
  | S fuel', String c s' =>
      match matchApiKey s with
      | Some (group1, secret) =>
          JsString.take group1 s +:+ "[REDACTED]"
            +:+ replaceApiKey fuel' (JsString.drop (group1 + secret) s)
      | None => String c (replaceApiKey fuel' s')
      end
  end.

End Redact.

Definition redactSecrets (input : string) : string :=
  let step1 := Redact.replaceBearer (String.length input) input in
  Redact.replaceApiKey (String.length step1) step1.

(** ** The file system ([Deno.writeTextFile], [Deno.rename], [Deno.remove])

    A file system is a finite map from paths to file contents.  Each
    operation is given the fault, if any, that the operating system raises
    for it. *)

Inductive WriteFault : Type :=
| WriteSucceeds
| WriteFailsBefore (err : Exception)
| WriteFailsAfter (err : Exception) (written : string).

Record Faults : Type := {
  write_fault : WriteFault;
  rename_fault : option Exception;
  remove_fault : option Exception;
}.

Definition NotFound : Exception :=
  {| ename := "NotFound"; emessage := "No such file or directory (os error 2)";
     ekind := None |}.

Module Deno.

(** A failed write leaves no file, or a file with what was written
    before the failure. *)
Definition writeTextFile (fault : WriteFault) (path data : string)
    (fs : gmap string string) : Outcome unit * gmap string string :=
  match fault with
  | WriteSucceeds => (Returned tt, <[path := data]> fs)
  | WriteFailsBefore err => (Threw err, fs)
  | WriteFailsAfter err written => (Threw err, <[path := written]> fs)
  end.

Definition rename (fault : option Exception) (oldpath newpath : string)
    (fs : gmap string string) : Outcome unit * gmap string string :=
  match fault with
  | Some err => (Threw err, fs)
  | None =>
      match fs !! oldpath with
      | Some data => (Returned tt, <[newpath := data]> (delete oldpath fs))
      | None => (Threw NotFound, fs)
      end
  end.

Definition remove (fault : option Exception) (path : string)
    (fs : gmap string string) : Outcome unit * gmap string string :=
  match fault with
  | Some err => (Threw err, fs)
  | None =>
      match fs !! path with
      | Some _ => (Returned tt, delete path fs)
      | None => (Threw NotFound, fs)
      end
  end.

End Deno.

(** ** Writing the result file ([subagents.ts], [writeOutputAtomically]) *)

Section output_file.

(** [JSON.stringify], which returns the serialized payload or throws. *)
Variable JSON_stringify : value -> Outcome string.

(** [uuid] is the value of [crypto.randomUUID()]. *)
Definition writeOutputAtomically (faults : Faults) (uuid : string)
    (outputFile : string) (payload : value) (fs : gmap string string)
    : Outcome unit * gmap string string :=
  let tmp := outputFile +:+ ".tmp." +:+ uuid in
  let attempt :=
    match JSON_stringify payload with
    | Threw err => (Threw err, fs)
    | Returned text =>
        match Deno.writeTextFile (write_fault faults) tmp text fs with
        | (Threw err, fs) => (Threw err, fs)
        | (Returned _, fs) => Deno.rename (rename_fault faults) tmp outputFile fs
        end
    end in
  match attempt with
  | (Returned _, fs) => (Returned tt, fs)
  | (Threw err, fs) =>
      let fs := snd (Deno.remove (remove_fault faults) tmp fs) in
      (Threw (new_CliError output_error
                ("Failed writing output file '" +:+ outputFile +:+ "': "
                 +:+ String_of_error err)),
       fs)
  end.

End output_file.

(** ** Chat completions ([call_llm.ts]) *)

Record Message : Type := {
  role : string;
  content : option string;
  reasoning : option string;
}.

(** What the proxy answers to one chat-completion request:
    [completion.choices[0].message] and [completion.usage]. *)
Record Completion : Type := {
  choice_message : Message;
  completion_usage : value;
}.

Record CodeReturn : Type := {
  code : string;
  success : bool;
  message : Message;
  usage : Usage;
}.

(** [s] cut at the first occurrence of [p]: what is before it and what is
    after it. *)
Fixpoint cut (p s : string) : option (string * string) :=
  if JsString.startsWith p s then Some (EmptyString, JsString.drop (String.length p) s)
  else
    match s with
    | EmptyString => None
    | String c s' =>
        match cut p s' with
        | Some (before, after) => Some (String c before, after)
        | None => None
        end
    end.

(** The first groups of the matches of the fence pattern (an opening fence
    tagged [repl], the shortest text, a closing fence), left to right, each
    trimmed.  A match passes at least one character, so [fuel] at least the
    length of the content is enough. *)
Fixpoint replMatches (fuel : nat) (content : string) : list string :=
  match fuel with
  | O => []
  | S fuel' =>
      match cut "```repl" content with
      | None => []
      | Some (_, opened) =>
          match cut "```" opened with
          | None => []
          | Some (body, rest) => Js.trim body :: replMatches fuel' rest
          end
      end
  end.

(** [parts.join(sep)] *)
Fixpoint join (sep : string) (parts : list string) : string :=
  match parts with
  | [] => EmptyString
  | [part] => part
  | part :: rest => part +:+ sep +:+ join sep rest
  end.

Definition newline : string := String "010" EmptyString.

(** [response] is the outcome of the request that [generate_code] sends for
    the messages and the model it is given; the request itself is recorded by
    the caller. *)
Definition generate_code (response : Outcome Completion) : Outcome CodeReturn :=
  match response with
  | Threw err => Threw err
  | Returned completion =>
      let content := or_else (content (choice_message completion)) "" in
      let code := join newline (replMatches (String.length content) content) in
      let usage := normalizeUsage (completion_usage completion) in
      if negb (Js.truthy code) then
        Returned {| code := ""; success := false;
                    message := choice_message completion; usage := usage |}
      else
        Returned {| code := code; success := true;
                    message := choice_message completion; usage := usage |}
  end.

(** ** The sandbox

    A value of the Python interpreter that crosses to the host unchanged. *)
Inductive PyValue : Type :=
| PyNone
| PyStr (s : string)
| PyInt (z : Z).

(** What a piece of Python code does when the sandbox runs it: it prints,
    assigns the final result, calls [llm_query] and goes on with what the call
    returned or threw, and in the end returns or raises.  A call of
    [llm_query] carries what the world answers to the child agent that the
    call may start: the output of the child's seed program, the answer to the
    child's [i]-th chat request and the behaviour of the child's [i]-th
    piece of code. *)
Inductive Py : Type :=
| PyReturn
| PyRaise (traceback : string)
| PyPrint (text : string) (next : Py)
| PyFINAL (x : PyValue) (next : Py)
| PyLlmQuery (context : string)
    (child_seed : string)
    (child_responses : nat -> Outcome Completion)
    (child_programs : nat -> Py)
    (next : Outcome PyValue -> Py).

(** What the world answers to one agent. *)
Record Script : Type := {
  seed_output : string;
  responses : nat -> Outcome Completion;
  programs : nat -> Py;
}.

(** The state of one agent's sandbox that the host reads: the captured
    standard output and the Python globals [context] and
    [__final_result__]. *)
Record Sandbox : Type := {
  py_context : string;
  stdoutBuffer : string;
  final_result : PyValue;
}.

Definition set_stdoutBuffer (text : string) (sb : Sandbox) : Sandbox :=
  {| py_context := py_context sb; stdoutBuffer := text; final_result := final_result sb |}.

Definition set_final_result (x : PyValue) (sb : Sandbox) : Sandbox :=
  {| py_context := py_context sb; stdoutBuffer := stdoutBuffer sb; final_result := x |}.

(** ** Process-wide state

    The usage accumulator, the log sink with its source of run ids, and the
    chat-completion requests sent so far, each with the run id of the agent
    that sent it. *)

Record StepEntry : Type := {
  step : nat;
  step_code : string;
  output : option string;
  hasError : option bool;
  step_reasoning : option string;
  step_usage : Usage;
}.

Inductive EventPayload : Type :=
| run_start
| step_logged (entry : StepEntry)
| final_result_logged (result : PyValue).

Record LogEvent : Type := {
  run_id : nat;
  parent_run_id : option nat;
  depth : Z;
  payload : EventPayload;
}.

Record ChatRequest : Type := {
  sender : nat;
  request_model : string;
  sent_messages : list Message;
}.

Record World : Type := {
  totalUsage : Usage;
  next_run_id : nat;
  events : list LogEvent;
  requests : list ChatRequest;
}.

Definition noUsage : Usage :=
  {| prompt_tokens := Finite 0; completion_tokens := Finite 0; total_tokens := Finite 0;
     cached_tokens := Finite 0; reasoning_tokens := Finite 0; cost := Finite 0 |}.

Definition set_totalUsage (u : Usage) (w : World) : World :=
  {| totalUsage := u; next_run_id := next_run_id w;
     events := events w; requests := requests w |}.

Definition log_event (e : LogEvent) (w : World) : World :=
  {| totalUsage := totalUsage w; next_run_id := next_run_id w;
     events := events w ++ [e]; requests := requests w |}.

Definition send_request (r : ChatRequest) (w : World) : World :=
  {| totalUsage := totalUsage w; next_run_id := next_run_id w;
     events := events w; requests := requests w ++ [r] |}.

(** Modelled from the spec: [usage.ts] is not among the sources.  The
    accumulator has three operations, [reset], [track], which adds field by
    field, and [get]. *)
Definition add_usage (a b : Usage) : Usage :=
  {| prompt_tokens := Number.add (prompt_tokens a) (prompt_tokens b);
     completion_tokens := Number.add (completion_tokens a) (completion_tokens b);
     total_tokens := Number.add (total_tokens a) (total_tokens b);
     cached_tokens := Number.add (cached_tokens a) (cached_tokens b);
     reasoning_tokens := Number.add (reasoning_tokens a) (reasoning_tokens b);
     cost := Number.add (cost a) (cost b) |}.

(** Modelled from the spec: [trackUsage] of [usage.ts], the accumulator's
    [track]. *)
Definition trackUsage (u : Usage) (w : World) : World :=
  set_totalUsage (add_usage (totalUsage w) u) w.

(** Modelled from the spec: [getTotalUsage] of [usage.ts], the accumulator's
    [get]. *)
Definition getTotalUsage (w : World) : Usage := totalUsage w.

(** Modelled from the spec: [resetUsage] of [usage.ts], the accumulator's
    [reset]. *)
Definition resetUsage (w : World) : World := set_totalUsage noUsage w.

(** Modelled from the spec: the class [Logger] of [logging.ts] is not among
    the sources.  Creating a logger assigns a fresh run id and writes the
    [run_start] event; every event carries the run id, the parent run id and
    the depth of its logger.  Time stamps are left out. *)
Record Logger : Type := {
  logger_run_id : nat;
  logger_parent_run_id : option nat;
  logger_depth : Z;
}.

Definition event_of (logger : Logger) (p : EventPayload) : LogEvent :=
  {| run_id := logger_run_id logger; parent_run_id := logger_parent_run_id logger;
     depth := logger_depth logger; payload := p |}.

(** Modelled from the spec: [new Logger(depth, maxCalls, parent_run_id)]. *)
Definition new_Logger (depth : Z) (maxCalls : Z) (parent_run_id : option nat)
    (w : World) : Logger * World :=
  let logger := {| logger_run_id := next_run_id w;
                   logger_parent_run_id := parent_run_id;
                   logger_depth := depth |} in
  (logger,
   {| totalUsage := totalUsage w; next_run_id := S (next_run_id w);
      events := events w ++ [event_of logger run_start]; requests := requests w |}).

(** Modelled from the spec: [logger.logStep(entry)]. *)
Definition logStep (logger : Logger) (entry : StepEntry) (w : World) : World :=
  log_event (event_of logger (step_logged entry)) w.

(** Modelled from the spec: [logger.logFinalResult(result)]. *)
Definition logFinalResult (logger : Logger) (result : PyValue) (w : World) : World :=
  log_event (event_of logger (final_result_logged result)) w.

(** ** The agent ([subagents.ts], [subagent]) *)

(** What the closures of one agent hold: its depth, the run id of its logger
    and the model pair it runs with. *)
Record Agent : Type := {
  subagent_depth : Z;
  agent_run_id : nat;
  models : RuntimeModelResolution;
}.

(** The outcome of one turn of the loop: go on with the next turn, or leave
    the function by [return] or [throw]. *)
Inductive Turn : Type :=
| Continue (messages : list Message) (sb : Sandbox) (w : World)
| Leave (result : Outcome PyValue) (w : World).

Definition MAXIMUM_DEPTH_REACHED : string :=
  "MAXIMUM DEPTH REACHED. You must solve this task on your own without calling llm_query.".

Definition DID_NOT_FINISH : string :=
  "Did not finish the function stack before subagent died".

Definition NO_REPL_BLOCK : string :=
  "Error: We could not extract code because you may not have used repl block!".

Definition user_message (text : string) : Message :=
  {| role := "user"; content := Some text; reasoning := None |}.

(** The error with which [runPythonAsync] rejects when the code raises. *)
Definition PythonError (traceback : string) : Exception :=
  {| ename := "PythonError"; emessage := traceback; ekind := None |}.

Section agent.

Variable _config : RlmConfig.

(** [Deno.env.get] *)
Variable getEnv : EnvGetter.

(** The outcome of [fetchAvailableModels(resolveProxyClientConfig())] in
    this process. *)
Variable preflight : Outcome (list string).

(** The text of the seed program. *)
Variable initial_code : string.

Definition REQUESTED_MODELS : ModelNames := resolveModelNames _config getEnv.
Definition MAX_PROMPT_TOKENS : option number :=
  maxPromptTokens (resolveTokenLimits _config).
Definition MAX_COMPLETION_TOKENS : option number :=
  maxCompletionTokens (resolveTokenLimits _config).

Definition resolveRuntimeModelSelection : Outcome RuntimeModelResolution :=
  match preflight with
  | Threw err => Threw err
  | Returned availableModels =>
      Returned (resolveRuntimeModels REQUESTED_MODELS availableModels getEnv)
  end.

(** The [llm_query] that an agent installs in its sandbox; [subagent] is
    the function that runs the child, and [sb] the sandbox of the agent
    that installed the closure. *)
Definition llm_query
    (subagent : string -> Z -> option nat -> option RuntimeModelResolution ->
                World -> Outcome PyValue * World)
    (self : Agent) (context : string) (sb : Sandbox) (w : World)
    : Outcome PyValue * Sandbox * World :=
  if MAX_DEPTH _config <=? subagent_depth self then
    (Threw (new_Error MAXIMUM_DEPTH_REACHED),
     set_stdoutBuffer
       (stdoutBuffer sb +:+ newline +:+ "Error: " +:+ MAXIMUM_DEPTH_REACHED +:+ newline) sb,
     w)
  else
    let '(output, w) :=
      subagent context (subagent_depth self + 1) (Some (agent_run_id self))
        (Some (models self)) w in
    (output, sb, w).

(** [limit !== undefined && used > limit]: the limit that [used] exceeds. *)
Definition exceeded (limit : option number) (used : number) : option number :=
  match limit with
  | Some limit => if Number.gt used limit then Some limit else None
  | None => None
  end.

Section loop.

(** The answer of the proxy to the [i]-th chat request of this agent. *)
Variable responses : nat -> Outcome Completion.

(** [pyodide.runPythonAsync(code)] for the code of turn [i]. *)
Variable runPythonAsync_at : nat -> Sandbox -> World -> Outcome unit * Sandbox * World.

Variable logger : Logger.
Variable model_name : string.

(** The body of the [for] loop at index [i]. *)
Definition turn (i : nat) (messages : list Message) (sb : Sandbox) (w : World) : Turn :=
  let w := send_request {| sender := logger_run_id logger;
                           request_model := model_name;
                           sent_messages := messages |} w in
  match generate_code (responses i) with
  | Threw err => Leave (Threw err) w
  | Returned generated =>
      let messages := messages ++ [message generated] in
      let w := trackUsage (usage generated) w in
      let totalUsage := getTotalUsage w in
      match exceeded MAX_PROMPT_TOKENS (prompt_tokens totalUsage) with
      | Some limit =>
          Leave (Threw (new_Error
                   ("Prompt token budget exceeded: "
                    +:+ Number.toString (prompt_tokens totalUsage)
                    +:+ " used, limit is " +:+ Number.toString limit))) w
      | None =>
      match exceeded MAX_COMPLETION_TOKENS (completion_tokens totalUsage) with
      | Some limit =>
          Leave (Threw (new_Error
                   ("Completion token budget exceeded: "
                    +:+ Number.toString (completion_tokens totalUsage)
                    +:+ " used, limit is " +:+ Number.toString limit))) w
      | None =>
      if negb (success generated) then
        let w := logStep logger
                   {| step := i + 1; step_code := code generated; output := None;
                      hasError := None;
                      step_reasoning := reasoning (message generated);
                      step_usage := usage generated |} w in
        let messages := messages ++ [user_message NO_REPL_BLOCK] in
        Continue messages sb w
      else
        let sb := set_stdoutBuffer "" sb in
        let '(ran, sb, w) := runPythonAsync_at i sb w in
        let sb :=
          match ran with
          | Returned _ => sb
          | Threw error =>
              set_stdoutBuffer
                (stdoutBuffer sb +:+ newline +:+ "Error: " +:+ emessage error +:+ " ") sb
          end in
        let truncatedText := truncateText _config (stdoutBuffer sb) in
        let finalResult := final_result sb in
        match finalResult with
        | PyNone =>
            let hasError := JsString.includes "Error" (stdoutBuffer sb) in
            let w := logStep logger
                       {| step := i + 1; step_code := code generated;
                          output := Some truncatedText; hasError := Some hasError;
                          step_reasoning := reasoning (message generated);
                          step_usage := usage generated |} w in
            let messages :=
              messages ++ [user_message ("Output: " +:+ newline +:+ truncatedText)] in
            Continue messages sb w
        | result =>
            let w := logStep logger
                       {| step := i + 1; step_code := code generated; output := None;
                          hasError := None;
                          step_reasoning := reasoning (message generated);
                          step_usage := usage generated |} w in
            let w := logFinalResult logger result w in
            Leave (Returned result) w
        end
      end
      end
  end.

(** [for (let i = ...; i < MAX_CALLS; i++)] with [remaining] turns to go,
    and the [throw] after the loop. *)
Fixpoint turns (remaining i : nat) (messages : list Message) (sb : Sandbox)
    (w : World) : Outcome PyValue * World :=
  match remaining with
  | O => (Threw (new_Error DID_NOT_FINISH), w)
  | S remaining' =>
      match turn i messages sb w with
      | Leave result w => (result, w)
      | Continue messages sb w => turns remaining' (S i) messages sb w
      end
  end.

(** The state after [remaining] turns from index [i] on, when none of
    them leaves the loop. *)
Fixpoint continued (remaining i : nat) (messages : list Message) (sb : Sandbox)
    (w : World) : option (list Message * Sandbox * World) :=
  match remaining with
  | O => Some (messages, sb, w)
  | S remaining' =>
      match turn i messages sb w with
      | Leave _ _ => None
      | Continue messages sb w => continued remaining' (S i) messages sb w
      end
  end.

End loop.

(** [subagent], for an agent whose sandbox runs the code of turn [i] as
    [run self i], whose seed program prints [seed] and whose chat requests
    are answered by [responses]. *)
Definition subagent_with
    (run : Agent -> nat -> Sandbox -> World -> Outcome unit * Sandbox * World)
    (seed : string) (responses : nat -> Outcome Completion)
    (context : string) (subagent_depth : Z) (parent_run_id : option nat)
    (runtimeModels : option RuntimeModelResolution) (w : World)
    : Outcome PyValue * World :=
  let '(logger, w) := new_Logger subagent_depth (MAX_CALLS _config) parent_run_id w in
  match match runtimeModels with
        | Some given => Returned given
        | None => resolveRuntimeModelSelection
        end
  with
  | Threw err => (Threw err, w)
  | Returned models =>
      let model_name :=
        if subagent_depth =? 0 then primaryAgent models else subAgent models in
      let self := {| subagent_depth := subagent_depth;
                     agent_run_id := logger_run_id logger;
                     models := models |} in
      let sb := {| py_context := context; stdoutBuffer := ""; final_result := PyNone |} in
      let sb := set_stdoutBuffer seed sb in
      let messages :=
        [user_message
           (newline +:+ "Outputs will always be truncated to last "
            +:+ pretty (TRUNCATE_LEN _config) +:+ " characters." +:+ newline
            +:+ "code:" +:+ newline +:+ "```repl" +:+ newline +:+ initial_code
            +:+ newline +:+ "```" +:+ newline +:+ newline
            +:+ "Output:" +:+ newline +:+ Js.trim (stdoutBuffer sb) +:+ newline
            +:+ "    ")] in
      let w := logStep logger
                 {| step := 0; step_code := initial_code;
                    output := Some (Js.trim (stdoutBuffer sb)); hasError := Some false;
                    step_reasoning := None; step_usage := noUsage |} w in
      turns responses (run self) logger model_name
        (Z.to_nat (MAX_CALLS _config)) 0 messages sb w
  end.

(** The part of [subagent] before the loop, on its own: the logger, the
    agent, its model, the first message list and the sandbox with which the
    loop is entered, or what the model preflight threw. *)
Definition loop_entry (seed : string) (context : string) (subagent_depth : Z)
    (parent_run_id : option nat) (runtimeModels : option RuntimeModelResolution)
    (w : World)
    : Outcome (Logger * Agent * string * list Message * Sandbox) * World :=
  let '(logger, w) := new_Logger subagent_depth (MAX_CALLS _config) parent_run_id w in
  match match runtimeModels with
        | Some given => Returned given
        | None => resolveRuntimeModelSelection
        end
  with
  | Threw err => (Threw err, w)
  | Returned models =>
      let model_name :=
        if subagent_depth =? 0 then primaryAgent models else subAgent models in
      let self := {| subagent_depth := subagent_depth;
                     agent_run_id := logger_run_id logger;
                     models := models |} in
      let sb := {| py_context := context; stdoutBuffer := ""; final_result := PyNone |} in
      let sb := set_stdoutBuffer seed sb in
      let messages :=
        [user_message
           (newline +:+ "Outputs will always be truncated to last "
            +:+ pretty (TRUNCATE_LEN _config) +:+ " characters." +:+ newline
            +:+ "code:" +:+ newline +:+ "```repl" +:+ newline +:+ initial_code
            +:+ newline +:+ "```" +:+ newline +:+ newline
            +:+ "Output:" +:+ newline +:+ Js.trim (stdoutBuffer sb) +:+ newline
            +:+ "    ")] in
      let w := logStep logger
                 {| step := 0; step_code := initial_code;
                    output := Some (Js.trim (stdoutBuffer sb)); hasError := Some false;
                    step_reasoning := None; step_usage := noUsage |} w in
      (Returned (logger, self, model_name, messages, sb), w)
  end.

(** [pyodide.runPythonAsync(code)] in the sandbox of the agent [self], for
    code that behaves as [code]. *)
Fixpoint runPythonAsync (self : Agent) (code : Py) (sb : Sandbox) (w : World)
    : Outcome unit * Sandbox * World :=
  match code with
  | PyReturn => (Returned tt, sb, w)
  | PyRaise traceback => (Threw (PythonError traceback), sb, w)
  | PyPrint text next =>
      runPythonAsync self next
        (set_stdoutBuffer (stdoutBuffer sb +:+ text +:+ newline) sb) w
  | PyFINAL x next =>
      runPythonAsync self next (set_final_result x sb) w
  | PyLlmQuery context child_seed child_responses child_programs next =>
      let subagent :=
        subagent_with (fun child i => runPythonAsync child (child_programs i))
          child_seed child_responses in
      let '(result, sb, w) := llm_query subagent self context sb w in
      runPythonAsync self (next result) sb w
  end.

(** [subagent(context, subagent_depth, parent_run_id, runtimeModels)] in a
    world that answers as [script]. *)
Definition subagent (script : Script) (context : string) (subagent_depth : Z)
    (parent_run_id : option nat) (runtimeModels : option RuntimeModelResolution)
    (w : World) : Outcome PyValue * World :=
  subagent_with (fun self i => runPythonAsync self (programs script i))
    (seed_output script) (responses script)
    context subagent_depth parent_run_id runtimeModels w.

End agent.

(** ** The run command ([subagents.ts], [runSubagentCommand]; [cli.ts], the
    main block) *)

Inductive Stream : Type := stdout | stderr.

(** The state of the process: the process-wide state of the driver, the file
    system, and the lines written to the console by the run command and the
    main block.  Colour codes, the lines of the terminal user interface and
    the note on where the log was saved are left out. *)
Record Process : Type := {
  world : World;
  files : gmap string string;
  console : list (Stream * string);
}.

Definition set_world (w : World) (p : Process) : Process :=
  {| world := w; files := files p; console := console p |}.

Definition set_files (fs : gmap string string) (p : Process) : Process :=
  {| world := world p; files := fs; console := console p |}.

Definition print (to : Stream) (line : string) (p : Process) : Process :=
  {| world := world p; files := files p; console := console p ++ [(to, line)] |}.

Record RunSubagentCommandOptions : Type := {
  opt_context : string;
  opt_prefix : option string;
  opt_outputFile : option string;
  opt_jsonMode : bool;
}.

Fixpoint every (f : ascii -> bool) (s : string) : bool :=
  match s with
  | EmptyString => true
  | String c s' => f c && every f s'
  end.

Definition validatePrefix (prefix : string) : Outcome unit :=
  if (JsString.length prefix =? 0) || (64 <? JsString.length prefix) then
    Threw (new_CliError usage_error "--prefix must be between 1 and 64 characters.")
  else if negb (every Redact.isTokenChar prefix) then
    Threw (new_CliError usage_error
             "--prefix may only contain letters, numbers, dot, underscore, and dash.")
  else if JsString.includes ".." prefix || JsString.includes "/" prefix
          || JsString.includes "\" prefix then
    Threw (new_CliError usage_error "--prefix must not contain path separators.")
  else Returned tt.

(** A final result as a JavaScript value. *)
Definition to_js (x : PyValue) : value :=
  match x with
  | PyNone => Undefined
  | PyStr s => Str s
  | PyInt z => Num (Finite z)
  end.

Section run_command.

Variable _config : RlmConfig.
Variable getEnv : EnvGetter.
Variable preflight : Outcome (list string).
Variable initial_code : string.
Variable JSON_stringify : value -> Outcome string.

(** What [getLogFile()] returns after the run. *)
Variable logFile : option string.

Variable faults : Faults.
Variable uuid : string.

Definition runSubagentCommand (script : Script) (opts : RunSubagentCommandOptions)
    (p : Process) : Outcome Z * Process :=
  let jsonMode := opt_jsonMode opts in
  let outputFile := opt_outputFile opts in
  match match opt_prefix opts with
        | Some prefix => if Js.truthy prefix then validatePrefix prefix else Returned tt
        | None => Returned tt
        end
  with
  | Threw err => (Threw err, p)
  | Returned _ =>
      let p := set_world (resetUsage (world p)) p in
      let '(ran, w) :=
        subagent _config getEnv preflight initial_code script (opt_context opts)
          0 None None (world p) in
      let p := set_world w p in
      let '(out, fatalError, p) :=
        match ran with
        | Returned out =>
            if negb jsonMode then
              match JSON_stringify (Obj (<["results" := to_js out]> ∅)) with
              | Returned text =>
                  (to_js out, None, print stdout ("JSON_RESULT:" +:+ text) p)
              | Threw err =>
                  (to_js out, Some (emessage err),
                   print stderr (newline +:+ "Fatal error: " +:+ emessage err) p)
              end
            else (to_js out, None, p)
        | Threw err =>
            let fatalError := emessage err in
            (Null, Some fatalError,
             if negb jsonMode
             then print stderr (newline +:+ "Fatal error: " +:+ fatalError) p
             else p)
        end in
      let results := Js.coalesce out Null in
      let log_file := match logFile with Some path => Str path | None => Null end in
      let outputPayload :=
        match fatalError with
        | Some text =>
            if Js.truthy text
            then Obj (<["results" := results]> (<["log_file" := log_file]>
                       (<["error" := Str text]> ∅)))
            else Obj (<["results" := results]> (<["log_file" := log_file]> ∅))
        | None => Obj (<["results" := results]> (<["log_file" := log_file]> ∅))
        end in
      match
        match outputFile with
        | Some path =>
            if Js.truthy path
            then writeOutputAtomically JSON_stringify faults uuid path outputPayload (files p)
            else (Returned tt, files p)
        | None => (Returned tt, files p)
        end
      with
      | (Threw err, fs) => (Threw err, set_files fs p)
      | (Returned _, fs) =>
          let p := set_files fs p in
          let envelope :=
            Obj (<["ok" := Bool (bool_decide (fatalError = None))]>
                (<["results" := results]> (<["log_file" := log_file]>
                (<["error" := match fatalError with Some text => Str text | None => Null end]>
                (<["warnings" := Arr []]> ∅))))) in
          match
            if jsonMode then
              match JSON_stringify envelope with
              | Returned text => Returned (print stdout (text +:+ newline) p)
              | Threw err => Threw err
              end
            else Returned p
          with
          | Threw err => (Threw err, p)
          | Returned p =>
              (Returned (match fatalError with
                         | Some text =>
                             if Js.truthy text then EXIT_CODES.RUNTIME else EXIT_CODES.OK
                         | None => EXIT_CODES.OK
                         end),
               p)
          end
      end
  end.

(** The main block of [cli.ts] around a command that [runCli] dispatches
    to: the exit code, and the redacted message of what the command threw
    on the error stream. *)
Definition main (command : Process -> Outcome Z * Process) (p : Process) : Z * Process :=
  match command p with
  | (Returned code, p) => (code, p)
  | (Threw err, p) =>
      (exitCodeForError err, print stderr (redactSecrets (emessage err)) p)
  end.

End run_command.

(** ** Finalizers ([cli_common.ts], [withFinalizer])

    [run] and [finalize] act on a state of type [S]. *)
Definition withFinalizer {S T : Type}
    (run : S -> Outcome T * S) (finalize : S -> Outcome unit * S) (s : S)
    : Outcome T * S :=
  match run s with
  | (Returned v, s) =>
      match finalize s with
      | (Returned _, s) => (Returned v, s)
      | (Threw finalizeError, s) => (Threw finalizeError, s)
      end
  | (Threw primaryError, s) =>
      match finalize s with
      | (Returned _, s) => (Threw primaryError, s)
      | (Threw finalizeError, s) =>
          (Threw {| ename := ename primaryError;
                    emessage := emessage primaryError +:+ newline
                                +:+ "Cleanup warning: " +:+ String_of_error finalizeError;
                    ekind := ekind primaryError |},
           s)
      end
  end.

(** ** The proxy client configuration ([provider_config.ts]) *)

Record ProxyClientConfig : Type := {
  apiKey : string;
  baseURL : string;
}.

(** [s.endsWith(p)] *)
Definition endsWith (p s : string) : bool :=
  (String.length p <=? String.length s)%nat
  && String.eqb (JsString.drop (String.length s - String.length p) s) p.

(** [s] without the slashes at its end: the first [replace] of
    [resolveProxyClientConfig], whose pattern is a run of slashes up to the
    end of the string. *)
Fixpoint stripTrailingSlashes (s : string) : string :=
  match s with
  | EmptyString => EmptyString
  | String c s' =>
      match stripTrailingSlashes s' with
      | EmptyString => if Ascii.eqb c "/" then EmptyString else String c EmptyString
      | rest => String c rest
      end
  end.

Definition readRequiredEnv (name : string) (getEnv : EnvGetter) : Outcome string :=
  match getEnvValue name getEnv with
  | Some value => Returned value
  | None =>
      Threw (new_Error
               ("Missing required env var " +:+ name
                +:+ ". Set it in .env and run via `deno task ...` "
                +:+ "(tasks load .env via --env-file=.env), or use ./rlm and ./rlm-smoke wrappers."))
  end.

Definition resolveProxyClientConfig (getEnv : EnvGetter) : Outcome ProxyClientConfig :=
  match readRequiredEnv "RLM_MODEL_API_KEY" getEnv with
  | Threw err => Threw err
  | Returned apiKey =>
      match readRequiredEnv "RLM_MODEL_BASE_URL" getEnv with
      | Threw err => Threw err
      | Returned raw =>
          let rawBaseUrl := stripTrailingSlashes raw in
          if negb (endsWith "/v1" rawBaseUrl) then
            Threw (new_Error
                     ("RLM_MODEL_BASE_URL must point to the OpenAI-compatible /v1 endpoint (received: "
                      +:+ rawBaseUrl +:+ ")."))
          else Returned {| apiKey := apiKey; baseURL := rawBaseUrl |}
      end
  end.


(** An environment given by a list of bindings, the first one for a name
    winning. *)
Fixpoint env_of (bindings : list (string * string)) : EnvGetter :=
  fun name =>
    match bindings with
    | [] => None
    | (k, v) :: rest => if String.eqb k name then Some v else env_of rest name
    end.

(** [s] mentions the word of the first redaction pattern, in any letter
    case, at some position. *)
Fixpoint mentions_bearer (s : string) : bool :=
  match Redact.stripPrefix_ci "Bearer" s with
  | Some _ => true
  | None =>
      match s with
      | EmptyString => false
      | String _ s' => mentions_bearer s'
      end
  end.


(** ** What a run adds to the process-wide state *)

(** The world in which a turn ends. *)
Definition turn_world (t : Turn) : World :=
  match t with
  | Continue _ _ w => w
  | Leave _ w => w
  end.

(** The number of the requests [rs] that the agent of run id [a] sent. *)
Definition requests_by (a : nat) (rs : list ChatRequest) : nat :=
  length (filter (fun q => sender q = a) rs).

(** From [w] to [w'] the events [es] were logged and the requests [rs] sent,
    and no run id was given back. *)
Definition adds (w w' : World) (es : list LogEvent) (rs : list ChatRequest) : Prop :=
  events w' = events w ++ es /\
  requests w' = requests w ++ rs /\
  (next_run_id w <= next_run_id w')%nat.

(** From [w] to [w'] only agents created in between sent requests. *)
Definition children_only (w w' : World) : Prop :=
  exists es rs, adds w w' es rs /\
    Forall (fun q => (next_run_id w <= sender q)%nat) rs.

(** ** Sample inputs *)

(** A configuration that truncates to three characters. *)
Definition config_truncate_3 : RlmConfig :=
  {| max_calls_per_subagent := None; max_depth := None; truncate_len := Some 3;
     primary_agent := None; sub_agent := None;
     max_prompt_tokens := None; max_completion_tokens := None |}.

(** An environment with no variable set. *)
Definition no_env : EnvGetter := fun _ => None.

(** The usage object of the OpenAI shape, with nested token details. *)
Definition openai_usage : value :=
  Obj (<["prompt_tokens" := Num (Finite 120)]>
      (<["completion_tokens" := Num (Finite 80)]>
      (<["total_tokens" := Num (Finite 200)]>
      (<["prompt_tokens_details" := Obj (<["cached_tokens" := Num (Finite 10)]> ∅)]>
      (<["completion_tokens_details" := Obj (<["reasoning_tokens" := Num (Finite 20)]> ∅)]>
      (<["cost" := Num (Finite 3)]> ∅)))))).

(** The usage object of the [usageMetadata] shape. *)
Definition metadata_usage : value :=
  Obj (<["usageMetadata" :=
          Obj (<["promptTokenCount" := Num (Finite 50)]>
              (<["candidatesTokenCount" := Num (Finite 25)]>
              (<["totalTokenCount" := Num (Finite 75)]> ∅)))]> ∅).

(** A usage object that reports a refund as a negative cost. *)
Definition refund_usage : value :=
  Obj (<["prompt_tokens" := Num (Finite 7)]> (<["cost" := Num (Finite (-1))]> ∅)).

(** A configuration with a prompt budget of 100 tokens and a completion
    budget of 50. *)
Definition config_budget : RlmConfig :=
  {| max_calls_per_subagent := None; max_depth := None; truncate_len := None;
     primary_agent := None; sub_agent := None;
     max_prompt_tokens := Some (Finite 100);
     max_completion_tokens := Some (Finite 50) |}.

(** A configuration with two calls per agent and a depth limit of 1. *)
Definition config_small : RlmConfig :=
  {| max_calls_per_subagent := Some 2; max_depth := Some 1; truncate_len := None;
     primary_agent := None; sub_agent := None;
     max_prompt_tokens := None; max_completion_tokens := None |}.

Definition world0 : World :=
  {| totalUsage := noUsage; next_run_id := 0; events := []; requests := [] |}.

Definition sandbox0 : Sandbox :=
  {| py_context := "say hi"; stdoutBuffer := ""; final_result := PyNone |}.

Definition logger0 : Logger :=
  {| logger_run_id := 0; logger_parent_run_id := None; logger_depth := 0 |}.

Definition models0 : RuntimeModelResolution :=
  {| primaryAgent := "gpt-5"; subAgent := "gpt-5-codex-mini"; warnings := [] |}.

Definition agent0 : Agent :=
  {| subagent_depth := 0; agent_run_id := 0; models := models0 |}.

Definition agent1 : Agent :=
  {| subagent_depth := 1; agent_run_id := 1; models := models0 |}.

(** A reply without a fenced block, that used 150 prompt tokens and 80
    completion tokens. *)
Definition prose_completion : Completion :=
  {| choice_message := {| role := "assistant"; content := Some "I am thinking.";
                          reasoning := None |};
     completion_usage :=
       Obj (<["prompt_tokens" := Num (Finite 150)]>
           (<["completion_tokens" := Num (Finite 80)]> ∅)) |}.

(** A world that answers every chat request with that reply, and in which
    no code calls [llm_query]. *)
Definition prose_script : Script :=
  {| seed_output := "Context:  say hi";
     responses := fun _ => Returned prose_completion;
     programs := fun _ => PyReturn |}.

(** A sandbox run that does nothing. *)
Definition idle_run (i : nat) (sb : Sandbox) (w : World) : Outcome unit * Sandbox * World :=
  (Returned tt, sb, w).

(** A model preflight that fails with the proxy's answer in the message. *)
Definition leaking_preflight : Outcome (list string) :=
  Threw (new_Error
    ("Failed to fetch models from http://127.0.0.1:8317/v1/models: 401 Unauthorized. "
     +:+ "Response: invalid credentials in header Authorization: Bearer sk-live-12345")).

Definition human_run : RunSubagentCommandOptions :=
  {| opt_context := "say hi"; opt_prefix := None; opt_outputFile := None;
     opt_jsonMode := false |}.

Definition process0 : Process :=
  {| world := world0; files := ∅; console := [] |}.

Definition no_faults : Faults :=
  {| write_fault := WriteSucceeds; rename_fault := None; remove_fault := None |}.

(** A serializer for the sample runs, which prints every payload as the
    empty object. *)
Definition sample_stringify (payload : value) : Outcome string := Returned "{}".

(** A reply with one fenced block, and a sandbox run that raises. *)
Definition code_completion : Completion :=
  {| choice_message :=
       {| role := "assistant";
          content := Some ("```repl" +:+ newline +:+ "print(1/0)" +:+ newline +:+ "```");
          reasoning := None |};
     completion_usage := Undefined |}.

Definition failing_run (i : nat) (sb : Sandbox) (w : World)
    : Outcome unit * Sandbox * World :=
  (Threw (PythonError "ZeroDivisionError: division by zero"), sb, w).

(** A world in which the first piece of code assigns the final result. *)
Definition final_script : Script :=
  {| seed_output := "Context:  say hi";
     responses := fun _ => Returned code_completion;
     programs := fun _ => PyPrint "working" (PyFINAL (PyStr "hi") PyReturn) |}.

(** ** Growth of the token counters *)

(** A counter that stayed as it was or became larger. *)
Definition counter_grows (x x' : number) : Prop :=
  x' = x \/ Number.gt x' x = true.

Definition tokens_grow (w w' : World) : Prop :=
  counter_grows (prompt_tokens (totalUsage w)) (prompt_tokens (totalUsage w')) /\
  counter_grows (completion_tokens (totalUsage w)) (completion_tokens (totalUsage w')) /\
  counter_grows (total_tokens (totalUsage w)) (total_tokens (totalUsage w')) /\
  counter_grows (cached_tokens (totalUsage w)) (cached_tokens (totalUsage w')) /\
  counter_grows (reasoning_tokens (totalUsage w)) (reasoning_tokens (totalUsage w')).

(** The five token counters of the accumulator are at least 0, as they are
    after a reset. *)
Definition tokens_nonneg (w : World) : Prop :=
  Number.nonneg (prompt_tokens (totalUsage w)) /\
  Number.nonneg (completion_tokens (totalUsage w)) /\
  Number.nonneg (total_tokens (totalUsage w)) /\
  Number.nonneg (cached_tokens (totalUsage w)) /\
  Number.nonneg (reasoning_tokens (totalUsage w)).

(** ** The models of the requests *)

(** The request [q] names the primary model of the pair [pair] when the agent
    of run id [root] sent it, and the sub model otherwise. *)
Definition names_model (pair : RuntimeModelResolution) (root : nat) (q : ChatRequest)
    : Prop :=
  request_model q
  = if decide (sender q = root) then primaryAgent pair else subAgent pair.

(** ** The log viewer ([view_logs.ts]) *)

Module ViewLogs.

(** A log entry that [assertLogEntry] accepted: the three properties it
    checked, and the parsed object itself, from which the other properties
    are read. *)
Record LogEntry : Type := {
  run_id : string;
  event_type : string;
  time : number;
  object : value;
}.

(** [entry.parent_run_id] and [entry.depth], which are not checked. *)
Definition parent_run_id (entry : LogEntry) : value := Js.get (object entry) "parent_run_id".
Definition depth (entry : LogEntry) : value := Js.get (object entry) "depth".

Definition invalid_entry (lineNumber : Z) (what : string) : Exception :=
  new_Error ("Invalid log entry at line " +:+ pretty lineNumber +:+ ": " +:+ what).

(** [entry] is a value that [JSON.parse] returned. *)
Definition assertLogEntry (entry : value) (lineNumber : Z) : Outcome LogEntry :=
  match entry with
  | Obj _ | Arr _ =>
      match Js.get entry "run_id" with
      | Str (String _ _ as id) =>
          match Js.get entry "event_type" with
          | Str (String _ _ as type) =>
              match Js.get entry "time" with
              | Num t =>
                  Returned {| run_id := id; event_type := type; time := t; object := entry |}
              | _ => Threw (invalid_entry lineNumber "missing numeric time")
              end
          | _ => Threw (invalid_entry lineNumber "missing event_type")
          end
      | _ => Threw (invalid_entry lineNumber "missing run_id")
      end
  | _ => Threw (invalid_entry lineNumber "expected object")
  end.

(** [content.split("\n")] *)
Fixpoint split_lines (content : string) : list string :=
  match content with
  | EmptyString => [EmptyString]
  | String c rest =>
      if Ascii.eqb c "010" then EmptyString :: split_lines rest
      else match split_lines rest with
           | line :: lines => String c line :: lines
           | [] => [String c EmptyString]
           end
  end.

(** [Deno.readTextFile], with the fault, if any, that the operating system
    raises for it. *)
Definition readTextFile (fault : option Exception) (path : string)
    (fs : gmap string string) : Outcome string :=
  match fault with
  | Some err => Threw err
  | None =>
      match fs !! path with
      | Some data => Returned data
      | None => Threw NotFound
      end
  end.

(** [err instanceof Deno.errors.NotFound] *)
Definition is_NotFound (err : Exception) : bool := String.eqb (ename err) "NotFound".

(** A node of the run tree.  The nodes are objects held by the map that
    [buildRunTree] returns, and [children] holds references to them: a child
    is named here by its key in that map. *)
Record RunNode : Type := {
  node_run_id : string;
  node_parent_run_id : value;
  node_depth : value;
  events : list LogEntry;
  children : list string;
}.

(** A [Map<string, RunNode>], in insertion order. *)
Definition Nodes : Type := list (string * RunNode).

(** [nodes.get(key)] *)
Fixpoint nodes_get (key : string) (nodes : Nodes) : option RunNode :=
  match nodes with
  | [] => None
  | (k, node) :: rest => if String.eqb key k then Some node else nodes_get key rest
  end.

(** A mutation [f] of the node held under [key]. *)
Fixpoint nodes_update (key : string) (f : RunNode -> RunNode) (nodes : Nodes) : Nodes :=
  match nodes with
  | [] => []
  | (k, node) :: rest =>
      if String.eqb key k then (k, f node) :: rest
      else (k, node) :: nodes_update key f rest
  end.

Definition push_event (entry : LogEntry) (node : RunNode) : RunNode :=
  {| node_run_id := node_run_id node; node_parent_run_id := node_parent_run_id node;
     node_depth := node_depth node; events := events node ++ [entry];
     children := children node |}.

Definition push_child (child : string) (node : RunNode) : RunNode :=
  {| node_run_id := node_run_id node; node_parent_run_id := node_parent_run_id node;
     node_depth := node_depth node; events := events node;
     children := children node ++ [child] |}.

(** Truthiness of a value. *)
Definition truthy (v : value) : bool :=
  match v with
  | Undefined | Null => false
  | Bool b => b
  | Num NaN | Num (Finite 0) => false
  | Num _ => true
  | Str s => Js.truthy s
  | Arr _ | Obj _ => true
  end.

(** The body of the first loop of [buildRunTree]. *)
Definition add_entry (nodes : Nodes) (entry : LogEntry) : Nodes :=
  let nodes :=
    match nodes_get (run_id entry) nodes with
    | Some _ => nodes
    | None =>
        nodes ++ [(run_id entry,
                   {| node_run_id := run_id entry;
                      node_parent_run_id := parent_run_id entry;
                      node_depth := depth entry; events := []; children := [] |})]
    end in
  nodes_update (run_id entry) (push_event entry) nodes.

(** The body of the second loop, for the node held under [key].  The keys
    of the map are strings, so a parent that is not a string is found under
    no key. *)
Definition link_child (nodes : Nodes) (key : string) : Nodes :=
  match nodes_get key nodes with
  | Some node =>
      if truthy (node_parent_run_id node) then
        match node_parent_run_id node with
        | Str parent =>
            match nodes_get parent nodes with
            | Some _ => nodes_update parent (push_child key) nodes
            | None => nodes
            end
        | _ => nodes
        end
      else nodes
  | None => nodes
  end.

Definition buildRunTree (entries : list LogEntry) : Nodes :=
  let nodes := fold_left add_entry entries [] in
  fold_left link_child (fst <$> nodes) nodes.

(** The key under which the second loop looks up the parent of a node: the
    parent run id when it is a string that is not empty. *)
Definition parent_key (node : RunNode) : option string :=
  match node_parent_run_id node with
  | Str parent => if Js.truthy parent then Some parent else None
  | _ => None
  end.

(** The node that the first loop builds for a run id: none when no entry
    has the run id, else the entries with the run id under the parent and the
    depth of the first of them. *)
Definition grouped (entries : list LogEntry) (key : string) : option RunNode :=
  match filter (fun entry => run_id entry = key) entries with
  | [] => None
  | first :: rest =>
      Some {| node_run_id := key; node_parent_run_id := parent_run_id first;
              node_depth := depth first; events := first :: rest; children := [] |}
  end.

(** [node] with the keys [added] pushed on its children. *)
Definition with_children (added : list string) (node : RunNode) : RunNode :=
  {| node_run_id := node_run_id node; node_parent_run_id := node_parent_run_id node;
     node_depth := node_depth node; events := events node;
     children := children node ++ added |}.

(** The node under [child] names [parent] as its parent. *)
Definition child_of (nodes : Nodes) (parent child : string) : Prop :=
  (nodes_get child nodes ≫= parent_key) = Some parent.

#[export] Instance child_of_dec nodes parent child : Decision (child_of nodes parent child) :=
  decide ((nodes_get child nodes ≫= parent_key) = Some parent).

(** The roots that the tree view prints. *)
Definition roots (nodes : Nodes) : Nodes :=
  filter (fun kn => negb (truthy (node_parent_run_id (snd kn)))) nodes.

Section view_logs.

(** [JSON.parse], which returns the parsed value or throws. *)
Variable JSON_parse : string -> option value.

Variable read_fault : option Exception.

(** What the printers of a mode write for the entries and their tree, or
    throw. *)
Variable render : string -> list LogEntry -> Nodes -> Process -> Outcome unit * Process.

(** The loop of [parseLogFile], from the line with index [i]. *)
Fixpoint parseLines (i : Z) (lines : list string) : Outcome (list LogEntry) :=
  match lines with
  | [] => Returned []
  | raw :: rest =>
      let line := Js.trim raw in
      if negb (Js.truthy line) then parseLines (i + 1) rest
      else
        match JSON_parse line with
        | None => Threw (new_Error ("Malformed JSONL at line " +:+ pretty (i + 1)))
        | Some parsed =>
            match assertLogEntry parsed (i + 1) with
            | Threw err => Threw err
            | Returned entry =>
                match parseLines (i + 1) rest with
                | Threw err => Threw err
                | Returned entries => Returned (entry :: entries)
                end
            end
        end
  end.

Definition parseLogFile (filePath : string) (fs : gmap string string)
    : Outcome (list LogEntry) :=
  match readTextFile read_fault filePath fs with
  | Threw err => Threw err
  | Returned content => parseLines 0 (split_lines content)
  end.

Definition MODES : list string := ["--tree"; "--stats"; "--linear"].

(** [runLogsViewCommand({ filePath, mode })] *)
Definition runLogsViewCommand (filePath : string) (mode : option string) (p : Process)
    : Outcome Z * Process :=
  if negb (Js.truthy filePath) then
    (Threw (new_CliError usage_error
              "Usage: rlm logs view <log-file.jsonl> [--tree|--stats|--linear]"), p)
  else
    let mode := default "--tree" mode in
    if negb (existsb (String.eqb mode) MODES) then
      (Threw (new_CliError usage_error
                ("Unknown logs view mode '" +:+ mode
                 +:+ "'. Expected --tree, --stats, or --linear.")), p)
    else
      match parseLogFile filePath (files p) with
      | Threw err =>
          if is_NotFound err
          then (Threw (new_CliError usage_error ("Log file not found: " +:+ filePath)), p)
          else (Threw (new_CliError runtime_error (emessage err)), p)
      | Returned entries =>
          match render mode entries (buildRunTree entries) p with
          | (Threw err, p) => (Threw err, p)
          | (Returned _, p) => (Returned EXIT_CODES.OK, p)
          end
      end.

End view_logs.

End ViewLogs.

(** ** The command line ([cli.ts]) *)

Record GlobalFlags : Type := {
  help : bool;
  version : bool;
  json : bool;
  noColor : bool;
  quiet : bool;
  verbose : bool;
}.

Record ParsedCli : Type := {
  global : GlobalFlags;
  command : option string;
  args : list string;
}.

Definition VERSION : string := "fast-rlm v1".

Definition defaultGlobalFlags : GlobalFlags :=
  {| help := false; version := false; json := false; noColor := false;
     quiet := false; verbose := false |}.

(** The text that [printHelp] writes. *)
Definition HELP : string :=
"fast-rlm CLI

Usage:
  rlm [global flags] <subcommand> [args]

Subcommands:
  run
  smoke
  logs view <log-file> [--tree|--stats|--linear]
  completion <bash|zsh|fish>
  help
  version

Global flags:
  -h, --help
  --version
  --json
  --no-color
  -q, --quiet
  -v, --verbose
  --plain (reserved)
".

Definition printHelp (p : Process) : Process := print stdout HELP p.

(** [arg === "-h" || arg === "--help"] *)
Definition is_help (arg : string) : bool := String.eqb arg "-h" || String.eqb arg "--help".

(** The [switch] of [parseGlobalArgs]: the flags after [arg], or nothing for
    the default case. *)
Definition global_switch (arg : string) (global : GlobalFlags) : option GlobalFlags :=
  if String.eqb arg "-h" || String.eqb arg "--help" then
    Some {| help := true; version := version global; json := json global;
            noColor := noColor global; quiet := quiet global; verbose := verbose global |}
  else if String.eqb arg "--version" then
    Some {| help := help global; version := true; json := json global;
            noColor := noColor global; quiet := quiet global; verbose := verbose global |}
  else if String.eqb arg "--json" then
    Some {| help := help global; version := version global; json := true;
            noColor := noColor global; quiet := quiet global; verbose := verbose global |}
  else if String.eqb arg "--no-color" then
    Some {| help := help global; version := version global; json := json global;
            noColor := true; quiet := quiet global; verbose := verbose global |}
  else if String.eqb arg "-q" || String.eqb arg "--quiet" then
    Some {| help := help global; version := version global; json := json global;
            noColor := noColor global; quiet := true; verbose := verbose global |}
  else if String.eqb arg "-v" || String.eqb arg "--verbose" then
    Some {| help := help global; version := version global; json := json global;
            noColor := noColor global; quiet := quiet global; verbose := true |}
  else if String.eqb arg "--plain" then Some global
  else None.

(** The flags that the [switch] knows. *)
Definition GLOBAL_FLAGS : list string :=
  ["-h"; "--help"; "--version"; "--json"; "--no-color"; "-q"; "--quiet"; "-v";
   "--verbose"; "--plain"].

(** The flags that are set when the arguments [flags] were given, in any
    order and any number of times. *)
Definition flags_given (flags : list string) : GlobalFlags :=
  {| help := existsb is_help flags;
     version := existsb (String.eqb "--version") flags;
     json := existsb (String.eqb "--json") flags;
     noColor := existsb (String.eqb "--no-color") flags;
     quiet := existsb (fun arg => String.eqb arg "-q" || String.eqb arg "--quiet") flags;
     verbose := existsb (fun arg => String.eqb arg "-v" || String.eqb arg "--verbose") flags |}.

(** The loop of [parseGlobalArgs] and what follows it, with [argv] the
    arguments from index [i] on. *)
Fixpoint parseGlobalArgs_from (global : GlobalFlags) (argv : list string)
    : Outcome ParsedCli :=
  match argv with
  | [] => Returned {| global := global; command := None; args := [] |}
  | arg :: rest =>
      if negb (JsString.startsWith "-" arg) then
        Returned {| global := global; command := Some arg; args := rest |}
      else if String.eqb arg "--" then
        Returned {| global := global; command := head rest; args := tail rest |}
      else
        match global_switch arg global with
        | Some global => parseGlobalArgs_from global rest
        | None => Threw (new_CliError usage_error ("Unknown global flag: " +:+ arg))
        end
  end.

Definition parseGlobalArgs (argv : list string) : Outcome ParsedCli :=
  parseGlobalArgs_from defaultGlobalFlags argv.

(** What [parseRunArgs] returns. *)
Record RunArgs : Type := {
  prefix : option string;
  outputFile : option string;
  jsonMode : bool;
}.

(** [!value || value.startsWith("-")] for [value = args[i + 1]]. *)
Definition no_value (value : option string) : bool :=
  match value with
  | Some value => negb (Js.truthy value) || JsString.startsWith "-" value
  | None => true
  end.

(** The loop of [parseRunArgs], with [args] the arguments from index [i]
    on. *)
Fixpoint parseRunArgs_from (prefix outputFile : option string) (jsonMode : bool)
    (args : list string) : Outcome RunArgs :=
  match args with
  | [] => Returned {| prefix := prefix; outputFile := outputFile; jsonMode := jsonMode |}
  | arg :: rest =>
      if String.eqb arg "--prefix" then
        match rest with
        | value :: rest' =>
            if no_value (Some value) then
              Threw (new_CliError usage_error "--prefix requires a value")
            else parseRunArgs_from (Some value) outputFile jsonMode rest'
        | [] => Threw (new_CliError usage_error "--prefix requires a value")
        end
      else if String.eqb arg "--output" then
        match rest with
        | value :: rest' =>
            if no_value (Some value) then
              Threw (new_CliError usage_error "--output requires a file path")
            else parseRunArgs_from prefix (Some value) jsonMode rest'
        | [] => Threw (new_CliError usage_error "--output requires a file path")
        end
      else if String.eqb arg "--json" then
        parseRunArgs_from prefix outputFile true rest
      else if String.eqb arg "-h" || String.eqb arg "--help" then
        Threw (new_CliError usage_error
                 "Usage: rlm run [--prefix <string>] [--output <file>] [--json]")
      else Threw (new_CliError usage_error ("Unknown run flag: " +:+ arg))
  end.

Definition parseRunArgs (args : list string) (inheritedJson : bool) : Outcome RunArgs :=
  parseRunArgs_from None None inheritedJson args.

(** [result] is the value after the last [flag] of [args], a word that is
    not empty and does not start with a dash, or [init] when [flag] is not
    among [args]. *)
Definition last_value (flag : string) (init : option string) (args : list string)
    (result : option string) : Prop :=
  ((flag ∉ args) /\ result = init) \/
  exists before value after,
    args = before ++ flag :: value :: after /\ (flag ∉ after) /\
    result = Some value /\ value <> "" /\ JsString.startsWith "-" value = false.

Section cli.

Variable _config : RlmConfig.
Variable getEnv : EnvGetter.
Variable preflight : Outcome (list string).
Variable initial_code : string.
Variable JSON_stringify : value -> Outcome string.
Variable logFile : option string.
Variable faults : Faults.
Variable uuid : string.

(** How the model and the sandboxed code answer during a run. *)
Variable script : Script.

(** The text on the standard input, and [stdinIsTty()]. *)
Variable stdin : string.
Variable stdinIsTty : bool.

(** [runSmokeCommand({ jsonMode })] of [smoke_proxy.ts], which talks to the
    proxy. *)
Variable runSmokeCommand : bool -> Process -> Outcome Z * Process.

(** For the log viewer: [JSON.parse], the fault of reading the log file, and
    the printers. *)
Variable JSON_parse : string -> option value.
Variable read_fault : option Exception.
Variable render :
  string -> list ViewLogs.LogEntry -> ViewLogs.Nodes -> Process -> Outcome unit * Process.

Definition runCommand (args : list string) (inheritedJson : bool) (p : Process)
    : Outcome Z * Process :=
  match parseRunArgs args inheritedJson with
  | Threw err => (Threw err, p)
  | Returned parsed =>
      runSubagentCommand _config getEnv preflight initial_code JSON_stringify logFile
        faults uuid script
        {| opt_context := stdin; opt_prefix := prefix parsed;
           opt_outputFile := outputFile parsed; opt_jsonMode := jsonMode parsed |} p
  end.

Definition smokeCommand (args : list string) (inheritedJson : bool) (p : Process)
    : Outcome Z * Process :=
  if existsb is_help args then
    (Threw (new_CliError usage_error "Usage: rlm smoke [--json]"), p)
  else
    match find (fun arg => negb (String.eqb arg "--json")) args with
    | Some arg => (Threw (new_CliError usage_error ("Unknown smoke flag: " +:+ arg)), p)
    | None => runSmokeCommand (inheritedJson || existsb (String.eqb "--json") args) p
    end.

Definition LOGS_USAGE : string :=
  "Usage: rlm logs view <log-file> [--tree|--stats|--linear]".

Definition logsCommand (args : list string) (p : Process) : Outcome Z * Process :=
  match args with
  | [] => (Threw (new_CliError usage_error LOGS_USAGE), p)
  | first :: _ =>
      if negb (String.eqb first "view") then
        (Threw (new_CliError usage_error LOGS_USAGE), p)
      else
        match args !! 1%nat with
        | None => (Threw (new_CliError usage_error LOGS_USAGE), p)
        | Some logFile =>
            if negb (Js.truthy logFile) then
              (Threw (new_CliError usage_error LOGS_USAGE), p)
            else if (3 <? Z.of_nat (length args)) then
              (Threw (new_CliError usage_error LOGS_USAGE), p)
            else
              ViewLogs.runLogsViewCommand JSON_parse read_fault render logFile
                (args !! 2%nat) p
        end
  end.

Definition SHELLS : list string := ["bash"; "zsh"; "fish"].

Definition completionCommand (args : list string) (p : Process) : Outcome Z * Process :=
  match head args with
  | Some shell =>
      if negb (Js.truthy shell) || negb (existsb (String.eqb shell) SHELLS) then
        (Threw (new_CliError usage_error "Usage: rlm completion <bash|zsh|fish>"), p)
      else
        (Returned EXIT_CODES.GENERIC,
         print stderr ("completion for '" +:+ shell +:+ "' is not implemented yet") p)
  | None => (Threw (new_CliError usage_error "Usage: rlm completion <bash|zsh|fish>"), p)
  end.

(** [parsed.command === name] *)
Definition command_is (name : string) (command : option string) : bool :=
  match command with
  | Some c => String.eqb c name
  | None => false
  end.

(** [runCli(argv)].  The variable [NO_COLOR] that it sets for [--no-color]
    is read by the colour library only, and colours are left out. *)
Definition runCli (argv : list string) (p : Process) : Outcome Z * Process :=
  match parseGlobalArgs argv with
  | Threw err => (Threw err, p)
  | Returned parsed =>
      if version (global parsed) || command_is "version" (command parsed) then
        (Returned EXIT_CODES.OK, print stdout VERSION p)
      else if help (global parsed) || command_is "help" (command parsed) then
        (Returned EXIT_CODES.OK, printHelp p)
      else
        match command parsed with
        | None | Some EmptyString =>
            if stdinIsTty then (Returned EXIT_CODES.USAGE, printHelp p)
            else runCommand [] (json (global parsed)) p
        | Some name =>
            if String.eqb name "run" then runCommand (args parsed) (json (global parsed)) p
            else if String.eqb name "smoke" then
              smokeCommand (args parsed) (json (global parsed)) p
            else if String.eqb name "logs" then logsCommand (args parsed) p
            else if String.eqb name "completion" then completionCommand (args parsed) p
            else (Threw (new_CliError usage_error ("Unknown command: " +:+ name)), p)
        end
  end.

End cli.

(** ** A sample log *)

Definition sample_entry (id : string) (parent : value) : ViewLogs.LogEntry :=
  {| ViewLogs.run_id := id; ViewLogs.event_type := "run_start";
     ViewLogs.time := Finite 0;
     ViewLogs.object :=
       Obj (<["run_id" := Str id]> (<["event_type" := Str "run_start"]>
           (<["time" := Num (Finite 0)]> (<["parent_run_id" := parent]> ∅)))) |}.

(** A root, its child, which logs twice, and a run whose parent is not in
    the log. *)
Definition sample_log : list ViewLogs.LogEntry :=
  [sample_entry "root" Undefined; sample_entry "kid" (Str "root");
   sample_entry "lost" (Str "gone"); sample_entry "kid" (Str "root")].

Definition sample_node (id : string) (parent : value) (logged : nat) (kids : list string)
    : ViewLogs.RunNode :=
  {| ViewLogs.node_run_id := id; ViewLogs.node_parent_run_id := parent;
     ViewLogs.node_depth := Undefined;
     ViewLogs.events := replicate logged (sample_entry id parent);
     ViewLogs.children := kids |}.

(** ** The list of models ([provider_config.ts], [fetchAvailableModels]) *)

(** What [fetch] resolves to, as far as it is read: [response.ok],
    [response.status], [response.statusText] and the text of the body. *)
Record Response : Type := {
  ok : bool;
  status : Z;
  statusText : string;
  bodyText : string;
}.

Section model_list.

(** [JSON.parse], which returns the parsed value or throws. *)
Variable JSON_parse : string -> option value.

(** The [TypeError] of the engine for a failing expression: a property read
    on [null], or a call of what is not a function. *)
Variable TypeError : string -> Exception.

(** [entry.id] *)
Definition entry_id (entry : value) : Outcome value :=
  match entry with
  | Undefined | Null => Threw (TypeError "entry.id")
  | _ => Returned (Js.get entry "id")
  end.

(** [entries.map((entry) => entry.id)] *)
Fixpoint map_entry_id (entries : list value) : Outcome (list value) :=
  match entries with
  | [] => Returned []
  | entry :: rest =>
      match entry_id entry with
      | Threw err => Threw err
      | Returned id =>
          match map_entry_id rest with
          | Threw err => Threw err
          | Returned ids => Returned (id :: ids)
          end
      end
  end.

(** [typeof id === "string" && id.length > 0] *)
Definition model_id (id : value) : option string :=
  match id with
  | Str (String _ _ as name) => Some name
  | _ => None
  end.

(** [fetched] is the outcome of the request and of reading its body. *)
Definition fetchAvailableModels (client : ProxyClientConfig) (fetched : Outcome Response)
    : Outcome (list string) :=
  match fetched with
  | Threw err => Threw err
  | Returned response =>
      if negb (ok response) then
        Threw (new_Error
                 ("Failed to fetch models from " +:+ baseURL client +:+ "/models: "
                  +:+ pretty (status response) +:+ " " +:+ statusText response +:+ ". "
                  +:+ "Response: " +:+ bodyText response))
      else
        match JSON_parse (bodyText response) with
        | None => Threw (new_Error ("Expected JSON from /models, got: " +:+ bodyText response))
        | Some parsed =>
            match parsed with
            | Undefined | Null => Threw (TypeError "parsed.data")
            | _ =>
                match Js.coalesce (Js.get parsed "data") (Arr []) with
                | Arr entries =>
                    match map_entry_id entries with
                    | Threw err => Threw err
                    | Returned ids =>
                        let modelIds := omap model_id ids in
                        if Z.of_nat (length modelIds) =? 0 then
                          Threw (new_Error
                                   "No models returned by /models; cannot select runtime model.")
                        else Returned modelIds
                    end
                | _ => Threw (TypeError "(data ?? []).map")
                end
            end
        end
  end.

End model_list.

(** A reply of the proxy with two models, among entries without a usable
    id. *)
Definition sample_models : value :=
  Obj (<["data" := Arr [Obj (<["id" := Str "gpt-5"]> ∅); Obj (<["id" := Str ""]> ∅);
                        Obj (<["object" := Str "model"]> ∅);
                        Obj (<["id" := Str "gemini-2.5-flash"]> ∅)]]> ∅).

Definition sample_response : Response :=
  {| ok := true; status := 200; statusText := "OK"; bodyText := "{...}" |}.

(** ** The final result that a piece of code leaves

    The value of [__final_result__] after code that calls no [llm_query]
    ran, when it was [before]: the argument of the last [FINAL] that the code
    executed, or [before] when it executed none. *)
Fixpoint assigned (code : Py) (before : PyValue) : option PyValue :=
  match code with
  | PyReturn | PyRaise _ => Some before
  | PyPrint _ next => assigned next before
  | PyFINAL x next => assigned next x
  | PyLlmQuery _ _ _ _ _ => None
  end.

(** * Properties *)

(** ** Strings *)

Section string_facts.
Implicit Types s t u : string.

Lemma app_cons a s t : String a s +:+ t = String a (s +:+ t).
Proof. reflexivity. Qed.

Lemma app_empty_l s : "" +:+ s = s.
Proof. reflexivity. Qed.

Lemma app_empty_r s : s +:+ "" = s.
Proof. induction s as [|a s IH]; [done|]. by rewrite app_cons, IH. Qed.

Lemma app_assoc_str s t u : (s +:+ t) +:+ u = s +:+ t +:+ u.
Proof. induction s as [|a s IH]; [done|]. by rewrite !app_cons, IH. Qed.

Lemma str_length_app s t :
  String.length (s +:+ t) = (String.length s + String.length t)%nat.
Proof. induction s as [|a s IH]; [done|]. rewrite app_cons. simpl. by rewrite IH. Qed.

Lemma js_length_app s t :
  JsString.length (s +:+ t) = JsString.length s + JsString.length t.
Proof. unfold JsString.length. rewrite str_length_app. lia. Qed.

Lemma js_length_nonneg s : 0 <= JsString.length s.
Proof. unfold JsString.length. lia. Qed.

Lemma js_length_0 s : JsString.length s = 0 -> s = "".
Proof. unfold JsString.length. destruct s; [done|]. simpl. lia. Qed.

Lemma take_drop n s : JsString.take n s +:+ JsString.drop n s = s.
Proof.
  revert s. induction n as [|n IH]; intros [|a s]; simpl; try done.
  by rewrite app_cons, IH.
Qed.

Lemma str_length_drop n s :
  String.length (JsString.drop n s) = (String.length s - n)%nat.
Proof. revert s. induction n as [|n IH]; intros [|a s]; simpl; auto with lia. Qed.

Lemma drop_app_exact s t : JsString.drop (String.length s) (s +:+ t) = t.
Proof. induction s as [|a s IH]; [done|]. by rewrite app_cons. Qed.

Lemma drop_drop n m s :
  JsString.drop n (JsString.drop m s) = JsString.drop (m + n) s.
Proof.
  revert s. induction m as [|m IH]; intros s; [done|].
  destruct s as [|a s]; simpl; [by destruct n|]. apply IH.
Qed.

(** Taking the last [k] characters, for [0 < k < length]. *)
Lemma slice_neg k s :
  0 < k -> k < JsString.length s ->
  JsString.slice (- k) s = JsString.drop (Z.to_nat (JsString.length s - k)) s.
Proof.
  intros Hk Hlen. unfold JsString.slice.
  assert (((- k) <? 0) = true) as -> by lia.
  f_equal. lia.
Qed.

Lemma slice_neg_length k s :
  0 < k -> k < JsString.length s ->
  JsString.length (JsString.slice (- k) s) = k.
Proof.
  intros Hk Hlen. rewrite slice_neg by done.
  unfold JsString.length in *. rewrite str_length_drop. lia.
Qed.

(** The last [k] characters of [s +:+ t] are those of [t] when [t] is longer. *)
Lemma slice_neg_app k s t :
  0 < k -> k < JsString.length t ->
  JsString.slice (- k) (s +:+ t) = JsString.slice (- k) t.
Proof.
  intros Hk Hlen.
  pose proof (js_length_nonneg s) as Hs.
  rewrite (slice_neg k t) by done.
  rewrite slice_neg by (rewrite ?js_length_app; lia).
  rewrite js_length_app.
  replace (Z.to_nat (JsString.length s + JsString.length t - k))
    with (String.length s + Z.to_nat (JsString.length t - k))%nat
    by (unfold JsString.length in *; lia).
  by rewrite <-drop_drop, drop_app_exact.
Qed.

(** The last [k] characters of [s +:+ t] are [t] when [t] has [k] characters. *)
Lemma slice_neg_app_exact k s t :
  0 < k -> JsString.length t = k -> s <> "" ->
  JsString.slice (- k) (s +:+ t) = t.
Proof.
  intros Hk Hlen Hs.
  assert (0 < JsString.length s).
  { destruct s; [done|]. unfold JsString.length. simpl. lia. }
  rewrite slice_neg; [|done|rewrite js_length_app; lia].
  rewrite js_length_app.
  replace (Z.to_nat (JsString.length s + JsString.length t - k))
    with (String.length s) by (unfold JsString.length in *; lia).
  apply drop_app_exact.
Qed.
End string_facts.

(** ** Output truncation *)

Example truncateText_default_empty :
  truncateText empty_config "" = "[EMPTY OUTPUT]".
Proof. reflexivity. Qed.

Example truncateText_3_exact :
  truncateText config_truncate_3 "abc" = "[FULL OUTPUT SHOWN]... abc".
Proof. reflexivity. Qed.

Example truncateText_3_over :
  truncateText config_truncate_3 "abcd" = "[TRUNCATED: Last 3 chars shown].. bcd".
Proof. vm_compute. reflexivity. Qed.

(** C2. For a positive [TRUNCATE_LEN], [truncateText] returns the empty-output
    marker on the empty string, the full-output marker followed by the text
    when the text has between 1 and [TRUNCATE_LEN] characters (the bound
    included), and otherwise the truncation marker, which prints
    [TRUNCATE_LEN], followed by the last [TRUNCATE_LEN] characters of the
    text. *)
Theorem truncateText_cases (cfg : RlmConfig) (text : string) :
  0 < TRUNCATE_LEN cfg ->
  (JsString.length text = 0 -> truncateText cfg text = "[EMPTY OUTPUT]") /\
  (0 < JsString.length text <= TRUNCATE_LEN cfg ->
     truncateText cfg text = "[FULL OUTPUT SHOWN]... " +:+ text) /\
  (TRUNCATE_LEN cfg < JsString.length text ->
     exists head tail,
       text = head +:+ tail /\
       JsString.length tail = TRUNCATE_LEN cfg /\
       truncateText cfg text =
         "[TRUNCATED: Last " +:+ pretty (TRUNCATE_LEN cfg) +:+ " chars shown].. " +:+ tail).
Proof.
  intros Hpos. unfold truncateText. repeat split.
  - intros Hlen. rewrite Hlen.
    assert ((TRUNCATE_LEN cfg <? 0) = false) as -> by lia. reflexivity.
  - intros [Hlo Hhi].
    assert ((TRUNCATE_LEN cfg <? JsString.length text) = false) as -> by lia.
    assert ((JsString.length text =? 0) = false) as -> by lia. reflexivity.
  - intros Hlen.
    assert ((TRUNCATE_LEN cfg <? JsString.length text) = true) as -> by lia.
    exists (JsString.take (Z.to_nat (JsString.length text - TRUNCATE_LEN cfg)) text),
      (JsString.slice (- TRUNCATE_LEN cfg) text).
    split; [|split].
    + rewrite slice_neg by done. symmetry. apply take_drop.
    + by apply slice_neg_length.
    + unfold TRUNCATED_PREFIX. by rewrite !app_assoc_str.
Qed.

Lemma truncateText_cases_witness :
  exists head tail,
    "abcde" = head +:+ tail /\
    JsString.length tail = TRUNCATE_LEN config_truncate_3 /\
    truncateText config_truncate_3 "abcde" =
      "[TRUNCATED: Last " +:+ pretty (TRUNCATE_LEN config_truncate_3)
        +:+ " chars shown].. " +:+ tail.
Proof.
  apply (truncateText_cases config_truncate_3 "abcde"); reflexivity.
Defined.

(** The two markers differ from their second character on. *)
Lemma truncated_ne_full cfg s t : TRUNCATED_PREFIX cfg +:+ s <> FULL_PREFIX +:+ t.
Proof. unfold TRUNCATED_PREFIX, FULL_PREFIX. rewrite !app_cons. discriminate. Qed.

Lemma truncated_ne_empty cfg s : TRUNCATED_PREFIX cfg +:+ s <> EMPTY_OUTPUT.
Proof. unfold TRUNCATED_PREFIX, EMPTY_OUTPUT. rewrite !app_cons. discriminate. Qed.

Lemma full_prefix_grows t : FULL_PREFIX +:+ t <> t.
Proof.
  intros H. apply (f_equal JsString.length) in H.
  rewrite js_length_app in H. unfold FULL_PREFIX, JsString.length in H.
  simpl in H. lia.
Qed.

Lemma truncated_prefix_nonempty cfg : TRUNCATED_PREFIX cfg <> "".
Proof. unfold TRUNCATED_PREFIX. rewrite app_cons. discriminate. Qed.

(** Truncating a text that was truncated to its tail changes nothing. *)
Lemma truncateText_long_fixed cfg text :
  0 < TRUNCATE_LEN cfg -> TRUNCATE_LEN cfg < JsString.length text ->
  truncateText cfg (truncateText cfg text) = truncateText cfg text.
Proof.
  intros Hpos Hlen.
  assert (truncateText cfg text
          = TRUNCATED_PREFIX cfg +:+ JsString.slice (- TRUNCATE_LEN cfg) text) as Hu.
  { unfold truncateText.
    by assert ((TRUNCATE_LEN cfg <? JsString.length text) = true) as -> by lia. }
  rewrite Hu.
  pose proof (slice_neg_length _ _ Hpos Hlen) as Htail.
  pose proof (truncated_prefix_nonempty cfg) as Hne.
  assert (0 < JsString.length (TRUNCATED_PREFIX cfg)).
  { destruct (TRUNCATED_PREFIX cfg); [done|]. unfold JsString.length. simpl. lia. }
  unfold truncateText.
  rewrite js_length_app, Htail.
  assert ((TRUNCATE_LEN cfg <? JsString.length (TRUNCATED_PREFIX cfg) + TRUNCATE_LEN cfg) = true)
    as -> by lia.
  f_equal. by apply slice_neg_app_exact.
Qed.

(** A text of at most [TRUNCATE_LEN] characters gets a marker in front at
    each application. *)
Lemma truncateText_short_moves cfg text :
  JsString.length text <= TRUNCATE_LEN cfg ->
  truncateText cfg (truncateText cfg text) <> truncateText cfg text.
Proof.
  intros Hlen.
  assert (truncateText cfg text = EMPTY_OUTPUT
          \/ truncateText cfg text = FULL_PREFIX +:+ text) as [Hu|Hu].
  { unfold truncateText.
    assert ((TRUNCATE_LEN cfg <? JsString.length text) = false) as -> by lia.
    destruct (JsString.length text =? 0); auto. }
  - rewrite Hu. unfold truncateText. repeat case_match;
      auto using truncated_ne_empty, full_prefix_grows; discriminate.
  - rewrite Hu. unfold truncateText. repeat case_match;
      auto using truncated_ne_full, full_prefix_grows; discriminate.
Qed.

(** C3, as the code has it: a second application of [truncateText] changes
    the marker-prefixed result of the first. *)
Lemma truncateText_not_idempotent :
  truncateText empty_config (truncateText empty_config "")
  <> truncateText empty_config "".
Proof. vm_compute. discriminate. Qed.

(** C3, amended. For a positive [TRUNCATE_LEN], applying [truncateText] twice
    gives the same string as applying it once exactly when the text is longer
    than [TRUNCATE_LEN]; on a shorter text (the empty one included) the second
    application differs from the first. *)
Theorem truncateText_idempotent_iff (cfg : RlmConfig) (text : string) :
  0 < TRUNCATE_LEN cfg ->
  (truncateText cfg (truncateText cfg text) = truncateText cfg text
   <-> TRUNCATE_LEN cfg < JsString.length text).
Proof.
  intros Hpos. split.
  - intros Heq. destruct (decide (TRUNCATE_LEN cfg < JsString.length text)) as [|Hn]; [done|].
    exfalso. apply (truncateText_short_moves cfg text); [lia|done].
  - by apply truncateText_long_fixed.
Qed.

Lemma truncateText_idempotent_iff_witness :
  truncateText config_truncate_3 (truncateText config_truncate_3 "abcde")
    = truncateText config_truncate_3 "abcde"
  <-> TRUNCATE_LEN config_truncate_3 < JsString.length "abcde".
Proof.
  apply (truncateText_idempotent_iff config_truncate_3 "abcde"). reflexivity.
Defined.

(** ** Model selection *)

Lemma startsWith_app p s : JsString.startsWith p (p +:+ s) = true.
Proof.
  induction p as [|a p IH]; [done|].
  rewrite app_cons. simpl. by rewrite Ascii.eqb_refl.
Qed.

Lemma includes_here p s : JsString.includes p (p +:+ s) = true.
Proof.
  destruct (p +:+ s) eqn:E; simpl; rewrite <-E, startsWith_app; done.
Qed.

Lemma includes_app_r p s t :
  JsString.includes p t = true -> JsString.includes p (s +:+ t) = true.
Proof.
  intros H. induction s as [|a s IH]; [done|].
  rewrite app_cons. simpl. rewrite IH. apply orb_true_r.
Qed.

Lemma includes_middle p s t : JsString.includes p (s +:+ p +:+ t) = true.
Proof. apply includes_app_r, includes_here. Qed.

Lemma has_list_to_set (l : list string) (id : string) :
  has (list_to_set l) id = bool_decide (id ∈ l).
Proof. unfold has. apply bool_decide_ext. set_solver. Qed.

Lemma scan_find (l candidates : list string) :
  scan (list_to_set l) candidates
  = List.find (fun id => bool_decide (id ∈ l)) candidates.
Proof.
  induction candidates as [|c cs IH]; [done|].
  simpl. rewrite has_list_to_set. by destruct (bool_decide (c ∈ l)).
Qed.

Lemma find_elem_of (l candidates : list string) (id : string) :
  List.find (fun id => bool_decide (id ∈ l)) candidates = Some id -> id ∈ l.
Proof.
  intros H. apply List.find_some in H as [_ H]. by apply bool_decide_eq_true in H.
Qed.

Lemma head_elem_of (l : list string) : l <> [] -> default "" (head l) ∈ l.
Proof. destruct l; [done|]. intros _. simpl. set_solver. Qed.

Lemma find_Exists (available candidates : list string) :
  bool_decide (Exists (fun id => id ∈ available) candidates)
  = match List.find (fun id => bool_decide (id ∈ available)) candidates with
    | Some _ => true
    | None => false
    end.
Proof.
  induction candidates as [|c cs IH]; [done|]. simpl.
  destruct (bool_decide (c ∈ available)) eqn:Hc.
  - apply bool_decide_eq_true. apply Exists_cons. left. by apply bool_decide_eq_true in Hc.
  - rewrite <-IH. apply bool_decide_ext. rewrite Exists_cons.
    apply bool_decide_eq_false in Hc. tauto.
Qed.

Lemma truthy_nonempty (s : string) : Js.truthy s = bool_decide (s <> "").
Proof. by destruct s. Qed.

(** [pickModel] follows the described rule, in what it selects and in what
    it warns. *)
Lemma pickModel_described role requested available getEnv :
  pickModel role requested available getEnv
  = {| selected := described_choice role requested available getEnv;
       warning :=
         if bool_decide (requested ∈ available) then None
         else Some (described_warning role requested available getEnv) |}.
Proof.
  unfold pickModel, described_warning, described_choice, getEnvValue.
  rewrite has_list_to_set.
  destruct (bool_decide (requested ∈ available)); [done|].
  rewrite scan_find, find_Exists. cbv zeta.
  replace (match role with primary => PRIMARY_FALLBACKS | sub => SUB_FALLBACKS end)
    with (builtin_fallbacks role) by (by destruct role).
  replace (match role with
           | primary => "RLM_FALLBACK_PRIMARY" | sub => "RLM_FALLBACK_SUB" end)
    with (fallback_variable role) by (by destruct role).
  replace (role_name role) with (role_word role) by (by destruct role).
  assert (forall id : string,
            bool_decide (id <> "" /\ id ∈ available)
            = Js.truthy id && bool_decide (id ∈ available)) as Hboth.
  { intros id. rewrite truthy_nonempty.
    destruct (bool_decide (id <> "")) eqn:H1; destruct (bool_decide (id ∈ available)) eqn:H2;
      simpl; [apply bool_decide_eq_true|apply bool_decide_eq_false..];
      try apply bool_decide_eq_true in H1; try apply bool_decide_eq_true in H2;
      try apply bool_decide_eq_false in H1; try apply bool_decide_eq_false in H2; tauto. }
  destruct (getEnv (fallback_variable role)) as [raw|].
  - rewrite Hboth. destruct (Js.truthy (Js.trim raw)); simpl.
    + rewrite has_list_to_set. destruct (bool_decide (Js.trim raw ∈ available)).
      * by rewrite !app_assoc_str.
      * by destruct (List.find _ _).
    + by destruct (List.find _ _).
  - by destruct (List.find _ _).
Qed.
Lemma pickModel_available role requested available getEnv :
  requested ∈ available ->
  pickModel role requested available getEnv
  = {| selected := requested; warning := None |}.
Proof.
  intros H. unfold pickModel. rewrite has_list_to_set.
  by rewrite bool_decide_eq_true_2.
Qed.

Lemma pickModel_unavailable role requested available getEnv :
  available <> [] -> requested ∉ available ->
  let picked := pickModel role requested available getEnv in
  selected picked ∈ available /\
  exists w, warning picked = Some w /\
    Js.truthy w = true /\
    JsString.includes (role_name role) w = true /\
    JsString.includes requested w = true /\
    JsString.includes (selected picked) w = true.
Proof.
  intros Hne Hreq. unfold pickModel. rewrite has_list_to_set.
  rewrite bool_decide_eq_false_2 by done. rewrite scan_find.
  assert (forall a b : string, Js.truthy ("Requested " +:+ a +:+ b) = true) as Htruthy by done.
  assert (forall (a b c d e : string),
             JsString.includes a ("Requested " +:+ a +:+ " model '" +:+ b +:+ c) = true /\
             JsString.includes b ("Requested " +:+ a +:+ " model '" +:+ b +:+ c) = true /\
             JsString.includes d ("Requested " +:+ a +:+ " model '" +:+ b +:+ c +:+ d +:+ e) = true)
    as Hnames.
  { intros a b c d e. split; [|split].
    - apply includes_middle.
    - rewrite <-2!app_assoc_str. apply includes_middle.
    - rewrite <-4!app_assoc_str. apply includes_middle. }
  assert (forall picked : Picked,
    (exists c d, selected picked ∈ available /\
       warning picked = Some ("Requested " +:+ role_name role +:+ " model '" +:+ requested
                              +:+ c +:+ selected picked +:+ d)) ->
    selected picked ∈ available /\
    exists w, warning picked = Some w /\ Js.truthy w = true /\
      JsString.includes (role_name role) w = true /\
      JsString.includes requested w = true /\
      JsString.includes (selected picked) w = true) as Hshape.
  { intros picked (c & d & Hin & Hw). split; [done|]. eexists. split; [exact Hw|].
    split; [apply Htruthy|].
    destruct (Hnames (role_name role) requested (c +:+ selected picked +:+ d) "" "")
      as (H1 & H2 & _).
    destruct (Hnames (role_name role) requested c (selected picked) d) as (_ & _ & H3).
    auto. }
  cbv zeta.
  set (from_defaults := match List.find _ _ with Some _ => _ | None => _ end).
  assert (selected from_defaults ∈ available /\
    exists w, warning from_defaults = Some w /\ Js.truthy w = true /\
      JsString.includes (role_name role) w = true /\
      JsString.includes requested w = true /\
      JsString.includes (selected from_defaults) w = true) as Hdefaults.
  { subst from_defaults.
    destruct (List.find _ _) as [candidate|] eqn:Hfind.
    - apply Hshape. exists "' is unavailable; using fallback '", "'.". simpl.
      split; [by eapply find_elem_of|done].
    - apply Hshape. exists "' is unavailable; using first available model '", "'.". simpl.
      split; [by apply head_elem_of|done]. }
  destruct (getEnvValue _ getEnv) as [fromEnv|]; [|done].
  rewrite has_list_to_set.
  destruct (bool_decide (fromEnv ∈ available)) eqn:Hav; [|done].
  apply bool_decide_eq_true in Hav.
  apply Hshape.
  exists ("' is unavailable; using "
            +:+ match role with
                | primary => "RLM_FALLBACK_PRIMARY" | sub => "RLM_FALLBACK_SUB" end
            +:+ "='"), "'.".
  simpl. split; [done|]. by rewrite !app_assoc_str.
Qed.

Lemma push_warning_option (ws : list string) (w : option string) :
  (forall text, w = Some text -> Js.truthy text = true) ->
  push_warning ws w = ws ++ option_list w.
Proof.
  intros H. destruct w as [text|]; simpl; [|by rewrite app_nil_r].
  by rewrite (H text eq_refl).
Qed.

Lemma pickModel_warning_truthy role requested available getEnv text :
  warning (pickModel role requested available getEnv) = Some text ->
  Js.truthy text = true.
Proof.
  unfold pickModel. repeat case_match; simpl; intros [= <-]; done.
Qed.

Lemma pickModel_env role requested available (getEnv getEnv' : EnvGetter) :
  getEnv' (fallback_variable role) = getEnv (fallback_variable role) ->
  pickModel role requested available getEnv'
  = pickModel role requested available getEnv.
Proof.
  intros H. unfold pickModel, getEnvValue.
  replace (match role with
           | primary => "RLM_FALLBACK_PRIMARY" | sub => "RLM_FALLBACK_SUB" end)
    with (fallback_variable role) by (by destruct role).
  by rewrite H.
Qed.

Example resolveRuntimeModels_fallback_scenario :
  resolveRuntimeModels
    {| requestedPrimary := "gpt-6"; requestedSub := "gpt-5-codex-mini" |}
    ["gpt-5"; "gpt-5-codex-mini"] no_env
  = {| primaryAgent := "gpt-5";
       subAgent := "gpt-5-codex-mini";
       warnings := ["Requested primary model 'gpt-6' is unavailable; using fallback 'gpt-5'."] |}.
Proof. vm_compute. reflexivity. Qed.

Example resolveRuntimeModels_env_scenario :
  resolveRuntimeModels
    {| requestedPrimary := "gpt-6"; requestedSub := "gpt-5-codex-mini" |}
    ["gpt-4o"; "gemini-2.5-flash"] fallback_env
  = {| primaryAgent := "gpt-4o";
       subAgent := "gemini-2.5-flash";
       warnings :=
         ["Requested primary model 'gpt-6' is unavailable; using RLM_FALLBACK_PRIMARY='gpt-4o'.";
          "Requested sub model 'gpt-5-codex-mini' is unavailable; using fallback 'gemini-2.5-flash'."] |}.
Proof. vm_compute. reflexivity. Qed.

(** C5. On a non-empty list of available models, [resolveRuntimeModels]
    picks for each role the model of the described rule (the requested id when
    available, else the role's fallback variable when set and available, else
    the first available member of the role's built-in list, else the first
    available model); a requested id that is available is kept without a
    warning; one that is not gives an available model, different from it, and
    exactly one warning, the sentence of the described rule, that names the
    role, the requested id and the chosen id; the warnings of the result are
    those of the primary role followed by those of the sub role; and the
    result depends on the environment through the two fallback variables
    only. *)
Theorem resolveRuntimeModels_selection
    (requested : ModelNames) (available : list string) (getEnv : EnvGetter) :
  available <> [] ->
  let resolved := resolveRuntimeModels requested available getEnv in
  let choice role id := described_choice role id available getEnv in
  let warned role id :=
    if bool_decide (id ∈ available) then []
    else [described_warning role id available getEnv] in
  primaryAgent resolved = choice primary (requestedPrimary requested) /\
  subAgent resolved = choice sub (requestedSub requested) /\
  warnings resolved
    = warned primary (requestedPrimary requested) ++ warned sub (requestedSub requested) /\
  (forall role id, id ∈ available -> choice role id = id /\ warned role id = []) /\
  (forall role id, id ∉ available ->
     choice role id ∈ available /\ choice role id <> id /\
     exists w, warned role id = [w] /\
       JsString.includes (match role with primary => "primary" | sub => "sub" end) w
       = true /\
       JsString.includes id w = true /\
       JsString.includes (choice role id) w = true) /\
  (forall getEnv' : EnvGetter,
     getEnv' "RLM_FALLBACK_PRIMARY" = getEnv "RLM_FALLBACK_PRIMARY" ->
     getEnv' "RLM_FALLBACK_SUB" = getEnv "RLM_FALLBACK_SUB" ->
     resolveRuntimeModels requested available getEnv' = resolved).
Proof.
  intros Hne resolved choice warned. subst resolved choice warned. cbv beta.
  assert (forall role id,
            option_list (warning (pickModel role id available getEnv))
            = if bool_decide (id ∈ available) then []
              else [described_warning role id available getEnv]) as Hwarned.
  { intros role id. rewrite pickModel_described. simpl.
    by destruct (bool_decide (id ∈ available)). }
  split; [unfold resolveRuntimeModels; cbv zeta; simpl; by rewrite pickModel_described|].
  split; [unfold resolveRuntimeModels; cbv zeta; simpl; by rewrite pickModel_described|].
  split.
  { unfold resolveRuntimeModels. cbv zeta. simpl warnings.
    rewrite !push_warning_option by eauto using pickModel_warning_truthy.
    by rewrite !Hwarned. }
  split.
  { intros role id Hin. unfold described_choice.
    by rewrite !bool_decide_eq_true_2. }
  split.
  { intros role id Hnot.
    destruct (pickModel_unavailable role id available getEnv Hne Hnot)
      as (Hin & w & Hw & _ & Hrole & Hnames).
    rewrite pickModel_described in Hin, Hw, Hnames. simpl in Hin, Hw, Hnames.
    rewrite bool_decide_eq_false_2 in Hw by done. injection Hw as <-.
    split; [done|]. split; [by intros E; rewrite E in Hin|].
    rewrite bool_decide_eq_false_2 by done.
    eexists. split; [reflexivity|]. split; [|done].
    by destruct role. }
  intros getEnv' Hp Hs. unfold resolveRuntimeModels.
  by rewrite !(pickModel_env _ _ _ getEnv getEnv').
Qed.

Lemma resolveRuntimeModels_selection_witness :
  let requested := {| requestedPrimary := "gpt-6"; requestedSub := "gpt-5-codex-mini" |} in
  let available := ["gpt-4o"; "gemini-2.5-flash"] in
  let resolved := resolveRuntimeModels requested available fallback_env in
  let choice role id := described_choice role id available fallback_env in
  let warned role id :=
    if bool_decide (id ∈ available) then []
    else [described_warning role id available fallback_env] in
  primaryAgent resolved = choice primary (requestedPrimary requested) /\
  subAgent resolved = choice sub (requestedSub requested) /\
  warnings resolved
    = warned primary (requestedPrimary requested) ++ warned sub (requestedSub requested) /\
  (forall role id, id ∈ available -> choice role id = id /\ warned role id = []) /\
  (forall role id, id ∉ available ->
     choice role id ∈ available /\ choice role id <> id /\
     exists w, warned role id = [w] /\
       JsString.includes (match role with primary => "primary" | sub => "sub" end) w
       = true /\
       JsString.includes id w = true /\
       JsString.includes (choice role id) w = true) /\
  (forall getEnv' : EnvGetter,
     getEnv' "RLM_FALLBACK_PRIMARY" = fallback_env "RLM_FALLBACK_PRIMARY" ->
     getEnv' "RLM_FALLBACK_SUB" = fallback_env "RLM_FALLBACK_SUB" ->
     resolveRuntimeModels requested available getEnv' = resolved).
Proof.
  apply (resolveRuntimeModels_selection
           {| requestedPrimary := "gpt-6"; requestedSub := "gpt-5-codex-mini" |}
           ["gpt-4o"; "gemini-2.5-flash"] fallback_env).
  discriminate.
Defined.

(** ** Usage normalisation *)

Example normalizeUsage_openai :
  normalizeUsage openai_usage
  = {| prompt_tokens := Finite 120; completion_tokens := Finite 80;
       total_tokens := Finite 200; cached_tokens := Finite 10;
       reasoning_tokens := Finite 20; cost := Finite 3 |}.
Proof. vm_compute. reflexivity. Qed.

Example normalizeUsage_metadata :
  normalizeUsage metadata_usage
  = {| prompt_tokens := Finite 50; completion_tokens := Finite 25;
       total_tokens := Finite 75; cached_tokens := Finite 0;
       reasoning_tokens := Finite 0; cost := Finite 0 |}.
Proof. vm_compute. reflexivity. Qed.

Example normalizeUsage_undefined :
  normalizeUsage Undefined
  = {| prompt_tokens := Finite 0; completion_tokens := Finite 0;
       total_tokens := Finite 0; cached_tokens := Finite 0;
       reasoning_tokens := Finite 0; cost := Finite 0 |}.
Proof. vm_compute. reflexivity. Qed.

(** What [coercePositiveNumber] lets through is finite and above 0. *)
Lemma coercePositiveNumber_Some v n :
  coercePositiveNumber v = Some n -> exists z, n = Finite z /\ 0 < z /\ v = Num n.
Proof.
  destruct v as [| | |m| | |]; simpl; try discriminate.
  destruct m as [| | |z]; simpl; try discriminate.
  destruct (z <=? 0) eqn:E; intros [= <-]. exists z. split; [done|]. split; [lia|done].
Qed.

Lemma coercePositiveNumber_None v :
  coercePositiveNumber v = None <->
  (forall z, v = Num (Finite z) -> z <= 0).
Proof.
  split.
  - intros H z ->. simpl in H. destruct (z <=? 0) eqn:E; [lia|discriminate].
  - intros H. destruct v as [| | |m| | |]; simpl; try done.
    destruct m as [| | |z]; simpl; try done.
    specialize (H z eq_refl). by assert ((z <=? 0) = true) as -> by lia.
Qed.

Lemma first_of_finite a b c va vb :
  a = coercePositiveNumber va -> b = coercePositiveNumber vb ->
  (exists z, c = Finite z /\ 0 <= z) ->
  exists z, first_of a b c = Finite z /\ 0 <= z.
Proof.
  intros -> -> Hc. unfold first_of.
  destruct (coercePositiveNumber va) as [x|] eqn:Ea.
  { apply coercePositiveNumber_Some in Ea as (z & -> & ? & _). exists z. split; [done|lia]. }
  destruct (coercePositiveNumber vb) as [x|] eqn:Eb; [|done].
  apply coercePositiveNumber_Some in Eb as (z & -> & ? & _). exists z. split; [done|lia].
Qed.

Lemma add_nonneg a b :
  0 <= a -> 0 <= b -> Number.nonneg (Number.add (Finite a) (Finite b)).
Proof.
  intros Ha Hb. simpl. destruct (Number.MAX_VALUE_HALFWAY <=? a + b); [done|].
  assert ((a + b <=? - Number.MAX_VALUE_HALFWAY) = false) as ->; [|simpl; lia].
  apply Z.leb_gt. unfold Number.MAX_VALUE_HALFWAY.
  assert (0 < 2 ^ 1024 - 2 ^ 970) by (by vm_compute). lia.
Qed.

Lemma first_of_nonneg va vb c :
  Number.nonneg c ->
  Number.nonneg (first_of (coercePositiveNumber va) (coercePositiveNumber vb) c).
Proof.
  intros Hc. unfold first_of.
  destruct (coercePositiveNumber va) as [x|] eqn:Ea.
  { apply coercePositiveNumber_Some in Ea as (z & -> & ? & _). simpl. lia. }
  destruct (coercePositiveNumber vb) as [x|] eqn:Eb; [|done].
  apply coercePositiveNumber_Some in Eb as (z & -> & ? & _). simpl. lia.
Qed.

Lemma default_coerce_finite v :
  exists z, default (Finite 0) (coercePositiveNumber v) = Finite z /\ 0 <= z.
Proof.
  destruct (coercePositiveNumber v) as [x|] eqn:E; simpl.
  - apply coercePositiveNumber_Some in E as (z & -> & ? & _). exists z. split; [done|lia].
  - by exists 0.
Qed.

(** C6, as the code has it: a finite negative [cost] is passed through. *)
Lemma normalizeUsage_negative_cost :
  cost (normalizeUsage refund_usage) = Finite (-1) /\
  ~ Number.nonneg (cost (normalizeUsage refund_usage)).
Proof. split; [vm_compute; reflexivity|]. vm_compute. intros H. by apply H. Qed.

Lemma coercePositiveNumber_not_positive v :
  ~ positive_finite v -> coercePositiveNumber v = None.
Proof.
  intros H. apply coercePositiveNumber_None. intros z ->.
  destruct (decide (z <= 0)) as [|Hz]; [done|].
  exfalso. apply H. exists z. split; [done|lia].
Qed.

(** C6, amended. [normalizeUsage] returns the canonical shape in which the
    five token counters are non-negative numbers: a flat field that is a
    finite number above 0 is kept; one that is not gives way to its
    [usageMetadata] alternative when that is a finite number above 0, and to
    0 when that is none either; [total_tokens] falls back to the sum of the
    prompt and completion counters; the detail counters are the nested values
    when those are finite numbers above 0, and 0 otherwise; [cost] is the
    reported cost when that is a finite number, of either sign, and 0
    otherwise. *)
Theorem normalizeUsage_shape (rawUsage : value) :
  let usage := Js.coalesce rawUsage (Obj ∅) in
  let usageMetadata := Js.get usage "usageMetadata" in
  let u := normalizeUsage rawUsage in
  let counter (flat alternative : value) (otherwise result : number) : Prop :=
    (forall z, flat = Num (Finite z) -> 0 < z -> result = Finite z) /\
    (~ positive_finite flat ->
     forall z, alternative = Num (Finite z) -> 0 < z -> result = Finite z) /\
    (~ positive_finite flat -> ~ positive_finite alternative -> result = otherwise) in
  (Number.nonneg (prompt_tokens u) /\ Number.nonneg (completion_tokens u) /\
   Number.nonneg (total_tokens u) /\ Number.nonneg (cached_tokens u) /\
   Number.nonneg (reasoning_tokens u)) /\
  counter (Js.get usage "prompt_tokens") (Js.opt_get usageMetadata "promptTokenCount")
    (Finite 0) (prompt_tokens u) /\
  counter (Js.get usage "completion_tokens")
    (Js.opt_get usageMetadata "candidatesTokenCount")
    (Finite 0) (completion_tokens u) /\
  counter (Js.get usage "total_tokens") (Js.opt_get usageMetadata "totalTokenCount")
    (Number.add (prompt_tokens u) (completion_tokens u)) (total_tokens u) /\
  counter (Js.opt_get (Js.get usage "prompt_tokens_details") "cached_tokens") Undefined
    (Finite 0) (cached_tokens u) /\
  counter (Js.opt_get (Js.get usage "completion_tokens_details") "reasoning_tokens")
    Undefined (Finite 0) (reasoning_tokens u) /\
  cost u = match Js.get usage "cost" with
           | Num (Finite z) => Finite z
           | _ => Finite 0
           end.
Proof.
  intros usage usageMetadata u counter. subst u. unfold normalizeUsage. fold usage.
  fold usageMetadata. cbv zeta. simpl.
  set (p := first_of (coercePositiveNumber (Js.get usage "prompt_tokens")) _ _).
  set (c := first_of (coercePositiveNumber (Js.get usage "completion_tokens")) _ _).
  assert (exists z, p = Finite z /\ 0 <= z) as (zp & Hp & Hzp).
  { eapply first_of_finite; [done..|]. by exists 0. }
  assert (exists z, c = Finite z /\ 0 <= z) as (zc & Hc & Hzc).
  { eapply first_of_finite; [done..|]. by exists 0. }
  assert (forall z, 0 < z -> coercePositiveNumber (Num (Finite z)) = Some (Finite z))
    as Hvalid.
  { intros z Hz. simpl. by assert ((z <=? 0) = false) as -> by lia. }
  assert (forall flat alternative otherwise,
            counter flat alternative otherwise
              (first_of (coercePositiveNumber flat) (coercePositiveNumber alternative)
                 otherwise)) as Hcounter.
  { intros flat alternative otherwise. subst counter. cbv beta. split; [|split].
    - intros z -> Hz. by rewrite Hvalid.
    - intros Hflat z -> Hz. rewrite (coercePositiveNumber_not_positive flat) by done.
      by rewrite Hvalid.
    - intros Hflat Halt. by rewrite !coercePositiveNumber_not_positive. }
  assert (forall nested,
            counter nested Undefined (Finite 0)
              (default (Finite 0) (coercePositiveNumber nested))) as Hdetail.
  { intros nested. apply (Hcounter nested Undefined (Finite 0)). }
  split.
  { rewrite Hp, Hc. split; [done|]. split; [done|]. split.
    { apply first_of_nonneg. by apply add_nonneg. }
    split.
    - destruct (default_coerce_finite
        (Js.opt_get (Js.get usage "prompt_tokens_details") "cached_tokens"))
        as (z & -> & Hz). done.
    - destruct (default_coerce_finite
        (Js.opt_get (Js.get usage "completion_tokens_details") "reasoning_tokens"))
        as (z & -> & Hz). done. }
  split; [apply Hcounter|]. split; [apply Hcounter|]. split; [apply Hcounter|].
  split; [apply Hdetail|]. split; [apply Hdetail|].
  destruct (Js.get usage "cost") as [| | |[| | |z]| | |]; done.
Qed.

Lemma normalizeUsage_shape_witness :
  prompt_tokens (normalizeUsage refund_usage) = Finite 7 /\
  completion_tokens (normalizeUsage refund_usage) = Finite 0 /\
  total_tokens (normalizeUsage refund_usage) = Finite 7 /\
  cost (normalizeUsage refund_usage) = Finite (-1) /\
  prompt_tokens (normalizeUsage metadata_usage) = Finite 50.
Proof.
  destruct (normalizeUsage_shape metadata_usage) as (_ & (_ & Hmetadata & _) & _).
  assert (~ positive_finite (Js.get (Js.coalesce metadata_usage (Obj ∅)) "prompt_tokens"))
    as Hflat.
  { intros (z & Hz & _). unfold metadata_usage in Hz. simpl in Hz.
    rewrite lookup_insert_ne in Hz by done. by rewrite lookup_empty in Hz. }
  specialize (Hmetadata Hflat 50 ltac:(vm_compute; reflexivity) ltac:(lia)).
  destruct (normalizeUsage_shape refund_usage)
    as (_ & (Hprompt & _) & (_ & _ & Hcompletion) & (_ & _ & Htotal) & _ & _ & Hcost).
  specialize (Hprompt 7 ltac:(vm_compute; reflexivity) ltac:(lia)).
  assert (forall k, k <> "prompt_tokens" -> k <> "cost" ->
            ~ positive_finite (Js.get (Js.coalesce refund_usage (Obj ∅)) k)) as Hno.
  { intros k H1 H2 (z & Hz & _). unfold refund_usage in Hz. simpl in Hz.
    rewrite !lookup_insert_ne in Hz by done. by rewrite lookup_empty in Hz. }
  assert (forall k, ~ positive_finite
            (Js.opt_get (Js.get (Js.coalesce refund_usage (Obj ∅)) "usageMetadata") k))
    as Hmeta.
  { intros k (z & Hz & _). unfold refund_usage in Hz. simpl in Hz.
    rewrite !lookup_insert_ne in Hz by done. by rewrite lookup_empty in Hz. }
  pose proof (Hcompletion (Hno "completion_tokens" ltac:(done) ltac:(done)) (Hmeta _))
    as Hc.
  pose proof (Htotal (Hno "total_tokens" ltac:(done) ltac:(done)) (Hmeta _)) as Ht.
  split; [done|]. split; [done|]. split; [by rewrite Ht, Hprompt, Hc|].
  split; [|done]. rewrite Hcost. vm_compute. reflexivity.
Defined.

(** *** Normalising a normalised usage *)

Lemma coercePositiveNumber_Num n :
  coercePositiveNumber (Num n) = Some n \/ coercePositiveNumber (Num n) = None.
Proof. unfold coercePositiveNumber. case_match; auto. Qed.

Lemma first_of_again a b c va vb :
  a = coercePositiveNumber va -> b = coercePositiveNumber vb ->
  first_of (coercePositiveNumber (Num (first_of a b c))) None c = first_of a b c.
Proof.
  intros -> ->. unfold first_of at 2 3.
  destruct (coercePositiveNumber va) as [x|] eqn:Ea.
  { apply coercePositiveNumber_Some in Ea as (z & -> & ? & ->).
    simpl. by assert ((z <=? 0) = false) as -> by lia. }
  destruct (coercePositiveNumber vb) as [x|] eqn:Eb.
  { apply coercePositiveNumber_Some in Eb as (z & -> & ? & ->).
    simpl. by assert ((z <=? 0) = false) as -> by lia. }
  unfold default, first_of.
  by destruct (coercePositiveNumber_Num c) as [-> | ->].
Qed.

Lemma get_usage_object u :
  Js.get (usage_object u) "prompt_tokens" = Num (prompt_tokens u) /\
  Js.get (usage_object u) "completion_tokens" = Num (completion_tokens u) /\
  Js.get (usage_object u) "total_tokens" = Num (total_tokens u) /\
  Js.get (usage_object u) "cost" = Num (cost u) /\
  Js.get (usage_object u) "usageMetadata" = Undefined /\
  Js.get (usage_object u) "prompt_tokens_details" = Undefined /\
  Js.get (usage_object u) "completion_tokens_details" = Undefined.
Proof. unfold usage_object, Js.get. repeat split; by simplify_map_eq. Qed.

Lemma normalizeUsage_cost_finite rawUsage :
  Number.isFinite (cost (normalizeUsage rawUsage)) = true.
Proof.
  unfold normalizeUsage. simpl.
  destruct (Js.get _ "cost") as [| | |n| | |]; try done.
  by destruct (Number.isFinite n) eqn:E.
Qed.

(** C7, as the code has it: the detail counters of the canonical object are
    flat, and a second normalisation, which reads them nested, loses them. *)
Lemma normalizeUsage_not_idempotent :
  normalizeUsage (usage_object (normalizeUsage openai_usage))
  <> normalizeUsage openai_usage.
Proof. vm_compute. discriminate. Qed.

(** C7, amended. Normalising a normalised usage keeps [prompt_tokens],
    [completion_tokens], [total_tokens] and [cost] and sets [cached_tokens]
    and [reasoning_tokens] to 0. *)
Theorem normalizeUsage_twice (rawUsage : value) :
  normalizeUsage (usage_object (normalizeUsage rawUsage))
  = without_details (normalizeUsage rawUsage).
Proof.
  pose proof (normalizeUsage_cost_finite rawUsage) as Hcost.
  set (u := normalizeUsage rawUsage) in *.
  destruct (get_usage_object u) as (Hp & Hc & Ht & Hk & Hm & Hpd & Hcd).
  unfold normalizeUsage at 1.
  assert (Js.coalesce (usage_object u) (Obj ∅) = usage_object u) as -> by done.
  cbv zeta. rewrite Hp, Hc, Ht, Hk, Hm, Hpd, Hcd. simpl Js.opt_get.
  change (coercePositiveNumber Undefined) with (@None number).
  rewrite Hcost. unfold without_details. simpl default.
  assert (first_of (coercePositiveNumber (Num (prompt_tokens u))) None (Finite 0)
          = prompt_tokens u) as ->.
  { subst u. unfold normalizeUsage. simpl prompt_tokens. by eapply first_of_again. }
  assert (first_of (coercePositiveNumber (Num (completion_tokens u))) None (Finite 0)
          = completion_tokens u) as ->.
  { subst u. unfold normalizeUsage. simpl completion_tokens. by eapply first_of_again. }
  f_equal.
  subst u. unfold normalizeUsage. simpl. by eapply first_of_again.
Qed.

(** ** Redaction *)

Example redactSecrets_bearer :
  redactSecrets "401 for Authorization: bearer  sk-live_12.34 (denied)"
  = "401 for Authorization: Bearer [REDACTED] (denied)".
Proof. vm_compute. reflexivity. Qed.

Example redactSecrets_api_key :
  redactSecrets "env RLM_MODEL_API_KEY = s3cr3t+/= rest"
  = "env RLM_MODEL_API_KEY = [REDACTED] rest".
Proof. vm_compute. reflexivity. Qed.

(** ** The result file *)

Lemma tmp_ne_destination (outputFile uuid : string) :
  outputFile +:+ ".tmp." +:+ uuid <> outputFile.
Proof.
  intros H. apply (f_equal String.length) in H.
  rewrite !str_length_app in H. simpl in H. lia.
Qed.

(** C10. [writeOutputAtomically] serializes the payload into a temporary file,
    whose path differs from the destination, and renames it onto the
    destination.  When it returns, the destination holds the whole serialized
    payload and the temporary file is gone.  When serializing, writing or
    renaming fails, the destination is as it was before, the temporary file is
    gone unless its removal failed too, and the error thrown is a [CliError]
    of kind [output], of exit code 7, whose message names the destination.  It
    returns exactly when none of the three steps fails, and no other path is
    touched. *)
Theorem writeOutputAtomically_atomic
    (JSON_stringify : value -> Outcome string) (faults : Faults)
    (uuid outputFile : string) (payload : value) (fs : gmap string string) :
  let tmp := outputFile +:+ ".tmp." +:+ uuid in
  let result := writeOutputAtomically JSON_stringify faults uuid outputFile payload fs in
  tmp <> outputFile /\
  (forall path, path <> tmp -> path <> outputFile -> snd result !! path = fs !! path) /\
  match fst result with
  | Returned _ =>
      exists text, JSON_stringify payload = Returned text /\
        write_fault faults = WriteSucceeds /\ rename_fault faults = None /\
        snd result !! outputFile = Some text /\
        snd result !! tmp = None
  | Threw err =>
      snd result !! outputFile = fs !! outputFile /\
      (remove_fault faults = None -> snd result !! tmp = None) /\
      ekind err = Some output_error /\
      exitCodeForError err = 7 /\
      JsString.includes outputFile (emessage err) = true /\
      ((exists err', JSON_stringify payload = Threw err') \/
       write_fault faults <> WriteSucceeds \/ rename_fault faults <> None)
  end.
Proof.
  intros tmp result. subst result.
  pose proof (tmp_ne_destination outputFile uuid) as Hne. fold tmp in Hne.
  split; [done|].
  unfold writeOutputAtomically. fold tmp.
  assert (forall (m : gmap string string) (err : Exception),
    let fs' := snd (Deno.remove (remove_fault faults) tmp m) in
    (forall path, path <> tmp -> fs' !! path = m !! path) /\
    (remove_fault faults = None -> fs' !! tmp = None)) as Hremove.
  { intros m err. unfold Deno.remove.
    destruct (remove_fault faults) as [e|]; simpl; [by split|].
    destruct (m !! tmp) eqn:E; simpl.
    - split; [intros; by rewrite lookup_delete_ne|intros; by rewrite lookup_delete_eq].
    - by split. }
  assert (forall s, JsString.includes outputFile
            ("Failed writing output file '" +:+ outputFile +:+ s) = true) as Hnames.
  { intros s. apply includes_middle. }
  destruct (JSON_stringify payload) as [text|err] eqn:Hjson.
  2:{ simpl. destruct (Hremove fs err) as [Hother Htmp].
      split; [intros; by apply Hother|].
      split; [by apply Hother|]. split; [done|]. split; [done|]. split; [done|].
      split; [apply Hnames|]. left. by exists err. }
  unfold Deno.writeTextFile.
  destruct (write_fault faults) as [|err|err written] eqn:Hwrite.
  - unfold Deno.rename. destruct (rename_fault faults) as [err|] eqn:Hrename.
    + simpl. destruct (Hremove (<[tmp:=text]> fs) err) as [Hother Htmp].
      split; [intros; rewrite Hother by done; by rewrite lookup_insert_ne|].
      split; [rewrite Hother by done; by rewrite lookup_insert_ne|].
      split; [done|]. split; [done|]. split; [done|].
      split; [apply Hnames|]. right. by right.
    + rewrite lookup_insert_eq. simpl.
      split.
      { intros path H1 H2.
        by rewrite lookup_insert_ne, lookup_delete_ne, lookup_insert_ne. }
      exists text. split; [done|]. split; [done|]. split; [done|].
      split; [by rewrite lookup_insert_eq|].
      by rewrite lookup_insert_ne, lookup_delete_eq.
  - simpl. destruct (Hremove fs err) as [Hother Htmp].
    split; [intros; by apply Hother|].
    split; [by apply Hother|]. split; [done|]. split; [done|]. split; [done|].
    split; [apply Hnames|]. right. by left.
  - simpl. destruct (Hremove (<[tmp:=written]> fs) err) as [Hother Htmp].
    split; [intros; rewrite Hother by done; by rewrite lookup_insert_ne|].
    split; [rewrite Hother by done; by rewrite lookup_insert_ne|].
    split; [done|]. split; [done|]. split; [done|].
    split; [apply Hnames|]. right. by left.
Qed.

(** ** What the agents add to the process-wide state *)

Lemma adds_refl w : adds w w [] [].
Proof. unfold adds. by rewrite !app_nil_r. Qed.

Lemma adds_trans w1 w2 w3 es1 es2 rs1 rs2 :
  adds w1 w2 es1 rs1 -> adds w2 w3 es2 rs2 -> adds w1 w3 (es1 ++ es2) (rs1 ++ rs2).
Proof.
  intros (He1 & Hr1 & Hn1) (He2 & Hr2 & Hn2). unfold adds.
  rewrite He2, He1, Hr2, Hr1, !app_assoc. repeat split; lia.
Qed.

Lemma children_only_refl w : children_only w w.
Proof. exists [], []. split; [apply adds_refl|constructor]. Qed.

Lemma children_only_trans w1 w2 w3 :
  children_only w1 w2 -> children_only w2 w3 -> children_only w1 w3.
Proof.
  intros (es1 & rs1 & H1 & F1) (es2 & rs2 & H2 & F2).
  exists (es1 ++ es2), (rs1 ++ rs2). split; [by eapply adds_trans|].
  apply Forall_app. split; [done|].
  destruct H1 as (_ & _ & Hn). eapply Forall_impl; [exact F2|]. simpl. lia.
Qed.

Lemma adds_log_event e w : adds w (log_event e w) [e] [].
Proof. unfold adds. simpl. by rewrite app_nil_r. Qed.

Lemma adds_send_request r w : adds w (send_request r w) [] [r].
Proof. unfold adds. simpl. by rewrite app_nil_r. Qed.

Lemma adds_trackUsage u w : adds w (trackUsage u w) [] [].
Proof. unfold adds. simpl. by rewrite !app_nil_r. Qed.

Lemma requests_by_app a rs1 rs2 :
  requests_by a (rs1 ++ rs2) = (requests_by a rs1 + requests_by a rs2)%nat.
Proof. unfold requests_by. by rewrite filter_app, length_app. Qed.

Lemma requests_by_later a floor rs :
  (a < floor)%nat -> Forall (fun q => (floor <= sender q)%nat) rs ->
  requests_by a rs = 0%nat.
Proof.
  intros Ha H. unfold requests_by. induction H as [|q rs Hq _ IH]; [done|].
  rewrite filter_cons. destruct (decide (sender q = a)); [lia|done].
Qed.

Section loop_facts.

Variable cfg : RlmConfig.
Variable responses : nat -> Outcome Completion.
Variable run : nat -> Sandbox -> World -> Outcome unit * Sandbox * World.
Variable logger : Logger.
Variable model : string.

(** The code that the sandbox runs sends no request of its own: what is
    sent while it runs comes from agents created meanwhile. *)
Hypothesis run_children_only :
  forall i sb w, children_only w (snd (run i sb w)).

(** A turn sends one request of the agent, with the messages so far and
    the agent's model, before anything that its code starts. *)
Lemma turn_adds i messages sb w :
  exists es rs,
    adds w (turn_world (turn cfg responses run logger model i messages sb w)) es
      ({| sender := logger_run_id logger; request_model := model;
          sent_messages := messages |} :: rs) /\
    Forall (fun q => (next_run_id w <= sender q)%nat) rs.
Proof.
  unfold turn.
  set (req := {| sender := logger_run_id logger; request_model := model;
                 sent_messages := messages |}).
  pose proof (adds_send_request req w) as Hsend.
  set (w1 := send_request req w) in *.
  assert (forall w', (exists es rs, adds w1 w' es rs /\
             Forall (fun q => (next_run_id w1 <= sender q)%nat) rs) ->
           exists es rs, adds w w' es (req :: rs) /\
             Forall (fun q => (next_run_id w <= sender q)%nat) rs) as Hlift.
  { intros w' (es & rs & Hadd & Hall). exists ([] ++ es), rs. split.
    - by apply (adds_trans w w1 w' [] es [req] rs).
    - done. }
  destruct (generate_code (responses i)) as [generated|err]; simpl.
  2:{ apply Hlift. exists [], []. split; [apply adds_refl|constructor]. }
  set (w2 := trackUsage (usage generated) w1).
  assert (adds w1 w2 [] []) as H12 by apply adds_trackUsage.
  assert (forall w', (exists es rs, adds w2 w' es rs /\
             Forall (fun q => (next_run_id w2 <= sender q)%nat) rs) ->
           exists es rs, adds w w' es (req :: rs) /\
             Forall (fun q => (next_run_id w <= sender q)%nat) rs) as Hlift2.
  { intros w' (es & rs & Hadd & Hall). apply Hlift. exists ([] ++ es), ([] ++ rs).
    split; [by eapply adds_trans|done]. }
  destruct (exceeded _ _); simpl.
  { apply Hlift2. exists [], []. split; [apply adds_refl|constructor]. }
  destruct (exceeded _ _); simpl.
  { apply Hlift2. exists [], []. split; [apply adds_refl|constructor]. }
  destruct (success generated); simpl.
  2:{ apply Hlift2. eexists _, []. split; [apply adds_log_event|constructor]. }
  destruct (run i (set_stdoutBuffer "" sb) w2) as [[ran sb'] w3] eqn:Hrun.
  pose proof (run_children_only i (set_stdoutBuffer "" sb) w2) as Hc.
  rewrite Hrun in Hc. simpl in Hc. destruct Hc as (es3 & rs3 & H23 & Hall3).
  assert (forall w', (exists es, adds w3 w' es []) ->
    exists es rs, adds w w' es (req :: rs) /\
      Forall (fun q => (next_run_id w <= sender q)%nat) rs) as Hfinish.
  { intros w' (es & Hadd). apply Hlift2.
    exists (es3 ++ es), (rs3 ++ []). split; [by eapply adds_trans|].
    by rewrite app_nil_r. }
  destruct ran as [?|error]; simpl;
    (match goal with |- context [final_result ?s] => destruct (final_result s) end);
    simpl; apply Hfinish; eexists;
    first [ apply adds_log_event
          | eapply (adds_trans _ _ _ _ _ [] []); apply adds_log_event ].
Qed.

(** The loop sends at most one request of the agent per turn. *)
Lemma turns_adds remaining i messages sb w :
  (logger_run_id logger < next_run_id w)%nat ->
  exists es rs,
    adds w (snd (turns cfg responses run logger model remaining i messages sb w)) es rs /\
    Forall (fun q => (sender q = logger_run_id logger /\ request_model q = model)
                     \/ (next_run_id w <= sender q)%nat) rs /\
    (requests_by (logger_run_id logger) rs <= remaining)%nat.
Proof.
  revert i messages sb w. induction remaining as [|remaining IH]; intros i messages sb w Hid.
  { simpl. exists [], []. split; [apply adds_refl|]. split; [constructor|done]. }
  simpl.
  destruct (turn_adds i messages sb w) as (es1 & rs1 & Hadd1 & Hall1).
  set (req := {| sender := logger_run_id logger; request_model := model;
                 sent_messages := messages |}) in *.
  assert (requests_by (logger_run_id logger) (req :: rs1) = 1%nat) as Hcount.
  { change (req :: rs1) with ([req] ++ rs1). rewrite requests_by_app.
    rewrite (requests_by_later _ _ rs1 Hid Hall1).
    unfold requests_by. rewrite filter_cons. simpl.
    by destruct (decide (logger_run_id logger = logger_run_id logger)). }
  assert (Forall (fun q => (sender q = logger_run_id logger /\ request_model q = model)
                           \/ (next_run_id w <= sender q)%nat) (req :: rs1)) as Hall.
  { constructor; [by left|]. eapply Forall_impl; [exact Hall1|]. simpl. auto. }
  destruct (turn cfg responses run logger model i messages sb w)
    as [messages' sb' w'|result w']; simpl in *.
  - destruct (IH (S i) messages' sb' w') as (es2 & rs2 & Hadd2 & Hall2 & Hcount2).
    { destruct Hadd1 as (_ & _ & Hn). lia. }
    exists (es1 ++ es2), ((req :: rs1) ++ rs2).
    split; [by eapply adds_trans|]. split.
    + apply Forall_app. split; [done|].
      destruct Hadd1 as (_ & _ & Hn).
      eapply Forall_impl; [exact Hall2|]. simpl. intros q [?|?]; [by left|right; lia].
    + rewrite requests_by_app, Hcount. lia.
  - exists es1, (req :: rs1). split; [done|]. split; [done|]. rewrite Hcount. lia.
Qed.

(** When every turn goes on, the loop ends in the error thrown after it. *)
Lemma turns_continued remaining i messages sb w messages' sb' w' :
  continued cfg responses run logger model remaining i messages sb w
    = Some (messages', sb', w') ->
  turns cfg responses run logger model remaining i messages sb w
    = (Threw (new_Error DID_NOT_FINISH), w').
Proof.
  revert i messages sb w. induction remaining as [|remaining IH]; intros i messages sb w.
  { simpl. by intros [= <- <- <-]. }
  simpl. destruct (turn cfg responses run logger model i messages sb w); [|done].
  apply IH.
Qed.

End loop_facts.

Section agent_facts.

Variable cfg : RlmConfig.
Variable getEnv : EnvGetter.
Variable preflight : Outcome (list string).
Variable initial_code : string.

(** The run of one agent logs its [run_start] first, sends at most
    [MAX_CALLS] requests of its own, each with the model of its depth, and
    all other requests come from agents created later. *)
Lemma subagent_with_adds
    (run : Agent -> nat -> Sandbox -> World -> Outcome unit * Sandbox * World)
    seed responses context depth0 parent runtimeModels w :
  (forall self i sb w, children_only w (snd (run self i sb w))) ->
  exists es rs,
    adds w (snd (subagent_with cfg getEnv preflight initial_code run seed responses
                   context depth0 parent runtimeModels w))
      ({| run_id := next_run_id w; parent_run_id := parent; depth := depth0;
          payload := run_start |} :: es) rs /\
    Forall (fun q => (next_run_id w <= sender q)%nat) rs /\
    (requests_by (next_run_id w) rs <= Z.to_nat (MAX_CALLS cfg))%nat /\
    (forall given, runtimeModels = Some given ->
       Forall (fun q => sender q = next_run_id w ->
                 request_model q
                 = if depth0 =? 0 then primaryAgent given else subAgent given) rs).
Proof.
  intros Hrun. unfold subagent_with, new_Logger.
  set (logger := {| logger_run_id := next_run_id w; logger_parent_run_id := parent;
                    logger_depth := depth0 |}).
  set (w1 := {| totalUsage := totalUsage w; next_run_id := S (next_run_id w);
                events := events w ++ [event_of logger run_start];
                requests := requests w |}).
  assert (adds w w1 [event_of logger run_start] []) as H01.
  { unfold adds. simpl. rewrite app_nil_r. repeat split; lia. }
  destruct (match runtimeModels with
            | Some given => Returned given
            | None => resolveRuntimeModelSelection cfg getEnv preflight
            end) as [models0|err] eqn:Hmodels.
  2:{ exists [], []. simpl. split; [done|]. split; [constructor|].
      split; [unfold requests_by; simpl; lia|]. intros; constructor. }
  cbv zeta.
  match goal with
  | |- context [turns cfg responses ?r logger ?m ?n 0%nat ?ms ?sb ?w2] =>
      destruct (turns_adds cfg responses r logger m (Hrun _) n 0%nat ms sb w2)
        as (es & rs & Hadd & Hall & Hcount)
  end.
  { simpl. lia. }
  match type of Hadd with
  | adds (logStep logger ?entry w1) _ _ _ =>
      pose proof (adds_log_event (event_of logger (step_logged entry)) w1) as H12
  end.
  eexists _, rs. split.
  { pose proof (adds_trans _ _ _ _ _ _ _ H01 (adds_trans _ _ _ _ _ _ _ H12 Hadd)) as H.
    simpl in H. exact H. }
  split.
  { eapply Forall_impl; [exact Hall|]. simpl. intros q [[-> _]|?]; lia. }
  split; [done|].
  intros given ->. injection Hmodels as <-.
  eapply Forall_impl; [exact Hall|]. simpl. intros q [[_ ->]|Hq] Hs; [done|lia].
Qed.

(** Code that runs in a sandbox sends no request of the agent that owns
    the sandbox. *)
Lemma runPythonAsync_children_only code :
  forall self sb w,
    children_only w (snd (runPythonAsync cfg getEnv preflight initial_code self code sb w)).
Proof.
  induction code as [|traceback|text next IH|x next IH
                     |context child_seed child_responses child_programs IHchild next IH];
    intros self sb w; simpl; try apply children_only_refl; try apply IH.
  unfold llm_query. destruct (MAX_DEPTH cfg <=? subagent_depth self).
  { apply IH. }
  match goal with
  | |- context [subagent_with cfg getEnv preflight initial_code ?r ?s ?rs ?c ?d ?p ?m w] =>
      destruct (subagent_with_adds r s rs c d p m w) as (es & rs' & Hadd & Hall & _);
      [intros; apply IHchild|];
      destruct (subagent_with cfg getEnv preflight initial_code r s rs c d p m w)
        as [output w'] eqn:Hchild
  end.
  simpl in Hadd. eapply children_only_trans; [|apply IH].
  by eexists _, _.
Qed.

End agent_facts.

(** ** The token budgets *)

Lemma generate_code_returned completion :
  exists generated,
    generate_code (Returned completion) = Returned generated /\
    usage generated = normalizeUsage (completion_usage completion) /\
    message generated = choice_message completion.
Proof. unfold generate_code. destruct (negb _); eexists; done. Qed.

Example budget_both_exceeded :
  turns config_budget (responses prose_script) idle_run logger0 "gpt-5" 1 0 [] sandbox0 world0
  = (Threw (new_Error "Prompt token budget exceeded: 150 used, limit is 100"),
     trackUsage (normalizeUsage (completion_usage prose_completion))
       (send_request {| sender := 0; request_model := "gpt-5"; sent_messages := [] |}
          world0)).
Proof. vm_compute. reflexivity. Qed.

(** C1, as the code has it: when both budgets are exceeded the prompt check,
    which comes first, decides the message, and the completion overrun is not
    reported. *)
Lemma completion_budget_shadowed :
  let ended :=
    turns config_budget (responses prose_script) idle_run logger0 "gpt-5" 1 0 []
      sandbox0 world0 in
  MAX_COMPLETION_TOKENS config_budget = Some (Finite 50) /\
  Number.gt (completion_tokens (getTotalUsage (snd ended))) (Finite 50) = true /\
  fst ended = Threw (new_Error "Prompt token budget exceeded: 150 used, limit is 100") /\
  fst ended <> Threw (new_Error "Completion token budget exceeded: 80 used, limit is 50").
Proof.
  cbv zeta. rewrite budget_both_exceeded. repeat split; try (vm_compute; reflexivity).
  simpl. discriminate.
Qed.

(** C1, amended. In every turn whose chat-completion call returns, the usage
    of the call is added to the accumulator first.  If the prompt limit is set
    and the accumulated prompt tokens exceed it, the loop fails with an error
    whose message is [Prompt token budget exceeded: N used, limit is M], with
    N the accumulated count and M the limit.  If the completion limit is set
    and exceeded, and the prompt limit is not, the loop fails with
    [Completion token budget exceeded: N used, limit is M].  In both cases the
    accumulator holds the usage of the overflowing call when the error is
    thrown, and nothing but the request is added to the world. *)
Theorem budget_check_post_increment
    (cfg : RlmConfig) (responses : nat -> Outcome Completion)
    (run : nat -> Sandbox -> World -> Outcome unit * Sandbox * World)
    (logger : Logger) (model : string) (remaining i : nat)
    (messages : list Message) (sb : Sandbox) (w : World) (completion : Completion) :
  responses i = Returned completion ->
  let total := add_usage (totalUsage w) (normalizeUsage (completion_usage completion)) in
  let w' := trackUsage (normalizeUsage (completion_usage completion))
              (send_request {| sender := logger_run_id logger; request_model := model;
                               sent_messages := messages |} w) in
  let ended := turns cfg responses run logger model (S remaining) i messages sb w in
  getTotalUsage w' = total /\
  (forall limit,
     MAX_PROMPT_TOKENS cfg = Some limit ->
     Number.gt (prompt_tokens total) limit = true ->
     ended = (Threw (new_Error ("Prompt token budget exceeded: "
                                +:+ Number.toString (prompt_tokens total)
                                +:+ " used, limit is " +:+ Number.toString limit)), w')) /\
  (forall limit,
     MAX_COMPLETION_TOKENS cfg = Some limit ->
     Number.gt (completion_tokens total) limit = true ->
     exceeded (MAX_PROMPT_TOKENS cfg) (prompt_tokens total) = None ->
     ended = (Threw (new_Error ("Completion token budget exceeded: "
                                +:+ Number.toString (completion_tokens total)
                                +:+ " used, limit is " +:+ Number.toString limit)), w')).
Proof.
  intros Hresponse total w' ended. subst ended. split; [done|].
  destruct (generate_code_returned completion) as (generated & Hgen & Husage & _).
  assert (forall t, turn cfg responses run logger model i messages sb w = Leave (Threw t) w' ->
            turns cfg responses run logger model (S remaining) i messages sb w
            = (Threw t, w')) as Hleave.
  { intros t Ht. simpl. by rewrite Ht. }
  split.
  - intros limit Hlimit Hgt. apply Hleave.
    unfold turn. rewrite Hresponse, Hgen. cbv zeta. rewrite Husage. fold w'.
    change (getTotalUsage w') with total. rewrite Hlimit. unfold exceeded.
    by rewrite Hgt.
  - intros limit Hlimit Hgt Hprompt. apply Hleave.
    unfold turn. rewrite Hresponse, Hgen. cbv zeta. rewrite Husage. fold w'.
    change (getTotalUsage w') with total. rewrite Hprompt, Hlimit. unfold exceeded.
    by rewrite Hgt.
Qed.

Lemma budget_check_post_increment_witness :
  turns config_budget (responses prose_script) idle_run logger0 "gpt-5" 1 0 [] sandbox0 world0
  = (Threw (new_Error ("Prompt token budget exceeded: "
                       +:+ Number.toString (Finite 150)
                       +:+ " used, limit is " +:+ Number.toString (Finite 100))),
     trackUsage (normalizeUsage (completion_usage prose_completion))
       (send_request {| sender := 0; request_model := "gpt-5"; sent_messages := [] |}
          world0)).
Proof.
  apply (budget_check_post_increment config_budget (responses prose_script) idle_run
           logger0 "gpt-5" 0 0 [] sandbox0 world0 prose_completion eq_refl);
    vm_compute; reflexivity.
Defined.

(** ** The recursion bridge *)

Example llm_query_at_the_limit :
  llm_query config_small
    (subagent config_small no_env (Returned []) "" prose_script)
    agent1 "summarise" sandbox0 world0
  = (Threw (new_Error "MAXIMUM DEPTH REACHED. You must solve this task on your own without calling llm_query."),
     set_stdoutBuffer
       (newline +:+ "Error: MAXIMUM DEPTH REACHED. You must solve this task on your own without calling llm_query." +:+ newline)
       sandbox0,
     world0).
Proof. vm_compute. reflexivity. Qed.

(** C4. A call of [llm_query] from code in the sandbox of an agent is the
    closure [llm_query] of that agent, applied to the [subagent] of the world's
    answers to the child.  At a depth of [MAX_DEPTH] or more the call throws
    an [Error] whose message is the maximum-depth text, the caller's captured
    output becomes what it was followed by a line break, [Error: ], that text
    and a line break, the rest of the caller's sandbox stays as it was, and so
    does the process-wide state: no run id is taken, nothing is logged, no
    request is sent.  Below [MAX_DEPTH] the call
    is [subagent] at the caller's depth plus one, with the caller's run id as
    parent and the caller's model pair, from the caller's process-wide state;
    the first thing the child logs is its [run_start] with that parent and
    depth, every request of the child names the model of the caller's pair
    that fits the child's depth, and the caller's sandbox is untouched. *)
Theorem llm_query_bridge
    (cfg : RlmConfig) (getEnv : EnvGetter) (preflight : Outcome (list string))
    (initial_code : string) (self : Agent) (context child_seed : string)
    (child_responses : nat -> Outcome Completion) (child_programs : nat -> Py)
    (next : Outcome PyValue -> Py) (sb : Sandbox) (w : World) :
  let child := {| seed_output := child_seed; responses := child_responses;
                  programs := child_programs |} in
  let bridge :=
    llm_query cfg (subagent cfg getEnv preflight initial_code child) self context sb w in
  let spawned :=
    subagent cfg getEnv preflight initial_code child context
      (subagent_depth self + 1) (Some (agent_run_id self)) (Some (models self)) w in
  runPythonAsync cfg getEnv preflight initial_code self
    (PyLlmQuery context child_seed child_responses child_programs next) sb w
  = runPythonAsync cfg getEnv preflight initial_code self
      (next (fst (fst bridge))) (snd (fst bridge)) (snd bridge) /\
  (MAX_DEPTH cfg <= subagent_depth self ->
     exists err sb',
       bridge = (Threw err, sb', w) /\
       ename err = "Error" /\ ekind err = None /\
       emessage err
       = "MAXIMUM DEPTH REACHED. You must solve this task on your own without calling llm_query." /\
       stdoutBuffer sb'
       = stdoutBuffer sb
         +:+ String "010"
               "Error: MAXIMUM DEPTH REACHED. You must solve this task on your own without calling llm_query."
         +:+ String "010" "" /\
       final_result sb' = final_result sb /\ py_context sb' = py_context sb) /\
  (subagent_depth self < MAX_DEPTH cfg ->
     bridge = (fst spawned, sb, snd spawned) /\
     exists es rs,
       adds w (snd spawned)
         ({| run_id := next_run_id w; parent_run_id := Some (agent_run_id self);
             depth := subagent_depth self + 1; payload := run_start |} :: es) rs /\
       Forall (fun q => (next_run_id w <= sender q)%nat) rs /\
       Forall (fun q => sender q = next_run_id w ->
                 request_model q
                 = if subagent_depth self + 1 =? 0
                   then primaryAgent (models self) else subAgent (models self)) rs).
Proof.
  intros child bridge spawned. split; [|split].
  - subst bridge. simpl. unfold subagent. simpl.
    by destruct (llm_query _ _ _ _ _ _) as [[result sb'] w'].
  - intros Hdepth. subst bridge. unfold llm_query.
    assert ((MAX_DEPTH cfg <=? subagent_depth self) = true) as -> by lia.
    eexists _, _. split; [reflexivity|]. by repeat split.
  - intros Hdepth. split.
    + subst bridge. unfold llm_query.
      assert ((MAX_DEPTH cfg <=? subagent_depth self) = false) as -> by lia.
      fold spawned. by destruct spawned.
    + subst spawned. unfold subagent.
      edestruct (subagent_with_adds cfg getEnv preflight initial_code)
        as (es & rs & Hadd & Hall & _ & Hmodel).
      { intros. apply runPythonAsync_children_only. }
      exists es, rs. split; [exact Hadd|]. split; [exact Hall|]. by apply Hmodel.
Qed.

Lemma llm_query_bridge_witness :
  exists err sb',
    llm_query config_small
      (subagent config_small no_env (Returned []) "" prose_script)
      agent1 "summarise" sandbox0 world0
    = (Threw err, sb', world0) /\
    ename err = "Error" /\ ekind err = None /\
    emessage err
    = "MAXIMUM DEPTH REACHED. You must solve this task on your own without calling llm_query." /\
    stdoutBuffer sb'
    = stdoutBuffer sandbox0
      +:+ String "010"
            "Error: MAXIMUM DEPTH REACHED. You must solve this task on your own without calling llm_query."
      +:+ String "010" "" /\
    final_result sb' = final_result sandbox0 /\ py_context sb' = py_context sandbox0.
Proof.
  apply (llm_query_bridge config_small no_env (Returned []) "" agent1 "summarise"
           (seed_output prose_script) (responses prose_script) (programs prose_script)
           (fun _ => PyReturn) sandbox0 world0).
  vm_compute. discriminate.
Defined.

(** ** The bound on the calls of one agent *)

Lemma subagent_with_entry cfg getEnv preflight initial_code run seed responses
    context depth0 parent runtimeModels w :
  subagent_with cfg getEnv preflight initial_code run seed responses
    context depth0 parent runtimeModels w
  = match loop_entry cfg getEnv preflight initial_code seed context depth0 parent
            runtimeModels w with
    | (Threw err, w0) => (Threw err, w0)
    | (Returned (logger, self, model, messages, sb), w0) =>
        turns cfg responses (run self) logger model
          (Z.to_nat (MAX_CALLS cfg)) 0 messages sb w0
    end.
Proof.
  unfold subagent_with, loop_entry, new_Logger.
  by destruct (match runtimeModels with Some _ => _ | None => _ end).
Qed.

Example two_prose_turns_exhaust :
  fst (subagent config_small no_env (Returned []) "" prose_script "say hi" 0 None
         (Some models0) world0)
  = Threw (new_Error "Did not finish the function stack before subagent died").
Proof. vm_compute. reflexivity. Qed.

Example two_prose_turns_requests :
  map sender
    (requests (snd (subagent config_small no_env (Returned []) "" prose_script "say hi"
                      0 None (Some models0) world0)))
  = [0; 0]%nat.
Proof. vm_compute. reflexivity. Qed.

(** C8. Whatever the world answers, the run of an agent sends at most
    [MAX_CALLS] chat-completion requests of its own (the agent's run id is the
    next one when it starts), turns without a fenced block included, since
    every turn sends exactly one; and when all [MAX_CALLS] turns go on to the
    next one, so that no turn returned a final result or threw, the agent
    fails with the error [Did not finish the function stack before subagent
    died]. *)
Theorem subagent_call_bound
    (cfg : RlmConfig) (getEnv : EnvGetter) (preflight : Outcome (list string))
    (initial_code : string) (script : Script) (context : string) (depth0 : Z)
    (parent : option nat) (runtimeModels : option RuntimeModelResolution) (w : World) :
  let ended :=
    subagent cfg getEnv preflight initial_code script context depth0 parent
      runtimeModels w in
  (exists es rs,
     adds w (snd ended) es rs /\
     (requests_by (next_run_id w) rs <= Z.to_nat (MAX_CALLS cfg))%nat) /\
  (forall logger self model messages sb w0 messages' sb' w',
     loop_entry cfg getEnv preflight initial_code (seed_output script) context depth0
       parent runtimeModels w
     = (Returned (logger, self, model, messages, sb), w0) ->
     continued cfg (responses script)
       (fun i => runPythonAsync cfg getEnv preflight initial_code self (programs script i))
       logger model (Z.to_nat (MAX_CALLS cfg)) 0 messages sb w0
     = Some (messages', sb', w') ->
     ended = (Threw (new_Error "Did not finish the function stack before subagent died"),
              w')).
Proof.
  intros ended. subst ended. split.
  - unfold subagent.
    edestruct (subagent_with_adds cfg getEnv preflight initial_code)
      as (es & rs & Hadd & _ & Hcount & _).
    { intros. apply runPythonAsync_children_only. }
    eexists _, rs. split; [exact Hadd|exact Hcount].
  - intros logger self model messages sb w0 messages' sb' w' Hentry Hcontinued.
    unfold subagent. rewrite subagent_with_entry, Hentry.
    eapply turns_continued. exact Hcontinued.
Qed.

Lemma subagent_call_bound_witness :
  exists w',
    subagent config_small no_env (Returned []) "" prose_script "say hi" 0 None
      (Some models0) world0
    = (Threw (new_Error "Did not finish the function stack before subagent died"), w').
Proof.
  let entry := eval vm_compute in
    (loop_entry config_small no_env (Returned []) "" (seed_output prose_script) "say hi"
       0 None (Some models0) world0) in
  match entry with
  | (Returned (?logger, ?self, ?model, ?messages, ?sb), ?w0) =>
      let after := eval vm_compute in
        (continued config_small (responses prose_script)
           (fun i => runPythonAsync config_small no_env (Returned []) "" self
                       (programs prose_script i))
           logger model (Z.to_nat (MAX_CALLS config_small)) 0 messages sb w0) in
      match after with
      | Some (?messages', ?sb', ?w') =>
          exists w';
          apply (proj2 (subagent_call_bound config_small no_env (Returned []) ""
                          prose_script "say hi" 0 None (Some models0) world0)
                   logger self model messages sb w0 messages' sb' w');
          vm_compute; reflexivity
      end
  end.
Defined.

(** ** Fatal errors of the run command *)

(** C9, as the code has it: the run command prints the message of a fatal
    error on the error stream as it is, bearer token included, and returns an
    exit code, so that the redaction of the main block never sees it. *)
Lemma run_command_prints_secret :
  let ended :=
    main (runSubagentCommand empty_config no_env leaking_preflight "" sample_stringify
            None no_faults "uuid" prose_script human_run) process0 in
  fst ended = EXIT_CODES.RUNTIME /\
  console (snd ended)
  = [(stderr,
      newline +:+ "Fatal error: Failed to fetch models from http://127.0.0.1:8317/v1/models: 401 Unauthorized. Response: invalid credentials in header Authorization: Bearer sk-live-12345")] /\
  Exists (fun line => fst line = stderr /\
                      JsString.includes "sk-live-12345" (snd line) = true)
    (console (snd ended)) /\
  JsString.includes "sk-live-12345"
    (redactSecrets "Failed to fetch models from http://127.0.0.1:8317/v1/models: 401 Unauthorized. Response: invalid credentials in header Authorization: Bearer sk-live-12345")
  = false.
Proof.
  cbv zeta.
  assert (main (runSubagentCommand empty_config no_env leaking_preflight "" sample_stringify
                  None no_faults "uuid" prose_script human_run) process0
          = (6, {| world := {| totalUsage := noUsage; next_run_id := 1;
                               events := [{| run_id := 0; parent_run_id := None;
                                             depth := 0; payload := run_start |}];
                               requests := [] |};
                   files := ∅;
                   console := [(stderr,
      newline +:+ "Fatal error: Failed to fetch models from http://127.0.0.1:8317/v1/models: 401 Unauthorized. Response: invalid credentials in header Authorization: Bearer sk-live-12345")] |}))
    as ->.
  { vm_compute. reflexivity. }
  split; [reflexivity|]. split; [reflexivity|]. split.
  - apply Exists_cons_hd. split; [reflexivity|]. vm_compute. reflexivity.
  - vm_compute. reflexivity.
Qed.

(** * Further properties of the code *)

(** ** The size of what is fed back *)

Lemma truncated_prefix_length cfg :
  33 <= JsString.length (TRUNCATED_PREFIX cfg).
Proof.
  unfold TRUNCATED_PREFIX. rewrite !js_length_app.
  pose proof (js_length_nonneg (pretty (TRUNCATE_LEN cfg))).
  change (JsString.length "[TRUNCATED: Last ") with 17.
  change (JsString.length " chars shown].. ") with 16. lia.
Qed.

(** X1. For a positive [TRUNCATE_LEN], what [truncateText] returns is never
    empty and has at most [TRUNCATE_LEN] characters after a marker: its
    length is at most that of the truncation marker plus [TRUNCATE_LEN],
    however long the text is. *)
Theorem truncateText_bounded (cfg : RlmConfig) (text : string) :
  0 < TRUNCATE_LEN cfg ->
  0 < JsString.length (truncateText cfg text)
    <= JsString.length (TRUNCATED_PREFIX cfg) + TRUNCATE_LEN cfg.
Proof.
  intros Hpos. pose proof (truncated_prefix_length cfg) as Hprefix.
  pose proof (js_length_nonneg text) as Htext.
  unfold truncateText.
  destruct (TRUNCATE_LEN cfg <? JsString.length text) eqn:Hlong.
  - rewrite js_length_app, slice_neg_length by lia. lia.
  - destruct (JsString.length text =? 0) eqn:Hzero.
    + change (JsString.length EMPTY_OUTPUT) with 14. lia.
    + rewrite js_length_app. change (JsString.length FULL_PREFIX) with 23. lia.
Qed.

Lemma truncateText_bounded_witness :
  0 < JsString.length (truncateText config_truncate_3 "abcdefgh")
    <= JsString.length (TRUNCATED_PREFIX config_truncate_3) + TRUNCATE_LEN config_truncate_3.
Proof. apply (truncateText_bounded config_truncate_3 "abcdefgh"). reflexivity. Defined.

(** ** Exit codes *)

(** X2. [exitCodeForError] never gives the success code 0; it gives the
    generic code 1 exactly for errors that are no [CliError] or are of the
    generic kind; and two errors with the same code other than 1 are of the
    same kind. *)
Theorem exitCodeForError_separates (err err' : Exception) :
  exitCodeForError err <> EXIT_CODES.OK /\
  (exitCodeForError err = EXIT_CODES.GENERIC
   <-> ekind err = None \/ ekind err = Some generic_error) /\
  (exitCodeForError err = exitCodeForError err' ->
   exitCodeForError err <> EXIT_CODES.GENERIC -> ekind err = ekind err').
Proof.
  unfold exitCodeForError.
  split; [by destruct (ekind err) as [[]|]|].
  split.
  - split.
    + destruct (ekind err) as [[]|]; intros H; try discriminate H; auto.
    + by intros [-> | ->].
  - destruct (ekind err) as [[]|], (ekind err') as [[]|]; intros H H'; try done.
Qed.

(** ** Finalizers *)

(** X3. [withFinalizer] runs the finalizer exactly once, after the run and on
    the state the run left, whether the run returned or threw.  The result of
    the run comes back when the finalizer returns; an error of the finalizer
    replaces a returned value; and when both throw, the error of the run is
    the one thrown, with its name, kind and exit code, and with the
    finalizer's error appended to its message as a cleanup warning. *)
Theorem withFinalizer_outcome {S T : Type}
    (run : S -> Outcome T * S) (finalize : S -> Outcome unit * S) (s : S) :
  let ran := run s in
  let finalized := finalize (snd ran) in
  let result := withFinalizer run finalize s in
  snd result = snd finalized /\
  match fst ran, fst finalized with
  | Returned v, Returned _ => fst result = Returned v
  | Returned _, Threw finalizeError => fst result = Threw finalizeError
  | Threw primaryError, Returned _ => fst result = Threw primaryError
  | Threw primaryError, Threw finalizeError =>
      exists thrown,
        fst result = Threw thrown /\
        ename thrown = ename primaryError /\
        ekind thrown = ekind primaryError /\
        exitCodeForError thrown = exitCodeForError primaryError /\
        emessage thrown
        = emessage primaryError +:+ newline +:+ "Cleanup warning: "
          +:+ String_of_error finalizeError
  end.
Proof.
  intros ran finalized result. subst ran finalized result. unfold withFinalizer.
  destruct (run s) as [[v|primaryError] s1]; simpl;
    destruct (finalize s1) as [[[]|finalizeError] s2]; simpl; try done.
  split; [done|]. eexists. split; [done|]. done.
Qed.

(** ** Token limits *)

(** X4. A token limit of the configuration is in force exactly when it is a
    finite number above 0: [resolveTokenLimits] passes such a limit on
    unchanged and drops every other value, so that a limit of 0, a negative
    one or a non-finite one means no limit. *)
Theorem resolveTokenLimits_positive (cfg : RlmConfig) (limit : number) :
  (maxPromptTokens (resolveTokenLimits cfg) = Some limit
   <-> max_prompt_tokens cfg = Some limit /\ exists z, limit = Finite z /\ 0 < z) /\
  (maxCompletionTokens (resolveTokenLimits cfg) = Some limit
   <-> max_completion_tokens cfg = Some limit /\ exists z, limit = Finite z /\ 0 < z).
Proof.
  assert (forall field : option number,
    coercePositiveNumber (Js.of_optional field) = Some limit
    <-> field = Some limit /\ exists z, limit = Finite z /\ 0 < z) as H.
  { intros field. split.
    - intros Hc. apply coercePositiveNumber_Some in Hc as (z & -> & Hz & Hv).
      destruct field as [n|]; [|done]. simpl in Hv. injection Hv as ->. eauto.
    - intros (-> & z & -> & Hz). simpl.
      by assert ((z <=? 0) = false) as -> by lia. }
  unfold resolveTokenLimits. simpl. split; apply H.
Qed.

(** ** Environment values *)

Lemma trimEnd_cons c s :
  Js.trimEnd (String c s)
  = match Js.trimEnd s with
    | EmptyString => if Js.isWhiteSpace c then EmptyString else String c EmptyString
    | r => String c r
    end.
Proof. reflexivity. Qed.

Lemma trimEnd_idempotent s : Js.trimEnd (Js.trimEnd s) = Js.trimEnd s.
Proof.
  induction s as [|c s IH]; [done|].
  rewrite trimEnd_cons. destruct (Js.trimEnd s) as [|d r] eqn:E.
  - destruct (Js.isWhiteSpace c) eqn:Hc; [done|].
    rewrite trimEnd_cons. simpl. by rewrite Hc.
  - rewrite trimEnd_cons, IH. done.
Qed.

(** A string that does not begin with white space. *)
Lemma trimStart_fixed c s :
  Js.isWhiteSpace c = false -> Js.trimStart (String c s) = String c s.
Proof. intros H. simpl. by rewrite H. Qed.

Lemma trimStart_shape s :
  Js.trimStart s = "" \/
  exists c r, Js.trimStart s = String c r /\ Js.isWhiteSpace c = false.
Proof.
  induction s as [|c s IH]; [by left|].
  simpl. destruct (Js.isWhiteSpace c) eqn:Hc; [done|]. right. eauto.
Qed.

Lemma trimEnd_head c r :
  Js.isWhiteSpace c = false ->
  exists r', Js.trimEnd (String c r) = String c r'.
Proof.
  intros Hc. rewrite trimEnd_cons. destruct (Js.trimEnd r); [|eauto].
  rewrite Hc. eauto.
Qed.

Lemma trim_idempotent s : Js.trim (Js.trim s) = Js.trim s.
Proof.
  unfold Js.trim.
  destruct (trimStart_shape s) as [-> | (c & r & -> & Hc)]; [done|].
  destruct (trimEnd_head c r Hc) as (r' & E). rewrite E.
  rewrite trimStart_fixed by done. rewrite <-E. apply trimEnd_idempotent.
Qed.

(** X5. What [getEnvValue] returns for a variable is the trimmed value of the
    variable, and is never empty: a variable that is unset, empty or blank
    counts as undefined, and a returned value has no white space at either
    end. *)
Theorem getEnvValue_trimmed (name : string) (getEnv : EnvGetter) :
  match getEnvValue name getEnv with
  | Some value =>
      value <> "" /\ Js.trim value = value /\
      exists raw, getEnv name = Some raw /\ value = Js.trim raw
  | None =>
      getEnv name = None \/ exists raw, getEnv name = Some raw /\ Js.trim raw = ""
  end.
Proof.
  unfold getEnvValue. destruct (getEnv name) as [raw|]; [|by left].
  destruct (Js.trim raw) as [|c r] eqn:E; simpl.
  - right. eauto.
  - split; [done|]. split; [|eauto]. rewrite <-E. apply trim_idempotent.
Qed.

Lemma getEnvValue_truthy name getEnv value :
  getEnvValue name getEnv = Some value -> Js.truthy value = true.
Proof.
  unfold getEnvValue. destruct (getEnv name) as [raw|]; [|done].
  cbv zeta. destruct (Js.truthy (Js.trim raw)) eqn:E; [|done].
  intros [= <-]. exact E.
Qed.

(** ** Requested models *)

Lemma or_else_truthy a b : Js.truthy b = true -> Js.truthy (or_else a b) = true.
Proof.
  intros Hb. unfold or_else. destruct a as [s|]; [|done].
  by destruct (Js.truthy s) eqn:E.
Qed.

(** X6. [resolveModelNames] takes each model name from the environment
    variable when that has a non-blank value, else from the configuration
    when the key is set and not empty, else from the built-in default; the
    names it returns are never empty. *)
Theorem resolveModelNames_precedence (config : RlmConfig) (getEnv : EnvGetter) :
  let names := resolveModelNames config getEnv in
  let chosen (fromEnv fromConfig : option string) (fallback : string) : string :=
    match fromEnv with
    | Some value => value
    | None =>
        match fromConfig with
        | Some value => if decide (value = "") then fallback else value
        | None => fallback
        end
    end in
  requestedPrimary names
  = chosen (getEnvValue "RLM_PRIMARY_AGENT" getEnv) (primary_agent config) "gpt-5" /\
  requestedSub names
  = chosen (getEnvValue "RLM_SUB_AGENT" getEnv) (sub_agent config) "gpt-5-codex-mini" /\
  requestedPrimary names <> "" /\ requestedSub names <> "".
Proof.
  intros names chosen. subst names chosen. unfold resolveModelNames. simpl.
  assert (forall name fromConfig fallback,
    Js.truthy fallback = true ->
    let picked := or_else (getEnvValue name getEnv) (or_else fromConfig fallback) in
    picked = match getEnvValue name getEnv with
             | Some value => value
             | None =>
                 match fromConfig with
                 | Some value => if decide (value = "") then fallback else value
                 | None => fallback
                 end
             end /\ picked <> "") as H.
  { intros name fromConfig fallback Hf picked. subst picked. split.
    - destruct (getEnvValue name getEnv) as [value|] eqn:E; simpl.
      + by rewrite (getEnvValue_truthy _ _ _ E).
      + destruct fromConfig as [[|c r]|]; simpl; try done.
    - assert (Js.truthy (or_else (getEnvValue name getEnv) (or_else fromConfig fallback))
              = true) as Ht by (by apply or_else_truthy, or_else_truthy).
      intros E. by rewrite E in Ht. }
  destruct (H "RLM_PRIMARY_AGENT" (primary_agent config) DEFAULT_PRIMARY_MODEL eq_refl)
    as [H1 H2].
  destruct (H "RLM_SUB_AGENT" (sub_agent config) DEFAULT_SUB_MODEL eq_refl) as [H3 H4].
  done.
Qed.

(** ** The proxy client configuration *)




Example resolveProxyClientConfig_trims :
  resolveProxyClientConfig
    (env_of [("RLM_MODEL_API_KEY", "test-key");
             ("RLM_MODEL_BASE_URL", "http://127.0.0.1:8317/v1/")])
  = Returned {| apiKey := "test-key"; baseURL := "http://127.0.0.1:8317/v1" |}.
Proof. vm_compute. reflexivity. Qed.


(** ** Log prefixes *)

Lemma every_excludes f c s :
  every f s = true -> f c = false -> forall rest,
  JsString.includes (String c rest) s = false.
Proof.
  intros Hall Hc rest. induction s as [|d s IH]; [done|].
  simpl in Hall. apply andb_true_iff in Hall as [Hd Hall].
  simpl. rewrite (IH Hall), orb_false_r.
  destruct (Ascii.eqb c d) eqn:E; [|done].
  apply Ascii.eqb_eq in E as ->. congruence.
Qed.

(** X8. [validatePrefix] accepts a prefix exactly when it has between 1 and
    64 characters, all of them letters, digits, dots, underscores or dashes,
    and no two dots in a row; an accepted prefix contains no path separator;
    and every rejection is a [CliError] of the usage kind, of exit code 2. *)
Theorem validatePrefix_outcome (prefix : string) :
  match validatePrefix prefix with
  | Returned _ =>
      1 <= JsString.length prefix <= 64 /\
      every Redact.isTokenChar prefix = true /\
      JsString.includes ".." prefix = false /\
      JsString.includes "/" prefix = false /\
      JsString.includes "\" prefix = false
  | Threw err =>
      ekind err = Some usage_error /\ exitCodeForError err = 2 /\
      (JsString.length prefix = 0 \/ 64 < JsString.length prefix \/
       every Redact.isTokenChar prefix = false \/
       JsString.includes ".." prefix = true)
  end.
Proof.
  unfold validatePrefix. pose proof (js_length_nonneg prefix) as Hlen.
  destruct (JsString.length prefix =? 0) eqn:H0; simpl.
  { split; [done|]. split; [done|]. left. lia. }
  destruct (64 <? JsString.length prefix) eqn:H64; simpl.
  { split; [done|]. split; [done|]. right. left. lia. }
  destruct (every Redact.isTokenChar prefix) eqn:Hall; simpl.
  2:{ split; [done|]. split; [done|]. by right; right; left. }
  rewrite (every_excludes _ "/"%char prefix Hall eq_refl "").
  rewrite (every_excludes _ "\"%char prefix Hall eq_refl "").
  rewrite !orb_false_r.
  destruct (JsString.includes ".." prefix) eqn:Hdots; simpl.
  { split; [done|]. split; [done|]. by right; right; right. }
  repeat split; try done; lia.
Qed.

(** ** Code extraction *)

Lemma cut_None_includes p s : cut p s = None <-> JsString.includes p s = false.
Proof.
  induction s as [|c s IH].
  - simpl. destruct (JsString.startsWith p ""); simpl; split; done.
  - simpl. destruct (JsString.startsWith p (String c s)); simpl.
    + split; done.
    + rewrite <-IH. destruct (cut p s) as [[before after]|]; split; done.
Qed.

Lemma cut_unfold p s :
  cut p s
  = if JsString.startsWith p s
    then Some (EmptyString, JsString.drop (String.length p) s)
    else match s with
         | EmptyString => None
         | String c s' =>
             match cut p s' with
             | Some (before, after) => Some (String c before, after)
             | None => None
             end
         end.
Proof. by destruct s. Qed.

Lemma cut_first (c : ascii) (p before after : string) :
  every (fun d => negb (Ascii.eqb c d)) before = true ->
  cut (String c p) (before +:+ String c p +:+ after) = Some (before, after).
Proof.
  intros Hfree. induction before as [|d before IH].
  - rewrite app_empty_l, cut_unfold, startsWith_app. by rewrite drop_app_exact.
  - simpl in Hfree. apply andb_true_iff in Hfree as [Hd Hfree].
    apply negb_true_iff in Hd.
    rewrite app_cons, cut_unfold. simpl JsString.startsWith. rewrite Hd.
    by rewrite (IH Hfree).
Qed.

Lemma generate_code_of_blocks completion blocks :
  replMatches
    (String.length (or_else (content (choice_message completion)) ""))
    (or_else (content (choice_message completion)) "") = blocks ->
  generate_code (Returned completion)
  = Returned {| code := if Js.truthy (join newline blocks) then join newline blocks else "";
                success := Js.truthy (join newline blocks);
                message := choice_message completion;
                usage := normalizeUsage (completion_usage completion) |}.
Proof.
  intros <-. unfold generate_code. cbv zeta. by destruct (Js.truthy _).
Qed.

(** X9. A reply without an opening fence tagged [repl] (a reply with no
    content included) gives no code: [generate_code] reports [success =
    false] with the empty code, and still passes on the message and the
    normalised usage of the call. *)
Theorem generate_code_no_fence (completion : Completion) :
  JsString.includes "```repl" (or_else (content (choice_message completion)) "") = false ->
  generate_code (Returned completion)
  = Returned {| code := ""; success := false;
                message := choice_message completion;
                usage := normalizeUsage (completion_usage completion) |}.
Proof.
  intros Hfree. apply (generate_code_of_blocks completion []).
  apply cut_None_includes in Hfree.
  destruct (String.length _); simpl; [done|]. by rewrite Hfree.
Qed.

Lemma generate_code_no_fence_witness :
  generate_code (Returned prose_completion)
  = Returned {| code := ""; success := false;
                message := choice_message prose_completion;
                usage := normalizeUsage (completion_usage prose_completion) |}.
Proof. apply (generate_code_no_fence prose_completion). reflexivity. Defined.

(** X10. A reply with one fenced block tagged [repl], between texts without a
    backquote, gives the body of the block, trimmed, as the code, with
    [success = true], provided the trimmed body is not empty. *)
Theorem generate_code_one_block
    (completion : Completion) (before body after : string) :
  content (choice_message completion)
    = Some (before +:+ "```repl" +:+ body +:+ "```" +:+ after) ->
  every (fun d => negb (Ascii.eqb "`" d)) before = true ->
  every (fun d => negb (Ascii.eqb "`" d)) body = true ->
  every (fun d => negb (Ascii.eqb "`" d)) after = true ->
  Js.trim body <> "" ->
  generate_code (Returned completion)
  = Returned {| code := Js.trim body; success := true;
                message := choice_message completion;
                usage := normalizeUsage (completion_usage completion) |}.
Proof.
  intros Hcontent Hbefore Hbody Hafter Htrim.
  rewrite (generate_code_of_blocks completion [Js.trim body]).
  { simpl. destruct (Js.trim body); done. }
  rewrite Hcontent.
  set (text := before +:+ "```repl" +:+ body +:+ "```" +:+ after).
  assert (or_else (Some text) "" = text) as ->.
  { unfold or_else. destruct text eqn:E; [|done].
    subst text. apply (f_equal String.length) in E.
    rewrite !str_length_app in E. simpl in E. lia. }
  assert (exists fuel, String.length text = S (S fuel)) as (fuel & ->).
  { subst text. rewrite !str_length_app. simpl. eexists.
    rewrite Nat.add_succ_r. simpl. rewrite Nat.add_succ_r. done. }
  subst text.
  change (replMatches (S (S fuel)) ?s)
    with (match cut "```repl" s with
          | None => []
          | Some (_, opened) =>
              match cut "```" opened with
              | None => []
              | Some (body0, rest) => Js.trim body0 :: replMatches (S fuel) rest
              end
          end).
  rewrite (cut_first "`" "``repl" before _ Hbefore).
  rewrite (cut_first "`" "``" body after Hbody).
  f_equal. simpl.
  assert (cut "```repl" after = None) as ->; [|done].
  apply cut_None_includes.
  apply (every_excludes _ "`"%char after Hafter). done.
Qed.

Lemma generate_code_one_block_witness :
  generate_code
    (Returned {| choice_message :=
                   {| role := "assistant";
                      content := Some ("Here: " +:+ "```repl" +:+ " FINAL(1) " +:+ "```"
                                       +:+ " done");
                      reasoning := None |};
                 completion_usage := Undefined |})
  = Returned {| code := Js.trim " FINAL(1) "; success := true;
                message := {| role := "assistant";
                              content := Some ("Here: " +:+ "```repl" +:+ " FINAL(1) "
                                               +:+ "```" +:+ " done");
                              reasoning := None |};
                usage := normalizeUsage Undefined |}.
Proof.
  apply (generate_code_one_block
           {| choice_message :=
                {| role := "assistant";
                   content := Some ("Here: " +:+ "```repl" +:+ " FINAL(1) " +:+ "```"
                                    +:+ " done");
                   reasoning := None |};
              completion_usage := Undefined |}
           "Here: " " FINAL(1) " " done"); try reflexivity.
  vm_compute. discriminate.
Defined.

(** ** Redaction of secrets *)

Lemma mentions_bearer_unfold s :
  mentions_bearer s
  = match Redact.stripPrefix_ci "Bearer" s with
    | Some _ => true
    | None => match s with
              | EmptyString => false
              | String _ s' => mentions_bearer s'
              end
    end.
Proof. by destruct s. Qed.

Lemma matchBearer_stripped s :
  Redact.stripPrefix_ci "Bearer" s = None -> Redact.matchBearer s = None.
Proof. unfold Redact.matchBearer. by intros ->. Qed.

Lemma replaceBearer_unmentioned fuel s :
  mentions_bearer s = false -> Redact.replaceBearer fuel s = s.
Proof.
  revert fuel. induction s as [|c s IH]; intros fuel H; [by destruct fuel|].
  destruct fuel as [|fuel]; [done|].
  rewrite mentions_bearer_unfold in H.
  destruct (Redact.stripPrefix_ci "Bearer" (String c s)) eqn:E; [done|].
  simpl. rewrite (matchBearer_stripped _ E). by rewrite IH.
Qed.

Lemma stripPrefix_startsWith p s :
  Redact.stripPrefix p s = None <-> JsString.startsWith p s = false.
Proof.
  revert s. induction p as [|a p IH]; intros [|b s]; simpl; try done.
  destruct (Ascii.eqb a b); [apply IH|done].
Qed.

Lemma replaceApiKey_unmentioned fuel s :
  JsString.includes "RLM_MODEL_API_KEY" s = false -> Redact.replaceApiKey fuel s = s.
Proof.
  revert fuel. induction s as [|c s IH]; intros fuel H; [by destruct fuel|].
  destruct fuel as [|fuel]; [done|].
  simpl in H. apply orb_false_iff in H as [Hhere Hlater].
  assert (Redact.matchApiKey (String c s) = None) as Hmatch.
  { unfold Redact.matchApiKey.
    assert (Redact.stripPrefix "RLM_MODEL_API_KEY" (String c s) = None) as ->; [|done].
    by apply stripPrefix_startsWith. }
  change (Redact.replaceApiKey (S fuel) (String c s))
    with (match Redact.matchApiKey (String c s) with
          | Some (group1, secret) =>
              JsString.take group1 (String c s) +:+ "[REDACTED]"
                +:+ Redact.replaceApiKey fuel (JsString.drop (group1 + secret) (String c s))
          | None => String c (Redact.replaceApiKey fuel s)
          end).
  rewrite Hmatch. by rewrite IH.
Qed.

(** X11. A message that mentions neither the word [bearer], in any letter
    case, nor [RLM_MODEL_API_KEY] passes through [redactSecrets]
    unchanged. *)
Theorem redactSecrets_unmentioned (input : string) :
  mentions_bearer input = false ->
  JsString.includes "RLM_MODEL_API_KEY" input = false ->
  redactSecrets input = input.
Proof.
  intros Hbearer Hkey. unfold redactSecrets. cbv zeta.
  rewrite (replaceBearer_unmentioned _ _ Hbearer).
  by apply replaceApiKey_unmentioned.
Qed.

Lemma redactSecrets_unmentioned_witness :
  redactSecrets "Did not finish the function stack before subagent died"
  = "Did not finish the function stack before subagent died".
Proof.
  apply (redactSecrets_unmentioned
           "Did not finish the function stack before subagent died"); reflexivity.
Defined.

Lemma token_char_not_white c :
  Redact.isTokenChar c = true -> Js.isWhiteSpace c = false.
Proof. destruct c as [[] [] [] [] [] [] [] []]; vm_compute; congruence. Qed.

Lemma white_not_letter_b c :
  Js.isWhiteSpace c = true -> Ascii.eqb "B" c = false /\ Ascii.eqb "b" c = false.
Proof. destruct c as [[] [] [] [] [] [] [] []]; vm_compute; intros; split; congruence. Qed.

Lemma span_all f s : every f s = true -> Redact.span f s = String.length s.
Proof.
  induction s as [|c s IH]; [done|]. simpl. intros H.
  apply andb_true_iff in H as [Hc Hs]. by rewrite Hc, IH.
Qed.

Lemma span_app f a c r :
  every f a = true -> f c = false ->
  Redact.span f (a +:+ String c r) = String.length a.
Proof.
  intros Ha Hc. induction a as [|d a IH].
  - rewrite app_empty_l. simpl. by rewrite Hc.
  - simpl in Ha. apply andb_true_iff in Ha as [Hd Ha].
    rewrite app_cons. simpl. by rewrite Hd, IH.
Qed.


Lemma drop_whole s : JsString.drop (String.length s) s = "".
Proof. rewrite <-(app_empty_r s) at 2. apply drop_app_exact. Qed.

Lemma stripPrefix_ci_app p w x :
  Redact.stripPrefix_ci p w = Some "" ->
  Redact.stripPrefix_ci p (w +:+ x) = Some x /\ String.length w = String.length p.
Proof.
  revert w. induction p as [|a p IH]; intros [|b w] H; try done.
  rewrite app_cons. simpl in *. destruct (Ascii.eqb _ _); [|done].
  destruct (IH w H). by split; [|f_equal].
Qed.


(** A pattern none of whose letters is [b] does not match across the seam
    before a text that begins with [b]. *)
Lemma stripPrefix_ci_seam p t b rest :
  every (fun a => negb (Ascii.eqb (Redact.lower a) (Redact.lower b))) p = true ->
  Redact.stripPrefix_ci p t = None ->
  Redact.stripPrefix_ci p (t +:+ String b rest) = None.
Proof.
  revert t. induction p as [|a p IH]; intros t Hp Ht; [by destruct t|].
  simpl in Hp. apply andb_true_iff in Hp as [Ha Hp]. apply negb_true_iff in Ha.
  destruct t as [|c t].
  - rewrite app_empty_l. simpl. by rewrite Ha.
  - rewrite app_cons. simpl in Ht |- *.
    destruct (Ascii.eqb (Redact.lower a) (Redact.lower c)); [by apply IH|done].
Qed.

Lemma startsWith_seam p t b rest :
  every (fun a => negb (Ascii.eqb a b)) p = true ->
  JsString.startsWith p t = false ->
  JsString.startsWith p (t +:+ String b rest) = false.
Proof.
  revert t. induction p as [|a p IH]; intros t Hp Ht; [by destruct t|].
  simpl in Hp. apply andb_true_iff in Hp as [Ha Hp]. apply negb_true_iff in Ha.
  destruct t as [|c t].
  - rewrite app_empty_l. simpl. by rewrite Ha.
  - rewrite app_cons. simpl in Ht |- *.
    destruct (Ascii.eqb a c); [by apply IH|done].
Qed.

Lemma includes_seam p pre b rest :
  every (fun a => negb (Ascii.eqb a b)) p = true ->
  JsString.includes p pre = false ->
  JsString.includes p (String b rest) = false ->
  JsString.includes p (pre +:+ String b rest) = false.
Proof.
  intros Hp Hpre Hrest. induction pre as [|c pre IH]; [done|].
  rewrite app_cons.
  change (JsString.includes p (String c (pre +:+ String b rest)))
    with (JsString.startsWith p (String c (pre +:+ String b rest))
          || JsString.includes p (pre +:+ String b rest)).
  change (JsString.includes p (String c pre))
    with (JsString.startsWith p (String c pre) || JsString.includes p pre) in Hpre.
  apply orb_false_iff in Hpre as [Hhere Hlater].
  rewrite (IH Hlater), orb_false_r.
  rewrite <-app_cons. by apply startsWith_seam.
Qed.

(** The first replacement copies a text that does not mention the word up
    to a following credential. *)
Lemma replaceBearer_copy pre b rest fuel :
  mentions_bearer pre = false ->
  Ascii.eqb (Redact.lower "B") (Redact.lower b) = true ->
  Redact.replaceBearer (String.length pre + fuel) (pre +:+ String b rest)
  = pre +:+ Redact.replaceBearer fuel (String b rest).
Proof.
  intros Hpre Hb. induction pre as [|c pre IH]; [done|].
  rewrite mentions_bearer_unfold in Hpre.
  destruct (Redact.stripPrefix_ci "Bearer" (String c pre)) eqn:E; [done|].
  rewrite !app_cons.
  assert (Redact.matchBearer (String c (pre +:+ String b rest)) = None) as Hnone.
  { apply matchBearer_stripped.
    change (Redact.stripPrefix_ci "Bearer" (String c ?x))
      with (if Ascii.eqb (Redact.lower "B") (Redact.lower c)
            then Redact.stripPrefix_ci "earer" x else None) in E |- *.
    destruct (Ascii.eqb (Redact.lower "B") (Redact.lower c)); [|done].
    apply stripPrefix_ci_seam; [|done].
    apply Ascii.eqb_eq in Hb. rewrite <-Hb. reflexivity. }
  change (Redact.replaceBearer (String.length (String c pre) + fuel)
            (String c (pre +:+ String b rest)))
    with (match Redact.matchBearer (String c (pre +:+ String b rest)) with
          | Some len =>
              "Bearer [REDACTED]"
                +:+ Redact.replaceBearer (String.length pre + fuel)
                      (JsString.drop len (String c (pre +:+ String b rest)))
          | None =>
              String c (Redact.replaceBearer (String.length pre + fuel)
                          (pre +:+ String b rest))
          end).
  rewrite Hnone. by rewrite (IH Hpre).
Qed.

(** X12. A bearer credential at the end of a message is redacted whole: when
    the text before it mentions neither keyword, the message made of that
    text, the word [Bearer] in any letter case, white space and a token of
    letters, digits, dots, underscores and dashes becomes the text followed by
    [Bearer [REDACTED]]. *)
Theorem redactSecrets_bearer_credential (pre word spaces token : string) :
  mentions_bearer pre = false ->
  JsString.includes "RLM_MODEL_API_KEY" pre = false ->
  Redact.stripPrefix_ci "Bearer" word = Some "" ->
  spaces <> "" -> every Js.isWhiteSpace spaces = true ->
  token <> "" -> every Redact.isTokenChar token = true ->
  redactSecrets (pre +:+ word +:+ spaces +:+ token) = pre +:+ "Bearer [REDACTED]".
Proof.
  intros Hpre Hkey Hword Hspaces Hwhite Htoken Hchars.
  destruct (stripPrefix_ci_app "Bearer" word (spaces +:+ token) Hword) as [Hstrip Hlen].
  destruct word as [|b word']; [done|].
  assert (Ascii.eqb (Redact.lower "B") (Redact.lower b) = true) as Hb.
  { change (Redact.stripPrefix_ci "Bearer" (String b word'))
      with (if Ascii.eqb (Redact.lower "B") (Redact.lower b)
            then Redact.stripPrefix_ci "earer" word' else None) in Hword.
    by destruct (Ascii.eqb (Redact.lower "B") (Redact.lower b)). }
  destruct token as [|t token']; [done|].
  assert (Redact.matchBearer (String b word' +:+ spaces +:+ String t token')
          = Some (6 + String.length spaces + String.length (String t token'))%nat)
    as Hmatch.
  { unfold Redact.matchBearer. rewrite Hstrip.
    simpl in Hchars. apply andb_true_iff in Hchars as [Ht Hrest].
    rewrite (span_app _ spaces t token' Hwhite (token_char_not_white t Ht)).
    rewrite drop_app_exact.
    rewrite (span_all Redact.isTokenChar (String t token'))
      by (simpl; by rewrite Ht, Hrest).
    destruct spaces; [done|]. done. }
  assert (Redact.replaceBearer
            (String.length (pre +:+ String b word' +:+ spaces +:+ String t token'))
            (pre +:+ String b word' +:+ spaces +:+ String t token')
          = pre +:+ "Bearer [REDACTED]") as Hfirst.
  { set (credential := word' +:+ spaces +:+ String t token').
    assert (String b word' +:+ spaces +:+ String t token' = String b credential)
      as Hcredential by reflexivity.
    assert (String.length (String b credential)
            = (6 + String.length spaces + String.length (String t token'))%nat) as Hall.
    { rewrite <-Hcredential, !str_length_app, Hlen. simpl. lia. }
    rewrite Hcredential in Hmatch |- *.
    rewrite str_length_app, (replaceBearer_copy pre b _ _ Hpre Hb). f_equal.
    change (String.length (String b credential)) with (S (String.length credential)).
    change (Redact.replaceBearer (S ?fuel) (String b credential))
      with (match Redact.matchBearer (String b credential) with
            | Some len =>
                "Bearer [REDACTED]"
                  +:+ Redact.replaceBearer fuel (JsString.drop len (String b credential))
            | None => String b (Redact.replaceBearer fuel credential)
            end).
    rewrite Hmatch, <-Hall, drop_whole.
    by destruct (String.length credential). }
  unfold redactSecrets. cbv zeta. rewrite Hfirst.
  apply replaceApiKey_unmentioned.
  by apply (includes_seam "RLM_MODEL_API_KEY" pre "B" "earer [REDACTED]").
Qed.

Lemma redactSecrets_bearer_credential_witness :
  redactSecrets ("401 for Authorization: " +:+ "bEARER" +:+ "  " +:+ "sk-live_12.34")
  = "401 for Authorization: " +:+ "Bearer [REDACTED]".
Proof.
  apply (redactSecrets_bearer_credential "401 for Authorization: " "bEARER" "  "
           "sk-live_12.34"); try reflexivity; discriminate.
Defined.












(** ** Turns of the loop *)

Lemma generate_code_failure response generated :
  generate_code response = Returned generated ->
  success generated = false -> code generated = "".
Proof.
  unfold generate_code. destruct response as [completion|err]; [|done].
  cbv zeta. destruct (negb _); intros [= <-]; done.
Qed.

(** X14. A turn whose reply yields no code, and that stays within the
    budgets, does not touch the sandbox and runs nothing in it: the loop goes
    on with the reply and the fixed extraction-error message appended to the
    messages, one step logged without output, and the call counted. *)
Theorem turn_without_code
    (cfg : RlmConfig) (responses : nat -> Outcome Completion)
    (run : nat -> Sandbox -> World -> Outcome unit * Sandbox * World)
    (logger : Logger) (model : string) (i : nat)
    (messages : list Message) (sb : Sandbox) (w : World) (generated : CodeReturn) :
  generate_code (responses i) = Returned generated ->
  success generated = false ->
  let counted :=
    trackUsage (usage generated)
      (send_request {| sender := logger_run_id logger; request_model := model;
                       sent_messages := messages |} w) in
  exceeded (MAX_PROMPT_TOKENS cfg) (prompt_tokens (getTotalUsage counted)) = None ->
  exceeded (MAX_COMPLETION_TOKENS cfg) (completion_tokens (getTotalUsage counted)) = None ->
  turn cfg responses run logger model i messages sb w
  = Continue
      (messages ++ [message generated;
                    user_message
                      "Error: We could not extract code because you may not have used repl block!"])
      sb
      (logStep logger
         {| step := i + 1; step_code := ""; output := None; hasError := None;
            step_reasoning := reasoning (message generated);
            step_usage := usage generated |} counted).
Proof.
  intros Hgenerated Hsuccess counted Hprompt Hcompletion.
  unfold turn. rewrite Hgenerated. cbv zeta. fold counted.
  rewrite Hprompt, Hcompletion, Hsuccess. simpl negb. cbv iota.
  rewrite (generate_code_failure _ _ Hgenerated Hsuccess).
  by rewrite <-app_assoc.
Qed.

Lemma turn_without_code_witness :
  exists w',
    turn config_small (responses prose_script) idle_run logger0 "gpt-5" 0 [] sandbox0 world0
    = Continue
        [choice_message prose_completion;
         user_message
           "Error: We could not extract code because you may not have used repl block!"]
        sandbox0 w'.
Proof.
  eexists.
  apply (turn_without_code config_small (responses prose_script) idle_run logger0 "gpt-5"
           0 [] sandbox0 world0
           {| code := ""; success := false; message := choice_message prose_completion;
              usage := normalizeUsage (completion_usage prose_completion) |});
    reflexivity.
Defined.

(** X15. An exception of the code that the sandbox runs never leaves the
    loop: when the run throws and no final result is set, the turn goes on;
    the error line [Error: message] is appended to the captured output, which
    is what the next user message shows after truncation, and the step is
    logged as having an error. *)
Theorem turn_catches_exception
    (cfg : RlmConfig) (responses : nat -> Outcome Completion)
    (run : nat -> Sandbox -> World -> Outcome unit * Sandbox * World)
    (logger : Logger) (model : string) (i : nat)
    (messages : list Message) (sb : Sandbox) (w : World) (generated : CodeReturn)
    (error : Exception) (sb' : Sandbox) (w' : World) :
  generate_code (responses i) = Returned generated ->
  success generated = true ->
  let counted :=
    trackUsage (usage generated)
      (send_request {| sender := logger_run_id logger; request_model := model;
                       sent_messages := messages |} w) in
  exceeded (MAX_PROMPT_TOKENS cfg) (prompt_tokens (getTotalUsage counted)) = None ->
  exceeded (MAX_COMPLETION_TOKENS cfg) (completion_tokens (getTotalUsage counted)) = None ->
  run i (set_stdoutBuffer "" sb) counted = (Threw error, sb', w') ->
  final_result sb' = PyNone ->
  let captured := stdoutBuffer sb' +:+ newline +:+ "Error: " +:+ emessage error +:+ " " in
  turn cfg responses run logger model i messages sb w
  = Continue
      (messages ++ [message generated;
                    user_message ("Output: " +:+ newline +:+ truncateText cfg captured)])
      (set_stdoutBuffer captured sb')
      (logStep logger
         {| step := i + 1; step_code := code generated;
            output := Some (truncateText cfg captured); hasError := Some true;
            step_reasoning := reasoning (message generated);
            step_usage := usage generated |} w').
Proof.
  intros Hgenerated Hsuccess counted Hprompt Hcompletion Hrun Hfinal captured.
  unfold turn. rewrite Hgenerated. cbv zeta. fold counted.
  rewrite Hprompt, Hcompletion, Hsuccess. simpl negb. cbv iota.
  rewrite Hrun. cbv iota beta. fold captured.
  simpl final_result. rewrite Hfinal. simpl stdoutBuffer.
  assert (JsString.includes "Error" captured = true) as ->.
  { subst captured.
    rewrite <-(app_assoc_str (stdoutBuffer sb') newline).
    change ("Error: " +:+ emessage error +:+ " ")
      with ("Error" +:+ ": " +:+ emessage error +:+ " ").
    apply includes_middle. }
  by rewrite <-app_assoc.
Qed.

Lemma turn_catches_exception_witness :
  exists w',
    turn config_small (fun _ => Returned code_completion) failing_run logger0 "gpt-5" 0 []
      sandbox0 world0
    = Continue
        [choice_message code_completion;
         user_message
           ("Output: " +:+ newline
            +:+ truncateText config_small
                  ("" +:+ newline +:+ "Error: " +:+ "ZeroDivisionError: division by zero"
                   +:+ " "))]
        (set_stdoutBuffer
           ("" +:+ newline +:+ "Error: " +:+ "ZeroDivisionError: division by zero" +:+ " ")
           (set_stdoutBuffer "" sandbox0))
        w'.
Proof.
  eexists.
  apply (turn_catches_exception config_small (fun _ => Returned code_completion)
           failing_run logger0 "gpt-5" 0 [] sandbox0 world0
           {| code := "print(1/0)"; success := true;
              message := choice_message code_completion;
              usage := normalizeUsage Undefined |}
           (PythonError "ZeroDivisionError: division by zero")
           (set_stdoutBuffer "" sandbox0)); reflexivity.
Defined.

(** ** What an agent returns *)

Lemma turn_returned cfg responses run logger model i messages sb w value w' :
  turn cfg responses run logger model i messages sb w = Leave (Returned value) w' ->
  value <> PyNone /\
  (exists es, events w' = es ++ [event_of logger (final_result_logged value)]) /\
  exists generated ran sb1 w1,
    generate_code (responses i) = Returned generated /\
    success generated = true /\
    run i {| py_context := py_context sb; stdoutBuffer := "";
             final_result := final_result sb |}
      (trackUsage (usage generated)
         (send_request {| sender := logger_run_id logger; request_model := model;
                          sent_messages := messages |} w))
    = (ran, sb1, w1) /\
    final_result sb1 = value /\
    w' = logFinalResult logger value
           (logStep logger
              {| step := i + 1; step_code := code generated; output := None;
                 hasError := None; step_reasoning := reasoning (message generated);
                 step_usage := usage generated |} w1).
Proof.
  unfold turn. destruct (generate_code (responses i)) as [generated|err] eqn:Hgen; [|done].
  cbv zeta. destruct (exceeded _ _); [done|]. destruct (exceeded _ _); [done|].
  destruct (success generated) eqn:Hsuccess; [|done]. simpl negb. cbv iota.
  unfold set_stdoutBuffer at 1.
  destruct (run i _ _) as [[ran sb1] w1] eqn:Hrun.
  assert (final_result
            match ran with
            | Returned _ => sb1
            | Threw error =>
                set_stdoutBuffer
                  (stdoutBuffer sb1 +:+ newline +:+ "Error: " +:+ emessage error +:+ " ")
                  sb1
            end = final_result sb1) as Hfinal by (by destruct ran).
  rewrite Hfinal. destruct (final_result sb1) eqn:E; [done|..];
    intros [= <- <-]; (split; [done|]); (split; [eexists; reflexivity|]);
    exists generated, ran, sb1, w1; by rewrite E.
Qed.

Lemma turn_continue_final cfg responses run logger model i messages sb w messages' sb' w' :
  turn cfg responses run logger model i messages sb w = Continue messages' sb' w' ->
  final_result sb = PyNone -> final_result sb' = PyNone.
Proof.
  unfold turn. destruct (generate_code (responses i)) as [generated|err]; [|done].
  cbv zeta. destruct (exceeded _ _); [done|]. destruct (exceeded _ _); [done|].
  destruct (negb (success generated)); [by intros [= _ <- _]|].
  destruct (run i _ _) as [[ran sb1] w1].
  destruct ran as [?|error]; simpl;
    (match goal with |- context [final_result ?s] => destruct (final_result s) eqn:E end);
    try done; by intros [= _ <- _].
Qed.

Lemma turns_returned cfg responses run logger model remaining i messages sb w value :
  fst (turns cfg responses run logger model remaining i messages sb w) = Returned value ->
  exists (n : nat) messages' sb' w',
    (n < remaining)%nat /\
    continued cfg responses run logger model n i messages sb w = Some (messages', sb', w') /\
    turn cfg responses run logger model (i + n) messages' sb' w'
    = Leave (Returned value)
        (snd (turns cfg responses run logger model remaining i messages sb w)).
Proof.
  revert i messages sb w. induction remaining as [|remaining IH]; intros i messages sb w.
  { done. }
  simpl. destruct (turn cfg responses run logger model i messages sb w)
    as [messages1 sb1 w1|result w1] eqn:Hturn.
  - intros H. destruct (IH _ _ _ _ H) as (n & messages' & sb' & w' & Hn & Hcont & Hleave).
    exists (S n), messages', sb', w'. split; [lia|]. simpl. rewrite Hturn.
    split; [done|]. by replace (i + S n)%nat with (S i + n)%nat by lia.
  - simpl. intros ->. exists 0%nat, messages, sb, w. split; [lia|]. split; [done|].
    by replace (i + 0)%nat with i by lia.
Qed.

Lemma continued_final cfg responses run logger model remaining i messages sb w
    messages' sb' w' :
  continued cfg responses run logger model remaining i messages sb w
  = Some (messages', sb', w') ->
  final_result sb = PyNone -> final_result sb' = PyNone.
Proof.
  revert i messages sb w. induction remaining as [|remaining IH]; intros i messages sb w.
  { simpl. by intros [= _ <- _]. }
  simpl. destruct (turn cfg responses run logger model i messages sb w)
    as [messages1 sb1 w1|result w1] eqn:Hturn; [|done].
  intros H Hsb. apply (IH _ _ _ _ H). by eapply turn_continue_final.
Qed.

Lemma runPythonAsync_assigned cfg getEnv preflight initial_code self code sb w v :
  assigned code (final_result sb) = Some v ->
  final_result (snd (fst (runPythonAsync cfg getEnv preflight initial_code self code sb w)))
  = v.
Proof.
  revert sb w. induction code as [|traceback|text next IH|x next IH| ]; intros sb w; simpl.
  - by intros [= <-].
  - by intros [= <-].
  - intros H. by apply IH.
  - intros H. by apply IH.
  - done.
Qed.

(** X16. What an agent returns is the final result that its code set.  When
    [subagent] returns a value, some turn within [MAX_CALLS], reached with no
    final result pending, ran the code of a reply in the sandbox, and the
    value is what the sandbox holds as final result after that run: for code
    that calls no [llm_query], the argument of the last [FINAL] it executed.
    The value is never [None] (code that passes [None] to [FINAL] does not end
    the agent).  The agent then logs the step and, last, its [final_result]
    event with that value, under its run id, parent and depth. *)
Theorem subagent_returns_final
    (cfg : RlmConfig) (getEnv : EnvGetter) (preflight : Outcome (list string))
    (initial_code : string) (script : Script) (context : string) (depth0 : Z)
    (parent : option nat) (runtimeModels : option RuntimeModelResolution) (w : World)
    (value : PyValue) :
  let ended :=
    subagent cfg getEnv preflight initial_code script context depth0 parent
      runtimeModels w in
  fst ended = Returned value ->
  value <> PyNone /\
  (exists es,
     events (snd ended)
     = es ++ [{| run_id := next_run_id w; parent_run_id := parent; depth := depth0;
                 payload := final_result_logged value |}]) /\
  exists (n : nat) logger self model messages0 sb0 w0 messages sb w1 generated ran sb' w',
    loop_entry cfg getEnv preflight initial_code (seed_output script) context depth0
      parent runtimeModels w
    = (Returned (logger, self, model, messages0, sb0), w0) /\
    (n < Z.to_nat (MAX_CALLS cfg))%nat /\
    continued cfg (responses script)
      (fun i => runPythonAsync cfg getEnv preflight initial_code self (programs script i))
      logger model n 0 messages0 sb0 w0
    = Some (messages, sb, w1) /\
    final_result sb = PyNone /\
    generate_code (responses script n) = Returned generated /\
    success generated = true /\
    runPythonAsync cfg getEnv preflight initial_code self (programs script n)
      {| py_context := py_context sb; stdoutBuffer := ""; final_result := PyNone |}
      (trackUsage (usage generated)
         (send_request {| sender := logger_run_id logger; request_model := model;
                          sent_messages := messages |} w1))
    = (ran, sb', w') /\
    final_result sb' = value /\
    (forall v, assigned (programs script n) PyNone = Some v -> value = v) /\
    snd ended
    = logFinalResult logger value
        (logStep logger
           {| step := n + 1; step_code := code generated; output := None;
              hasError := None; step_reasoning := reasoning (message generated);
              step_usage := usage generated |} w').
Proof.
  intros ended. subst ended. unfold subagent. rewrite subagent_with_entry.
  destruct (loop_entry cfg getEnv preflight initial_code (seed_output script) context
              depth0 parent runtimeModels w)
    as [[[[[[logger self] model] messages0] sb0]|err] w0] eqn:Hentry; [|done].
  assert (logger = {| logger_run_id := next_run_id w; logger_parent_run_id := parent;
                      logger_depth := depth0 |} /\ final_result sb0 = PyNone)
    as [Hlogger Hsb0].
  { unfold loop_entry, new_Logger in Hentry.
    destruct (match runtimeModels with Some _ => _ | None => _ end); [|done].
    cbv zeta in Hentry. by injection Hentry as <- _ _ _ <- _. }
  intros H. apply turns_returned in H as (n & messages & sb & w1 & Hn & Hcont & Hleave).
  pose proof (continued_final _ _ _ _ _ _ _ _ _ _ _ _ _ Hcont Hsb0) as Hsb.
  apply turn_returned in Hleave
    as (Hvalue & (es & Hes) & generated & ran & sb' & w' & Hgen & Hsuccess & Hrun
        & Hfinal & Hend).
  rewrite Hsb in Hrun. simpl in Hrun.
  split; [done|]. split.
  { exists es. rewrite Hes. by rewrite Hlogger. }
  exists n, logger, self, model, messages0, sb0, w0, messages, sb, w1, generated, ran,
    sb', w'.
  repeat split; try done.
  intros v Hv.
  pose proof (runPythonAsync_assigned cfg getEnv preflight initial_code self
                (programs script n)
                {| py_context := py_context sb; stdoutBuffer := "";
                   final_result := PyNone |}
                (trackUsage (usage generated)
                   (send_request {| sender := logger_run_id logger; request_model := model;
                                    sent_messages := messages |} w1)) v Hv) as Hassigned.
  rewrite Hrun in Hassigned. simpl in Hassigned. congruence.
Qed.

Lemma subagent_returns_final_witness :
  fst (subagent config_small no_env (Returned []) "" final_script "say hi" 0
         None (Some models0) world0) = Returned (PyStr "hi") /\
  PyStr "hi" <> PyNone /\
  exists es,
    events (snd (subagent config_small no_env (Returned []) "" final_script "say hi" 0
                   None (Some models0) world0))
    = es ++ [{| run_id := next_run_id world0; parent_run_id := None; depth := 0;
                payload := final_result_logged (PyStr "hi") |}].
Proof.
  destruct (subagent_returns_final config_small no_env (Returned []) "" final_script
              "say hi" 0 None (Some models0) world0 (PyStr "hi")) as (H1 & H2 & _).
  { vm_compute. reflexivity. }
  split; [vm_compute; reflexivity|]. by split.
Defined.

(** ** Relations that every step of an agent keeps *)

Section kept_relation.

Variable cfg : RlmConfig.
Variable getEnv : EnvGetter.
Variable preflight : Outcome (list string).
Variable initial_code : string.

(** A relation between the world before and the world after, the requests
    that may be sent and the agents that may run. *)
Variable kept : World -> World -> Prop.
Variable sendable : ChatRequest -> Prop.
Variable good : Agent -> Prop.

Hypothesis kept_refl : forall w, kept w w.
Hypothesis kept_trans : forall w1 w2 w3, kept w1 w2 -> kept w2 w3 -> kept w1 w3.
Hypothesis kept_send_request : forall r w, sendable r -> kept w (send_request r w).
Hypothesis kept_log_event : forall e w, kept w (log_event e w).
Hypothesis kept_new_Logger :
  forall depth0 maxCalls parent w, kept w (snd (new_Logger depth0 maxCalls parent w)).
Hypothesis kept_trackUsage :
  forall rawUsage w, kept w (trackUsage (normalizeUsage rawUsage) w).
Hypothesis good_child :
  forall self id,
    good self ->
    good {| subagent_depth := subagent_depth self + 1; agent_run_id := id;
            models := models self |}.
Hypothesis good_sendable :
  forall self id messages,
    good self ->
    sendable {| sender := id;
                request_model := if subagent_depth self + 1 =? 0
                                 then primaryAgent (models self)
                                 else subAgent (models self);
                sent_messages := messages |}.

Lemma generate_code_normalised response generated :
  generate_code response = Returned generated ->
  exists rawUsage, usage generated = normalizeUsage rawUsage.
Proof.
  unfold generate_code. destruct response as [completion|err]; [|done].
  cbv zeta. destruct (negb _); intros [= <-]; eauto.
Qed.

Lemma turn_kept responses run logger model i messages sb w :
  (forall i sb w, kept w (snd (run i sb w))) ->
  (forall messages, sendable {| sender := logger_run_id logger; request_model := model;
                                sent_messages := messages |}) ->
  kept w (turn_world (turn cfg responses run logger model i messages sb w)).
Proof.
  intros Hrun Hown. unfold turn.
  eapply kept_trans; [apply kept_send_request, Hown|].
  destruct (generate_code (responses i)) as [generated|err] eqn:Hgenerated;
    [|apply kept_refl].
  destruct (generate_code_normalised _ _ Hgenerated) as (rawUsage & Husage).
  cbv zeta. rewrite Husage.
  eapply kept_trans; [apply kept_trackUsage|].
  destruct (exceeded _ _); [apply kept_refl|].
  destruct (exceeded _ _); [apply kept_refl|].
  destruct (negb (success generated)); [apply kept_log_event|].
  match goal with
  | |- context [run i ?s ?w0] =>
      pose proof (Hrun i s w0) as Hran; destruct (run i s w0) as [[ran sb1] w1]
  end.
  simpl in Hran. eapply kept_trans; [exact Hran|].
  destruct ran as [?|error]; simpl;
    (match goal with |- context [final_result ?s] => destruct (final_result s) end);
    simpl; unfold logFinalResult, logStep;
    first [ apply kept_log_event
          | eapply kept_trans; apply kept_log_event ].
Qed.

Lemma turns_kept responses run logger model remaining i messages sb w :
  (forall i sb w, kept w (snd (run i sb w))) ->
  (forall messages, sendable {| sender := logger_run_id logger; request_model := model;
                                sent_messages := messages |}) ->
  kept w (snd (turns cfg responses run logger model remaining i messages sb w)).
Proof.
  intros Hrun Hown. revert i messages sb w.
  induction remaining as [|remaining IH]; intros i messages sb w; [apply kept_refl|].
  simpl. pose proof (turn_kept responses run logger model i messages sb w Hrun Hown) as H.
  destruct (turn cfg responses run logger model i messages sb w)
    as [messages' sb' w'|result w']; simpl in *; [|done].
  eapply kept_trans; [exact H|apply IH].
Qed.

Lemma subagent_with_kept
    (run : Agent -> nat -> Sandbox -> World -> Outcome unit * Sandbox * World)
    seed responses context depth0 parent runtimeModels w :
  (forall self i sb w, good self -> kept w (snd (run self i sb w))) ->
  (forall pair,
     match runtimeModels with
     | Some given => Returned given
     | None => resolveRuntimeModelSelection cfg getEnv preflight
     end = Returned pair ->
     good {| subagent_depth := depth0; agent_run_id := next_run_id w; models := pair |} /\
     forall messages,
       sendable {| sender := next_run_id w;
                   request_model := if depth0 =? 0 then primaryAgent pair
                                    else subAgent pair;
                   sent_messages := messages |}) ->
  kept w (snd (subagent_with cfg getEnv preflight initial_code run seed responses
                 context depth0 parent runtimeModels w)).
Proof.
  intros Hrun Hagent. rewrite subagent_with_entry. unfold loop_entry.
  pose proof (kept_new_Logger depth0 (MAX_CALLS cfg) parent w) as Hlogger.
  unfold new_Logger in *. simpl in Hlogger.
  destruct (match runtimeModels with Some _ => _ | None => _ end) as [pair|err];
    [|done].
  destruct (Hagent pair eq_refl) as [Hgood Hown].
  cbv zeta. eapply kept_trans; [exact Hlogger|].
  eapply kept_trans; [apply kept_log_event|].
  apply turns_kept; [intros; by apply Hrun|exact Hown].
Qed.

Lemma runPythonAsync_kept code :
  forall self sb w,
    good self ->
    kept w (snd (runPythonAsync cfg getEnv preflight initial_code self code sb w)).
Proof.
  induction code as [|traceback|text next IH|x next IH
                     |context child_seed child_responses child_programs IHchild next IH];
    intros self sb w Hself; simpl; try apply kept_refl; try by apply IH.
  unfold llm_query. destruct (MAX_DEPTH cfg <=? subagent_depth self); [by apply IH|].
  match goal with
  | |- context [subagent_with cfg getEnv preflight initial_code ?r ?s ?rs ?c ?d ?p ?m w] =>
      pose proof (subagent_with_kept r s rs c d p m w) as Hchild;
      destruct (subagent_with cfg getEnv preflight initial_code r s rs c d p m w)
        as [output w'] eqn:E
  end.
  simpl in Hchild. eapply kept_trans; [apply Hchild|by apply IH].
  - intros. by apply IHchild.
  - intros pair [= <-]. split; [by apply good_child|intros; by apply good_sendable].
Qed.

Lemma subagent_kept script context depth0 parent runtimeModels w :
  (forall pair,
     match runtimeModels with
     | Some given => Returned given
     | None => resolveRuntimeModelSelection cfg getEnv preflight
     end = Returned pair ->
     good {| subagent_depth := depth0; agent_run_id := next_run_id w; models := pair |} /\
     forall messages,
       sendable {| sender := next_run_id w;
                   request_model := if depth0 =? 0 then primaryAgent pair
                                    else subAgent pair;
                   sent_messages := messages |}) ->
  kept w (snd (subagent cfg getEnv preflight initial_code script context depth0 parent
                 runtimeModels w)).
Proof.
  intros Hagent. unfold subagent. apply subagent_with_kept; [|exact Hagent].
  intros. by apply runPythonAsync_kept.
Qed.

End kept_relation.

(** ** The token counters never go down *)

Lemma counter_grows_refl x : counter_grows x x.
Proof. by left. Qed.

Lemma gt_trans x y z :
  Number.gt y x = true -> Number.gt z y = true -> Number.gt z x = true.
Proof.
  destruct x as [| | |a], y as [| | |b], z as [| | |c]; simpl; try done.
  intros ?%Z.ltb_lt ?%Z.ltb_lt. apply Z.ltb_lt. lia.
Qed.

Lemma counter_grows_trans x y z :
  counter_grows x y -> counter_grows y z -> counter_grows x z.
Proof.
  intros [-> | Hxy] [-> | Hyz]; [by left|by right|by right|].
  right. by eapply gt_trans.
Qed.

(** Adding what [normalizeUsage] returns to a counter that is at least 0
    leaves it at least 0 and does not make it smaller. *)
Lemma counter_grows_add x y :
  Number.nonneg x -> Number.nonneg y ->
  counter_grows x (Number.add x y) /\ Number.nonneg (Number.add x y).
Proof.
  destruct x as [| | |a], y as [| | |b]; simpl; try done.
  - intros _ _. split; [by left|done].
  - intros _ _. split; [by left|done].
  - intros Ha _. split; [by right|done].
  - intros Ha Hb.
    destruct (Number.MAX_VALUE_HALFWAY <=? a + b); [split; [by right|done]|].
    assert ((a + b <=? - Number.MAX_VALUE_HALFWAY) = false) as ->.
    { apply Z.leb_gt. unfold Number.MAX_VALUE_HALFWAY.
      assert (0 < 2 ^ 1024 - 2 ^ 970) by (by vm_compute). lia. }
    split; [|simpl; lia].
    destruct (decide (b = 0)) as [->|Hne].
    + left. f_equal. lia.
    + right. simpl. apply Z.ltb_lt. lia.
Qed.

Lemma normalizeUsage_tokens_nonneg rawUsage :
  let u := normalizeUsage rawUsage in
  Number.nonneg (prompt_tokens u) /\ Number.nonneg (completion_tokens u) /\
  Number.nonneg (total_tokens u) /\ Number.nonneg (cached_tokens u) /\
  Number.nonneg (reasoning_tokens u).
Proof.
  cbv zeta. unfold normalizeUsage. cbv zeta. simpl.
  set (usage0 := Js.coalesce rawUsage (Obj ∅)).
  set (p := first_of (coercePositiveNumber (Js.get usage0 "prompt_tokens")) _ _).
  set (c := first_of (coercePositiveNumber (Js.get usage0 "completion_tokens")) _ _).
  assert (exists z, p = Finite z /\ 0 <= z) as (zp & Hp & Hzp).
  { eapply first_of_finite; [done..|]. by exists 0. }
  assert (exists z, c = Finite z /\ 0 <= z) as (zc & Hc & Hzc).
  { eapply first_of_finite; [done..|]. by exists 0. }
  rewrite Hp, Hc. split; [done|]. split; [done|]. split.
  { apply first_of_nonneg. by apply add_nonneg. }
  split.
  - destruct (default_coerce_finite
      (Js.opt_get (Js.get usage0 "prompt_tokens_details") "cached_tokens"))
      as (z & -> & Hz). done.
  - destruct (default_coerce_finite
      (Js.opt_get (Js.get usage0 "completion_tokens_details") "reasoning_tokens"))
      as (z & -> & Hz). done.
Qed.

(** From non-negative counters the counters grow and stay non-negative. *)
Lemma grows_refl w : tokens_nonneg w -> tokens_grow w w /\ tokens_nonneg w.
Proof. intros H. split; [|done]. repeat split; apply counter_grows_refl. Qed.

Lemma grows_same_usage w w' :
  totalUsage w' = totalUsage w ->
  tokens_nonneg w -> tokens_grow w w' /\ tokens_nonneg w'.
Proof.
  intros E H. unfold tokens_grow, tokens_nonneg in *. rewrite E.
  split; [|done]. repeat split; apply counter_grows_refl.
Qed.

Lemma grows_trans w1 w2 w3 :
  (tokens_nonneg w1 -> tokens_grow w1 w2 /\ tokens_nonneg w2) ->
  (tokens_nonneg w2 -> tokens_grow w2 w3 /\ tokens_nonneg w3) ->
  tokens_nonneg w1 -> tokens_grow w1 w3 /\ tokens_nonneg w3.
Proof.
  intros H12 H23 H1. destruct (H12 H1) as ((A1 & A2 & A3 & A4 & A5) & H2).
  destruct (H23 H2) as ((B1 & B2 & B3 & B4 & B5) & H3).
  split; [|done]. repeat split; eapply counter_grows_trans; eauto.
Qed.

Lemma grows_trackUsage rawUsage w :
  tokens_nonneg w ->
  tokens_grow w (trackUsage (normalizeUsage rawUsage) w) /\
  tokens_nonneg (trackUsage (normalizeUsage rawUsage) w).
Proof.
  intros (W1 & W2 & W3 & W4 & W5).
  destruct (normalizeUsage_tokens_nonneg rawUsage) as (U1 & U2 & U3 & U4 & U5).
  unfold tokens_grow, tokens_nonneg, trackUsage, set_totalUsage, add_usage.
  cbn [totalUsage prompt_tokens completion_tokens total_tokens cached_tokens
       reasoning_tokens].
  pose proof (counter_grows_add _ _ W1 U1) as [? ?].
  pose proof (counter_grows_add _ _ W2 U2) as [? ?].
  pose proof (counter_grows_add _ _ W3 U3) as [? ?].
  pose proof (counter_grows_add _ _ W4 U4) as [? ?].
  pose proof (counter_grows_add _ _ W5 U5) as [? ?].
  done.
Qed.

(** X17. The token counters of the accumulator never go down while agents
    run: from counters that are at least 0, as they are after a reset, the
    run of an agent, sub-agents included and whatever the world answers,
    leaves each of the five token counters as it was or larger, an infinity
    when a sum is too large for a finite number, and at least 0. *)
Theorem subagent_tokens_grow
    (cfg : RlmConfig) (getEnv : EnvGetter) (preflight : Outcome (list string))
    (initial_code : string) (script : Script) (context : string) (depth0 : Z)
    (parent : option nat) (runtimeModels : option RuntimeModelResolution) (w : World) :
  tokens_nonneg w ->
  let w' :=
    snd (subagent cfg getEnv preflight initial_code script context depth0 parent
           runtimeModels w) in
  tokens_grow w w' /\ tokens_nonneg w'.
Proof.
  apply (subagent_kept cfg getEnv preflight initial_code
           (fun w w' => tokens_nonneg w -> tokens_grow w w' /\ tokens_nonneg w')
           (fun _ => True) (fun _ => True)); try done.
  - apply grows_refl.
  - apply grows_trans.
  - intros. by apply grows_same_usage.
  - intros. by apply grows_same_usage.
  - intros. by apply grows_same_usage.
  - apply grows_trackUsage.
Qed.

Lemma subagent_tokens_grow_witness :
  let w' :=
    snd (subagent config_small no_env (Returned []) "" prose_script "say hi" 0 None
           (Some models0) world0) in
  tokens_grow world0 w' /\ tokens_nonneg w'.
Proof.
  apply (subagent_tokens_grow config_small no_env (Returned []) "" prose_script "say hi"
           0 None (Some models0) world0).
  vm_compute. done.
Defined.

(** ** One model pair per invocation *)

Lemma adds_requests_unique w w' es es' rs rs' :
  adds w w' es rs -> adds w w' es' rs' -> rs = rs'.
Proof.
  intros (_ & H & _) (_ & H' & _). rewrite H in H'. by apply app_inv_head in H'.
Qed.

(** The loop depends on the sandbox through what its runs do. *)
Lemma turn_run_ext cfg responses run run' logger model i messages sb w :
  (forall sb w, run i sb w = run' i sb w) ->
  turn cfg responses run logger model i messages sb w
  = turn cfg responses run' logger model i messages sb w.
Proof.
  intros Hrun. unfold turn.
  destruct (generate_code (responses i)) as [generated|err]; [|done].
  cbv zeta. destruct (exceeded _ _); [done|]. destruct (exceeded _ _); [done|].
  destruct (negb (success generated)); [done|]. by rewrite Hrun.
Qed.

Lemma turns_run_ext cfg responses run run' logger model remaining i messages sb w :
  (forall i sb w, run i sb w = run' i sb w) ->
  turns cfg responses run logger model remaining i messages sb w
  = turns cfg responses run' logger model remaining i messages sb w.
Proof.
  intros Hrun. revert i messages sb w.
  induction remaining as [|remaining IH]; intros i messages sb w; [done|].
  simpl. rewrite (turn_run_ext cfg responses run run') by (intros; apply Hrun).
  destruct (turn cfg responses run' logger model i messages sb w); [apply IH|done].
Qed.

(** An agent that is given its model pair does not consult the preflight. *)
Lemma subagent_with_given cfg getEnv preflight preflight' initial_code run run' seed
    responses context depth0 parent given w :
  (forall self i sb w, run self i sb w = run' self i sb w) ->
  subagent_with cfg getEnv preflight initial_code run seed responses context depth0
    parent (Some given) w
  = subagent_with cfg getEnv preflight' initial_code run' seed responses context depth0
      parent (Some given) w.
Proof.
  intros Hrun. unfold subagent_with. destruct (new_Logger _ _ _ _) as [logger w0].
  apply turns_run_ext. intros. apply Hrun.
Qed.

(** Neither does the code that it runs, nor any agent below it. *)
Lemma runPythonAsync_given cfg getEnv preflight preflight' initial_code code :
  forall self sb w,
    runPythonAsync cfg getEnv preflight initial_code self code sb w
    = runPythonAsync cfg getEnv preflight' initial_code self code sb w.
Proof.
  induction code as [|traceback|text next IH|x next IH
                     |context child_seed child_responses child_programs IHchild next IH];
    intros self sb w; simpl; [done|done|apply IH|apply IH|].
  unfold llm_query. destruct (MAX_DEPTH cfg <=? subagent_depth self); [apply IH|].
  rewrite (subagent_with_given cfg getEnv preflight preflight' initial_code
             (fun child i =>
                runPythonAsync cfg getEnv preflight initial_code child (child_programs i))
             (fun child i =>
                runPythonAsync cfg getEnv preflight' initial_code child (child_programs i)))
    by (intros; apply IHchild).
  destruct (subagent_with _ _ _ _ _ _ _ _ _ _ _ _) as [output w']. apply IH.
Qed.

Lemma subagent_given cfg getEnv preflight preflight' initial_code script context depth0
    parent given w :
  subagent cfg getEnv preflight initial_code script context depth0 parent (Some given) w
  = subagent cfg getEnv preflight' initial_code script context depth0 parent
      (Some given) w.
Proof.
  unfold subagent. apply subagent_with_given. intros. apply runPythonAsync_given.
Qed.

(** X18. A top-level agent (depth 0, no model pair given) that cannot resolve
    its models throws the preflight error without sending any request.
    Otherwise the whole tree of agents under it runs with the one pair that
    [resolveRuntimeModels] gives for the requested names and the available
    models, and the preflight is not repeated for the agents below it: the
    run is the run of an agent that is given that pair, whatever a further
    preflight would have answered; every request of the top-level agent names
    the primary model, and every request of every agent below it the sub
    model. *)
Theorem one_pair_per_invocation
    (cfg : RlmConfig) (getEnv : EnvGetter) (preflight : Outcome (list string))
    (initial_code : string) (script : Script) (context : string)
    (parent : option nat) (w : World) :
  let ended :=
    subagent cfg getEnv preflight initial_code script context 0 parent None w in
  match preflight with
  | Threw err => fst ended = Threw err /\ requests (snd ended) = requests w
  | Returned available =>
      let pair := resolveRuntimeModels (resolveModelNames cfg getEnv) available getEnv in
      (forall later : Outcome (list string),
         ended
         = subagent cfg getEnv later initial_code script context 0 parent (Some pair) w) /\
      exists es rs,
        adds w (snd ended) es rs /\ Forall (names_model pair (next_run_id w)) rs
  end.
Proof.
  intros ended. subst ended. destruct preflight as [available|err]; [|done].
  cbv zeta.
  set (pair := resolveRuntimeModels (resolveModelNames cfg getEnv) available getEnv).
  assert (subagent cfg getEnv (Returned available) initial_code script context 0 parent
            None w
          = subagent cfg getEnv (Returned available) initial_code script context 0 parent
              (Some pair) w) as -> by done.
  split; [intros later; apply subagent_given|].
  set (Q := fun q : ChatRequest =>
              request_model q = subAgent pair
              \/ (sender q = next_run_id w /\ request_model q = primaryAgent pair)).
  assert (exists es rs,
            adds w (snd (subagent cfg getEnv (Returned available) initial_code script
                           context 0 parent (Some pair) w)) es rs /\ Forall Q rs)
    as (es & rs & Hadd & Hall).
  { apply (subagent_kept cfg getEnv (Returned available) initial_code
             (fun w1 w2 => exists es rs, adds w1 w2 es rs /\ Forall Q rs)
             Q (fun self => models self = pair /\ 0 <= subagent_depth self)).
    - intros w1. exists [], []. split; [apply adds_refl|constructor].
    - intros w1 w2 w3 (es1 & rs1 & H1 & F1) (es2 & rs2 & H2 & F2).
      exists (es1 ++ es2), (rs1 ++ rs2). split; [by eapply adds_trans|].
      by apply Forall_app.
    - intros r w1 Hr. exists [], [r]. split; [apply adds_send_request|by constructor].
    - intros e w1. exists [e], []. split; [apply adds_log_event|constructor].
    - intros depth0 maxCalls parent0 w1. eexists [_], [].
      split; [|constructor]. unfold adds. simpl. rewrite app_nil_r. repeat split; lia.
    - intros rawUsage w1. exists [], []. split; [apply adds_trackUsage|constructor].
    - intros self id [Hm Hd]. simpl. split; [done|lia].
    - intros self id messages [Hm Hd]. left. simpl.
      assert ((subagent_depth self + 1 =? 0) = false) as -> by lia. by rewrite Hm.
    - intros given [= <-]. split; [split; [done|simpl; lia]|].
      intros messages. right. by split. }
  unfold subagent in *.
  edestruct (subagent_with_adds cfg getEnv (Returned available) initial_code)
    as (es' & rs' & Hadd' & _ & _ & Hown).
  { intros. apply runPythonAsync_children_only. }
  rewrite (adds_requests_unique _ _ _ _ _ _ Hadd Hadd') in *.
  eexists _, rs'. split; [exact Hadd'|].
  specialize (Hown pair eq_refl).
  rewrite Forall_forall in Hall, Hown. apply Forall_forall. intros q Hq.
  unfold names_model. destruct (decide (sender q = next_run_id w)) as [Hs|Hs].
  - by apply Hown.
  - destruct (Hall q Hq) as [Hsub|[Hroot _]]; [done|by destruct Hs].
Qed.

(** ** The run command *)

Lemma validatePrefix_throws_usage prefix (err : Exception) :
  validatePrefix prefix = Threw err -> ekind err = Some usage_error.
Proof.
  unfold validatePrefix.
  repeat match goal with |- context [if ?b then _ else _] => destruct b end;
    by intros [= <-].
Qed.

Lemma writeOutputAtomically_throws_output
    (JSON_stringify : value -> Outcome string) faults uuid path payload fs
    (err : Exception) fs' :
  writeOutputAtomically JSON_stringify faults uuid path payload fs = (Threw err, fs') ->
  ekind err = Some output_error.
Proof.
  unfold writeOutputAtomically. cbv zeta.
  destruct (match JSON_stringify payload with Returned _ => _ | Threw _ => _ end)
    as [[u|e] fs1]; by intros [= <- <-].
Qed.

(** X19. How the run command ends.  A prefix that [validatePrefix] rejects
    is a usage error, thrown with the process as it was.  Otherwise the agent
    runs from a reset accumulator, and there is a fatal error when the agent
    throws or, outside JSON mode, when the serialization of its result
    throws.  When an output file is asked for, it is written with the results,
    the log file and, when there is a fatal error with a message, the error;
    a failure to write it is thrown, as an output error.  Then, in JSON mode, a
    failure to serialize the envelope is thrown as it is.  In all other cases
    the command returns 6 when there is a fatal error with a message, and 0
    when there is none or its message is empty.  The logger and the writes to
    the console are taken not to fail. *)
Theorem runSubagentCommand_outcome
    (cfg : RlmConfig) (getEnv : EnvGetter) (preflight : Outcome (list string))
    (initial_code : string) (JSON_stringify : value -> Outcome string)
    (logFile : option string) (faults : Faults) (uuid : string)
    (script : Script) (opts : RunSubagentCommandOptions) (p : Process) :
  let ran :=
    fst (subagent cfg getEnv preflight initial_code script (opt_context opts) 0 None None
           (resetUsage (world p))) in
  let finished := runSubagentCommand cfg getEnv preflight initial_code JSON_stringify
                    logFile faults uuid script opts p in
  let fatal : option string :=
    match ran with
    | Threw err => Some (emessage err)
    | Returned out =>
        if opt_jsonMode opts then None
        else
          match JSON_stringify (Obj (<["results" := to_js out]> ∅)) with
          | Threw err => Some (emessage err)
          | Returned _ => None
          end
    end in
  let code : Z :=
    match fatal with
    | Some (String _ _) => 6
    | _ => 0
    end in
  let results :=
    match ran with
    | Returned out => Js.coalesce (to_js out) Null
    | Threw _ => Null
    end in
  let log_file := match logFile with Some path => Str path | None => Null end in
  let payload :=
    match fatal with
    | Some (String c text) =>
        Obj (<["results" := results]> (<["log_file" := log_file]>
            (<["error" := Str (String c text)]> ∅)))
    | _ => Obj (<["results" := results]> (<["log_file" := log_file]> ∅))
    end in
  let envelope :=
    Obj (<["ok" := Bool (bool_decide (fatal = None))]>
        (<["results" := results]> (<["log_file" := log_file]>
        (<["error" := match fatal with Some text => Str text | None => Null end]>
        (<["warnings" := Arr []]> ∅))))) in
  let reported : Outcome Z :=
    if opt_jsonMode opts then
      match JSON_stringify envelope with
      | Threw err => Threw err
      | Returned _ => Returned code
      end
    else Returned code in
  match match opt_prefix opts with
        | Some (String c rest) => validatePrefix (String c rest)
        | _ => Returned tt
        end
  with
  | Threw err => finished = (Threw err, p) /\ ekind err = Some usage_error
  | Returned _ =>
      match opt_outputFile opts with
      | Some (String c rest) =>
          match writeOutputAtomically JSON_stringify faults uuid (String c rest) payload
                  (files p) with
          | (Threw err, fs) =>
              fst finished = Threw err /\ ekind err = Some output_error /\
              files (snd finished) = fs
          | (Returned _, fs) => fst finished = reported /\ files (snd finished) = fs
          end
      | _ => fst finished = reported /\ files (snd finished) = files p
      end
  end.
Proof.
  intros ran finished fatal code results log_file payload envelope reported.
  subst ran finished fatal code results log_file payload envelope reported.
  unfold runSubagentCommand. cbv zeta.
  destruct (opt_prefix opts) as [[|c0 prefix]|]; cbn [Js.truthy].
  2: destruct (validatePrefix (String c0 prefix)) as [[]|err] eqn:Hvalid.
  3: { split; [done|]. by apply (validatePrefix_throws_usage (String c0 prefix)). }
  all: cbv iota beta; simpl world.
  all: destruct (subagent _ _ _ _ _ _ _ _ _ _) as [ran w]; simpl fst.
  all: destruct ran as [out|err]; cbv iota beta.
  all: destruct (opt_jsonMode opts) eqn:Hjson; cbn [negb]; cbv iota beta.
  all: try destruct (JSON_stringify (Obj (<["results" := to_js out]> ∅)))
         as [text|serr] eqn:Hser; cbv iota beta.
  all: try destruct (emessage serr) as [|c1 message1] eqn:Hmessage1.
  all: try destruct (emessage err) as [|c2 message2] eqn:Hmessage2.
  all: cbn [Js.truthy Js.coalesce]; cbv iota beta.
  all: destruct (opt_outputFile opts) as [[|c3 path]|]; cbn [Js.truthy]; cbv iota beta.
  all: cbn [files set_world print].
  all: repeat match goal with
         | |- context [writeOutputAtomically ?a ?b ?c ?d ?e ?f] =>
             let H := fresh "Hwrite" in
             destruct (writeOutputAtomically a b c d e f) as [[[]|?] ?] eqn:H
         end; cbv iota beta.
  all: repeat match goal with
         | |- context [match ?x with _ => _ end] =>
             lazymatch type of x with
             | Outcome string => let H := fresh "Henv" in destruct x eqn:H
             end
         end; cbv iota beta.
  all: cbn [fst snd files set_files set_world print].
  all: try done.
  all: try (split; [done|]; split; [|done];
            eapply writeOutputAtomically_throws_output; eassumption).
Qed.

(** X20. The run command starts from a reset accumulator: what it returns
    does not depend on the usage counted before it was called, and, unless it
    rejects the prefix, neither does the process state it leaves. *)
Theorem runSubagentCommand_resets_usage
    (cfg : RlmConfig) (getEnv : EnvGetter) (preflight : Outcome (list string))
    (initial_code : string) (JSON_stringify : value -> Outcome string)
    (logFile : option string) (faults : Faults) (uuid : string)
    (script : Script) (opts : RunSubagentCommandOptions) (p : Process) (before : Usage) :
  let command :=
    runSubagentCommand cfg getEnv preflight initial_code JSON_stringify logFile faults
      uuid script opts in
  let p' := set_world (set_totalUsage before (world p)) p in
  fst (command p') = fst (command p) /\
  ((exists err, fst (command p) = Threw err /\ ekind err = Some usage_error) \/
   snd (command p') = snd (command p)).
Proof.
  intros command p'. subst command p'. unfold runSubagentCommand. cbv zeta.
  destruct (match opt_prefix opts with Some _ => _ | None => _ end) as [[]|err] eqn:Hprefix.
  - split; [done|]. by right.
  - split; [done|]. left. exists err. split; [done|].
    destruct (opt_prefix opts) as [prefix|]; [|done].
    destruct (Js.truthy prefix); [|done].
    by apply (validatePrefix_throws_usage prefix).
Qed.

(** ** The run tree of the log viewer *)

Section run_tree.

Import ViewLogs.

Lemma nodes_get_None key nodes : nodes_get key nodes = None <-> key ∉ fst <$> nodes.
Proof.
  induction nodes as [|[k node] nodes IH]; csimpl.
  - split; [intros _; apply not_elem_of_nil|done].
  - rewrite not_elem_of_cons. destruct (String.eqb_spec key k) as [->|Hne].
    + split; [done|]. by intros [? _].
    + rewrite IH. split; [by intros ?; split|by intros [_ ?]].
Qed.

Lemma nodes_get_elem key node nodes :
  nodes_get key nodes = Some node -> (key, node) ∈ nodes.
Proof.
  induction nodes as [|[k n] nodes IH]; simpl; [done|].
  destruct (String.eqb_spec key k) as [->|Hne].
  - intros [= ->]. apply elem_of_cons; by left.
  - intros H. apply elem_of_cons; right; by apply IH.
Qed.

Lemma elem_nodes_get key node nodes :
  NoDup (fst <$> nodes) -> (key, node) ∈ nodes -> nodes_get key nodes = Some node.
Proof.
  induction nodes as [|[k n] nodes IH]; simpl.
  - intros _ H. by apply elem_of_nil in H.
  - intros Hnodup H. apply NoDup_cons in Hnodup as [Hk Hnodup].
    apply elem_of_cons in H as [[= -> ->]|H].
    + by rewrite String.eqb_refl.
    + destruct (String.eqb_spec key k) as [->|Hne]; [|by apply IH].
      exfalso. apply Hk. apply list_elem_of_fmap. by exists (k, node).
Qed.

Lemma nodes_get_app key nodes nodes' :
  nodes_get key (nodes ++ nodes')
  = match nodes_get key nodes with
    | Some node => Some node
    | None => nodes_get key nodes'
    end.
Proof.
  induction nodes as [|[k n] nodes IH]; simpl; [done|].
  by destruct (String.eqb key k).
Qed.

Lemma nodes_update_keys key f nodes : fst <$> (nodes_update key f nodes) = fst <$> nodes.
Proof.
  induction nodes as [|[k n] nodes IH]; csimpl; [done|].
  destruct (String.eqb key k); csimpl; by rewrite ?IH.
Qed.

Lemma nodes_get_update key key' f nodes :
  nodes_get key' (nodes_update key f nodes)
  = if String.eqb key' key then f <$> nodes_get key nodes else nodes_get key' nodes.
Proof.
  induction nodes as [|[k n] nodes IH]; simpl.
  - by destruct (String.eqb key' key).
  - destruct (String.eqb_spec key k) as [->|Hne]; simpl.
    + by destruct (String.eqb_spec key' k).
    + destruct (String.eqb_spec key' k) as [->|Hne'].
      * destruct (String.eqb_spec k key) as [->|_]; done.
      * exact IH.
Qed.

(** *** The first loop *)

Lemma add_entry_keys nodes entry :
  fst <$> (add_entry nodes entry)
  = match nodes_get (run_id entry) nodes with
    | Some _ => fst <$> nodes
    | None => (fst <$> nodes) ++ [run_id entry]
    end.
Proof.
  unfold add_entry. cbv zeta. rewrite nodes_update_keys.
  destruct (nodes_get (run_id entry) nodes); [done|].
  by rewrite fmap_app.
Qed.

Lemma first_loop_get entries key :
  nodes_get key (fold_left add_entry entries []) = grouped entries key.
Proof.
  induction entries as [|entry entries IH] using rev_ind; [done|].
  rewrite fold_left_app. simpl. set (nodes := fold_left add_entry entries []) in *.
  unfold grouped in *. rewrite filter_app, filter_cons, filter_nil.
  unfold add_entry. cbv zeta. rewrite nodes_get_update.
  pose proof (IH) as IHkey.
  destruct (String.eqb_spec key (run_id entry)) as [->|Hne].
  - rewrite decide_True by done.
    destruct (nodes_get (run_id entry) nodes) as [node|] eqn:Hget.
    + rewrite Hget.
      destruct (filter _ entries) as [|first rest]; [done|].
      injection IHkey as ->. done.
    + rewrite nodes_get_app, Hget. simpl. rewrite String.eqb_refl. simpl.
      by destruct (filter _ entries).
  - rewrite decide_False by done. rewrite app_nil_r.
    destruct (nodes_get (run_id entry) nodes); [done|].
    rewrite nodes_get_app. destruct (nodes_get key nodes) eqn:Hget; [done|].
    simpl. destruct (String.eqb_spec key (run_id entry)); [done|]. exact IHkey.
Qed.

Lemma first_loop_NoDup entries : NoDup (fst <$> (fold_left add_entry entries [])).
Proof.
  induction entries as [|entry entries IH] using rev_ind; [constructor|].
  rewrite fold_left_app. simpl. rewrite add_entry_keys.
  destruct (nodes_get _ _) eqn:Hget; [done|].
  apply NoDup_app. split; [done|]. split; [|apply NoDup_singleton].
  intros k Hk ->%list_elem_of_singleton. by apply nodes_get_None in Hget.
Qed.

(** *** The second loop *)

Lemma link_child_keys nodes key : fst <$> (link_child nodes key) = fst <$> nodes.
Proof.
  unfold link_child. destruct (nodes_get key nodes) as [node|]; [|done].
  destruct (truthy _); [|done]. destruct (node_parent_run_id node); try done.
  destruct (nodes_get _ nodes); [|done]. apply nodes_update_keys.
Qed.

Lemma link_child_get_child nodes key parent :
  child_of nodes parent key ->
  nodes_get parent (link_child nodes key) = push_child key <$> nodes_get parent nodes.
Proof.
  unfold link_child, child_of, parent_key.
  destruct (nodes_get key nodes) as [node|]; simpl; [|done].
  destruct (node_parent_run_id node) as [| |b|n|s|items|fields]; simpl; try done.
  destruct (Js.truthy s) eqn:Hs; [|done]. intros [= ->].
  destruct (nodes_get parent nodes) as [pnode|] eqn:Hp; [|done].
  by rewrite nodes_get_update, String.eqb_refl, Hp.
Qed.

Lemma link_child_get_other nodes key parent :
  ~ child_of nodes parent key ->
  nodes_get parent (link_child nodes key) = nodes_get parent nodes.
Proof.
  unfold link_child, child_of, parent_key.
  destruct (nodes_get key nodes) as [node|]; simpl; [|done].
  destruct (node_parent_run_id node) as [| |b|n|s|items|fields]; simpl; try done.
  - by destruct b.
  - by destruct n as [| | |[]].
  - destruct (Js.truthy s) eqn:Hs; [|done]. intros Hne.
    destruct (nodes_get s nodes); [|done].
    rewrite nodes_get_update.
    destruct (String.eqb_spec parent s) as [->|]; done.
Qed.

Lemma link_child_get nodes key parent :
  nodes_get parent (link_child nodes key)
  = if decide (child_of nodes parent key)
    then push_child key <$> nodes_get parent nodes
    else nodes_get parent nodes.
Proof.
  destruct (decide (child_of nodes parent key)).
  - by apply link_child_get_child.
  - by apply link_child_get_other.
Qed.

Lemma second_loop nodes keys :
  fst <$> (fold_left link_child keys nodes) = fst <$> nodes /\
  forall parent,
    nodes_get parent (fold_left link_child keys nodes)
    = with_children (filter (child_of nodes parent) keys) <$> nodes_get parent nodes.
Proof.
  induction keys as [|key keys [IHkeys IHget]] using rev_ind.
  - split; [done|]. intros parent. simpl. destruct (nodes_get parent nodes) as [[]|]; [|done].
    simpl. unfold with_children. simpl. by rewrite app_nil_r.
  - rewrite fold_left_app. simpl. split; [by rewrite link_child_keys|].
    intros parent. rewrite link_child_get, filter_app, filter_cons, filter_nil.
    assert (child_of (fold_left link_child keys nodes) parent key
            <-> child_of nodes parent key) as Hsame.
    { unfold child_of. rewrite IHget. by destruct (nodes_get key nodes). }
    destruct (decide (child_of (fold_left link_child keys nodes) parent key)) as [H|H].
    + rewrite decide_True by by apply Hsame. rewrite IHget.
      destruct (nodes_get parent nodes); [|done]. simpl. f_equal.
      unfold push_child, with_children. simpl. by rewrite app_assoc.
    + rewrite decide_False by by rewrite <-Hsame. rewrite IHget, app_nil_r. done.
Qed.

Lemma buildRunTree_keys entries :
  fst <$> (buildRunTree entries) = fst <$> (fold_left add_entry entries []).
Proof. unfold buildRunTree. cbv zeta. apply second_loop. Qed.

Lemma buildRunTree_get entries key :
  nodes_get key (buildRunTree entries)
  = with_children
      (filter (child_of (fold_left add_entry entries []) key) (fst <$> (buildRunTree entries)))
    <$> grouped entries key.
Proof.
  rewrite buildRunTree_keys. unfold buildRunTree. cbv zeta.
  destruct (second_loop (fold_left add_entry entries [])
              (fst <$> (fold_left add_entry entries []))) as [_ ->].
  by rewrite first_loop_get.
Qed.

Lemma buildRunTree_parent_key entries key :
  nodes_get key (buildRunTree entries) ≫= parent_key
  = nodes_get key (fold_left add_entry entries []) ≫= parent_key.
Proof.
  rewrite buildRunTree_get, first_loop_get. by destruct (grouped entries key).
Qed.


(** X21. The first loop of [buildRunTree] groups the entries by run id: the
    keys of the map are the run ids of the entries, each once; the node under
    a run id carries that run id and exactly the entries with it, in the order
    of the log, and takes its parent and depth from the first of them. *)
Theorem buildRunTree_groups (entries : list LogEntry) :
  let nodes := buildRunTree entries in
  NoDup (fst <$> nodes) /\
  (forall key, key ∈ fst <$> nodes <-> exists entry, entry ∈ entries /\ run_id entry = key) /\
  forall key node,
    (key, node) ∈ nodes ->
    node_run_id node = key /\
    events node = filter (fun entry => run_id entry = key) entries /\
    exists first rest,
      events node = first :: rest /\
      node_parent_run_id node = parent_run_id first /\
      node_depth node = depth first.
Proof.
  intros nodes. subst nodes.
  assert (NoDup (fst <$> buildRunTree entries)) as Hnodup.
  { rewrite buildRunTree_keys. apply first_loop_NoDup. }
  split; [done|]. split.
  - intros key. rewrite buildRunTree_keys.
    destruct (nodes_get key (fold_left add_entry entries [])) as [node|] eqn:Hget.
    + split.
      * intros _. rewrite first_loop_get in Hget. unfold grouped in Hget.
        destruct (filter _ entries) as [|first rest] eqn:Hfilter; [done|].
        assert (first ∈ filter (fun entry => run_id entry = key) entries) as Hin.
        { rewrite Hfilter. apply elem_of_cons. by left. }
        apply list_elem_of_filter in Hin as [? ?]. by exists first.
      * intros _. apply dec_stable. intros Hno. apply nodes_get_None in Hno. congruence.
    + split.
      * intros Hin. by apply nodes_get_None in Hget.
      * intros (entry & Hin & Hkey). exfalso.
        rewrite first_loop_get in Hget. unfold grouped in Hget.
        destruct (filter _ entries) as [|first rest] eqn:Hfilter; [|done].
        assert (entry ∈ filter (fun entry => run_id entry = key) entries) as Hin'.
        { by apply list_elem_of_filter. }
        rewrite Hfilter in Hin'. by apply elem_of_nil in Hin'.
  - intros key node Hin. apply (elem_nodes_get _ _ _ Hnodup) in Hin.
    rewrite buildRunTree_get in Hin. unfold grouped in Hin.
    destruct (filter _ entries) as [|first rest] eqn:Hfilter; [done|].
    injection Hin as <-. simpl. repeat split; eauto.
Qed.

(** X22. The second loop links every node to the node named by its parent:
    the children of a node are the keys of the nodes whose parent is its run
    id, as a string that is not empty, in the order of the map; so a node is
    a child of at most one node, and of none when it is a root. *)
Theorem buildRunTree_children (entries : list LogEntry) :
  let nodes := buildRunTree entries in
  forall key node,
    (key, node) ∈ nodes ->
    children node
    = filter (fun child => (nodes_get child nodes ≫= parent_key) = Some key) (fst <$> nodes) /\
    NoDup (children node) /\
    forall child cnode,
      (child, cnode) ∈ nodes ->
      (child ∈ children node <-> parent_key cnode = Some key) /\
      (child ∈ children node -> (child, cnode) ∉ roots nodes).
Proof.
  intros nodes key node Hin. subst nodes.
  assert (NoDup (fst <$> buildRunTree entries)) as Hnodup.
  { rewrite buildRunTree_keys. apply first_loop_NoDup. }
  apply (elem_nodes_get _ _ _ Hnodup) in Hin.
  assert (children node
          = filter (fun child => (nodes_get child (buildRunTree entries) ≫= parent_key)
                                 = Some key) (fst <$> buildRunTree entries)) as Hchildren.
  { rewrite buildRunTree_get in Hin. unfold grouped in Hin.
    destruct (filter _ entries) as [|first rest]; [done|].
    injection Hin as <-. simpl. apply list_filter_iff. intros child.
    unfold child_of. by rewrite buildRunTree_parent_key. }
  split; [done|]. split.
  { rewrite Hchildren. by apply NoDup_filter. }
  intros child cnode Hcin.
  assert (child ∈ children node <-> parent_key cnode = Some key) as Hiff.
  { rewrite Hchildren, list_elem_of_filter.
    rewrite (elem_nodes_get _ _ _ Hnodup Hcin). simpl. split; [by intros [? _]|].
    intros Hp. split; [done|]. apply list_elem_of_fmap. by exists (child, cnode). }
  split; [done|]. intros Hp%Hiff. unfold roots. rewrite list_elem_of_filter. simpl.
  intros [Hroot _]. unfold parent_key in Hp.
  destruct (node_parent_run_id cnode) as [| |b|n|s|items|fields]; try done.
  simpl in Hroot. by destruct (Js.truthy s).
Qed.

(** X23. A node whose parent is set but is the run id of no entry is lost to
    the tree view: it is not among the roots and not among the children of
    any node. *)
Theorem buildRunTree_orphan (entries : list LogEntry) (key : string) (node : RunNode) :
  let nodes := buildRunTree entries in
  (key, node) ∈ nodes ->
  truthy (node_parent_run_id node) = true ->
  (forall parent, node_parent_run_id node = Str parent -> parent ∉ fst <$> nodes) ->
  ((key, node) ∉ roots nodes) /\
  (forall k m, (k, m) ∈ nodes -> key ∉ children m).
Proof.
  intros nodes Hin Htruthy Hmissing. subst nodes. split.
  - unfold roots. rewrite list_elem_of_filter. simpl. rewrite Htruthy. by intros [? _].
  - intros k m Hk Hchild.
    assert (k ∈ fst <$> buildRunTree entries) as Hkey.
    { apply list_elem_of_fmap. by exists (k, m). }
    assert (NoDup (fst <$> buildRunTree entries)) as Hnodup.
    { rewrite buildRunTree_keys. apply first_loop_NoDup. }
    pose proof (elem_nodes_get _ _ _ Hnodup Hk) as Hget.
    rewrite buildRunTree_get in Hget. unfold grouped in Hget.
    destruct (filter _ entries) as [|first rest]; [done|].
    injection Hget as <-. simpl in Hchild.
    apply list_elem_of_filter in Hchild as [Hchild _].
    unfold child_of in Hchild. rewrite <-buildRunTree_parent_key in Hchild.
    rewrite (elem_nodes_get _ _ _ Hnodup Hin) in Hchild. simpl in Hchild.
    unfold parent_key in Hchild.
    destruct (node_parent_run_id node) as [| |b|n|s|items|fields] eqn:Hparent; try done.
    destruct (Js.truthy s); [|done]. injection Hchild as ->.
    by apply (Hmissing k eq_refl).
Qed.

End run_tree.

(** ** Reading a log file *)

Section log_file.

Import ViewLogs.

Variable JSON_parse : string -> option value.

Lemma assertLogEntry_line entry n n' parsed :
  assertLogEntry parsed n = Returned entry -> assertLogEntry parsed n' = Returned entry.
Proof.
  unfold assertLogEntry.
  destruct parsed; try done;
    repeat match goal with
           | |- context [match ?x with _ => _ end] => destruct x; try done
           end.
Qed.

Lemma parseLines_outcome (i : Z) (lines : list string) :
  match parseLines JSON_parse i lines with
  | Returned entries =>
      Forall2 (fun line entry =>
                 exists parsed, JSON_parse line = Some parsed /\
                                forall n, assertLogEntry parsed n = Returned entry)
        (filter (fun line => Js.truthy line) (Js.trim <$> lines)) entries
  | Threw err =>
      exists (k : nat) raw,
        lines !! k = Some raw /\
        (forall (j : nat) raw', (j < k)%nat -> lines !! j = Some raw' ->
                                (Js.truthy (Js.trim raw') = false \/
                                 exists parsed entry,
                                   JSON_parse (Js.trim raw') = Some parsed /\
                                   assertLogEntry parsed (i + Z.of_nat j + 1) = Returned entry)) /\
        Js.truthy (Js.trim raw) = true /\
        match JSON_parse (Js.trim raw) with
        | None =>
            err = new_Error ("Malformed JSONL at line " +:+ pretty (i + Z.of_nat k + 1))
        | Some parsed => assertLogEntry parsed (i + Z.of_nat k + 1) = Threw err
        end
  end.
Proof.
  revert i. induction lines as [|raw lines IH]; intros i.
  - simpl. constructor.
  - rewrite fmap_cons, filter_cons. cbn [parseLines]. cbv zeta.
    assert (forall err,
              (exists (k : nat) raw0,
                 lines !! k = Some raw0 /\
                 (forall (j : nat) raw', (j < k)%nat -> lines !! j = Some raw' ->
                                         (Js.truthy (Js.trim raw') = false \/
                                 exists parsed entry,
                                   JSON_parse (Js.trim raw') = Some parsed /\
                                   assertLogEntry parsed (i + 1 + Z.of_nat j + 1) = Returned entry)) /\
                 Js.truthy (Js.trim raw0) = true /\
                 match JSON_parse (Js.trim raw0) with
                 | None =>
                     err = new_Error ("Malformed JSONL at line "
                                      +:+ pretty (i + 1 + Z.of_nat k + 1))
                 | Some parsed => assertLogEntry parsed (i + 1 + Z.of_nat k + 1) = Threw err
                 end) ->
              (Js.truthy (Js.trim raw) = false \/
               exists parsed entry,
                 JSON_parse (Js.trim raw) = Some parsed /\
                 assertLogEntry parsed (i + 1) = Returned entry) ->
              exists (k : nat) raw0,
                (raw :: lines) !! k = Some raw0 /\
                (forall (j : nat) raw', (j < k)%nat -> (raw :: lines) !! j = Some raw' ->
                                        (Js.truthy (Js.trim raw') = false \/
                                 exists parsed entry,
                                   JSON_parse (Js.trim raw') = Some parsed /\
                                   assertLogEntry parsed (i + Z.of_nat j + 1) = Returned entry)) /\
                Js.truthy (Js.trim raw0) = true /\
                match JSON_parse (Js.trim raw0) with
                | None =>
                    err = new_Error ("Malformed JSONL at line "
                                     +:+ pretty (i + Z.of_nat k + 1))
                | Some parsed => assertLogEntry parsed (i + Z.of_nat k + 1) = Threw err
                end) as Hlater.
    { intros err (k & raw0 & Hk & Hbefore & Htruthy & Hbad) Hraw.
      exists (S k), raw0. split; [done|]. split; [|split; [done|]].
      - intros [|j] raw' Hj Hlook.
        + injection Hlook as <-. by replace (i + Z.of_nat 0 + 1) with (i + 1) by lia.
        + replace (i + Z.of_nat (S j) + 1) with (i + 1 + Z.of_nat j + 1) by lia.
          apply Hbefore; [lia|done].
      - by replace (i + Z.of_nat (S k) + 1) with (i + 1 + Z.of_nat k + 1) by lia. }
    destruct (Js.truthy (Js.trim raw)) eqn:Htruthy; simpl.
    + try rewrite decide_True by (by rewrite Htruthy).
      destruct (JSON_parse (Js.trim raw)) as [parsed|] eqn:Hparse.
      * destruct (assertLogEntry parsed (i + 1)) as [entry|err] eqn:Hassert.
        -- specialize (IH (i + 1)).
           destruct (parseLines JSON_parse (i + 1) lines) as [entries|err].
           ++ constructor; [|done]. exists parsed. split; [done|].
              intros n. by apply (assertLogEntry_line _ (i + 1)).
           ++ apply Hlater; [done|]. right. by exists parsed, entry.
        -- exists 0%nat, raw. split; [done|]. split; [intros; lia|]. split; [done|].
           rewrite Hparse. by replace (i + Z.of_nat 0 + 1) with (i + 1) by lia.
      * exists 0%nat, raw. split; [done|]. split; [intros; lia|]. split; [done|].
        rewrite Hparse. by replace (i + Z.of_nat 0 + 1) with (i + 1) by lia.
    + try rewrite decide_False by (by rewrite Htruthy).
      specialize (IH (i + 1)).
      destruct (parseLines JSON_parse (i + 1) lines) as [entries|err]; [done|].
      apply Hlater; [done|]. by left.
Qed.

(** X24. What [parseLogFile] returns or throws.  It returns one entry for
    each line that is not blank, in order, each the parsed line as
    [assertLogEntry] accepts it.  It throws what reading the file threw, or
    the error of the first line that is not blank and is not accepted, named
    by its number in the file, counted from 1 with the blank lines. *)
Theorem parseLogFile_outcome (read_fault : option Exception) (filePath : string)
    (fs : gmap string string) :
  match parseLogFile JSON_parse read_fault filePath fs with
  | Returned entries =>
      exists content,
        readTextFile read_fault filePath fs = Returned content /\
        Forall2 (fun line entry =>
                   exists parsed, JSON_parse line = Some parsed /\
                                  forall n, assertLogEntry parsed n = Returned entry)
          (filter (fun line => Js.truthy line) (Js.trim <$> split_lines content)) entries
  | Threw err =>
      readTextFile read_fault filePath fs = Threw err \/
      exists content (k : nat) raw,
        readTextFile read_fault filePath fs = Returned content /\
        split_lines content !! k = Some raw /\
        Js.truthy (Js.trim raw) = true /\
        (forall (j : nat) raw', (j < k)%nat -> split_lines content !! j = Some raw' ->
           Js.truthy (Js.trim raw') = false \/
           exists parsed entry,
             JSON_parse (Js.trim raw') = Some parsed /\
             assertLogEntry parsed (Z.of_nat j + 1) = Returned entry) /\
        match JSON_parse (Js.trim raw) with
        | None => err = new_Error ("Malformed JSONL at line " +:+ pretty (Z.of_nat k + 1))
        | Some parsed => assertLogEntry parsed (Z.of_nat k + 1) = Threw err
        end
  end.
Proof.
  unfold parseLogFile.
  destruct (readTextFile read_fault filePath fs) as [content|err]; [|by left].
  pose proof (parseLines_outcome 0 (split_lines content)) as H.
  destruct (parseLines JSON_parse 0 (split_lines content)) as [entries|err].
  - by exists content.
  - right. destruct H as (k & raw & Hk & Hbefore & Htruthy & Hbad).
    by exists content, k, raw.
Qed.

End log_file.

(** ** The log viewer's command *)

Lemma existsb_eqb_elem (s : string) (l : list string) :
  existsb (String.eqb s) l = true <-> s ∈ l.
Proof.
  induction l as [|x l IH]; simpl.
  - split; [done|]. by intros ?%elem_of_nil.
  - rewrite orb_true_iff, elem_of_cons, IH.
    destruct (String.eqb_spec s x) as [->|Hne].
    + split; intros _; by left.
    + split; (intros [?|?]; [done|by right]).
Qed.

(** X25. How the log viewer's command ends, in the order of its checks.  An
    empty path is a usage error.  Then a mode other than the three it knows
    is a usage error that names it, whatever the file holds: the file is not
    read for it.  Then a file that does not exist is a usage error that names
    the path, and any other failure to read or parse the file a runtime error
    with the message of the failure.  These errors leave the process as it
    was.  Otherwise the printers of the mode run on the entries and their
    tree: what a printer throws is thrown as it is, and else the command
    returns 0. *)
Theorem runLogsViewCommand_outcome
    (JSON_parse : string -> option value) (read_fault : option Exception)
    (render : string -> list ViewLogs.LogEntry -> ViewLogs.Nodes -> Process ->
              Outcome unit * Process)
    (filePath : string) (mode : option string) (p : Process) :
  let chosen := default "--tree" mode in
  let parsed := ViewLogs.parseLogFile JSON_parse read_fault filePath (files p) in
  let finished := ViewLogs.runLogsViewCommand JSON_parse read_fault render filePath mode p in
  let thrown (kind : CliErrorKind) (message : string) : Prop :=
    exists err,
      finished = (Threw err, p) /\ ename err = "CliError" /\ ekind err = Some kind /\
      emessage err = message in
  match filePath with
  | EmptyString =>
      thrown usage_error "Usage: rlm logs view <log-file.jsonl> [--tree|--stats|--linear]"
  | String _ _ =>
      if bool_decide (chosen ∈ ["--tree"; "--stats"; "--linear"]) then
        match parsed with
        | Threw failure =>
            if String.eqb (ename failure) "NotFound"
            then thrown usage_error ("Log file not found: " +:+ filePath)
            else thrown runtime_error (emessage failure)
        | Returned entries =>
            match render chosen entries (ViewLogs.buildRunTree entries) p with
            | (Returned _, p') => finished = (Returned 0, p')
            | (Threw err, p') => finished = (Threw err, p')
            end
        end
      else
        thrown usage_error
          ("Unknown logs view mode '" +:+ chosen
           +:+ "'. Expected --tree, --stats, or --linear.")
  end.
Proof.
  intros chosen parsed finished thrown. subst finished thrown.
  unfold ViewLogs.runLogsViewCommand. cbv zeta. fold chosen. fold parsed.
  destruct filePath as [|c path] eqn:Hpath; cbn [Js.truthy negb]; cbv iota beta.
  { by eexists. }
  rewrite <-Hpath in *.
  assert (existsb (String.eqb chosen) ViewLogs.MODES
          = bool_decide (chosen ∈ ["--tree"; "--stats"; "--linear"])) as ->.
  { destruct (existsb _ _) eqn:E; symmetry.
    - apply bool_decide_eq_true. by apply existsb_eqb_elem.
    - apply bool_decide_eq_false. intros Hin%existsb_eqb_elem.
      unfold ViewLogs.MODES in E. congruence. }
  destruct (bool_decide (chosen ∈ ["--tree"; "--stats"; "--linear"])); cbn [negb];
    cbv iota; [|by eexists].
  destruct parsed as [entries|failure].
  - by destruct (render chosen entries (ViewLogs.buildRunTree entries) p) as [[[]|err] p'].
  - unfold ViewLogs.is_NotFound. destruct (String.eqb (ename failure) "NotFound");
      by eexists.
Qed.

(** ** The command line *)

Lemma global_switch_known arg global global' :
  global_switch arg global = Some global' ->
  arg ∈ GLOBAL_FLAGS /\
  global' = {| help := help global || is_help arg;
               version := version global || String.eqb "--version" arg;
               json := json global || String.eqb "--json" arg;
               noColor := noColor global || String.eqb "--no-color" arg;
               quiet := quiet global || (String.eqb arg "-q" || String.eqb arg "--quiet");
               verbose := verbose global
                          || (String.eqb arg "-v" || String.eqb arg "--verbose") |}.
Proof.
  unfold global_switch, GLOBAL_FLAGS, is_help.
  repeat match goal with
         | |- context [String.eqb ?a ?s] =>
             is_var a; destruct (String.eqb_spec a s) as [->|?]
         end; cbn [orb]; intros [= <-]; try done.
  all: split; [rewrite !elem_of_cons; tauto|].
  all: destruct global; cbn; f_equal;
    rewrite ?orb_true_r, ?orb_false_r; try done.
  all: repeat match goal with
         | |- context [String.eqb ?a ?b] =>
             is_var b; destruct (String.eqb_spec a b) as [<-|?]
         end; try done.
Qed.

Lemma global_switch_unknown arg global :
  global_switch arg global = None -> arg ∉ GLOBAL_FLAGS.
Proof.
  unfold global_switch, GLOBAL_FLAGS.
  repeat match goal with
         | |- context [String.eqb ?a ?s] =>
             is_var a; destruct (String.eqb_spec a s) as [->|?]
         end; cbn [orb]; try done.
  intros _. rewrite !elem_of_cons, elem_of_nil. tauto.
Qed.

Lemma parseGlobalArgs_from_cases (global : GlobalFlags) (argv : list string) :
  exists flags rest,
    argv = flags ++ rest /\
    Forall (fun flag => flag ∈ GLOBAL_FLAGS) flags /\
    let given :=
      {| help := help global || help (flags_given flags);
         version := version global || version (flags_given flags);
         json := json global || json (flags_given flags);
         noColor := noColor global || noColor (flags_given flags);
         quiet := quiet global || quiet (flags_given flags);
         verbose := verbose global || verbose (flags_given flags) |} in
    match rest with
    | [] =>
        parseGlobalArgs_from global argv
        = Returned {| global := given; command := None; args := [] |}
    | arg :: rest' =>
        if negb (JsString.startsWith "-" arg) then
          parseGlobalArgs_from global argv
          = Returned {| global := given; command := Some arg; args := rest' |}
        else if String.eqb arg "--" then
          parseGlobalArgs_from global argv
          = Returned {| global := given; command := head rest'; args := tail rest' |}
        else
          (arg ∉ GLOBAL_FLAGS) /\
          parseGlobalArgs_from global argv
          = Threw (new_CliError usage_error ("Unknown global flag: " +:+ arg))
    end.
Proof.
  assert (forall g : GlobalFlags,
            {| help := help g || false; version := version g || false;
               json := json g || false; noColor := noColor g || false;
               quiet := quiet g || false; verbose := verbose g || false |} = g) as Hnone.
  { intros []. cbn. by rewrite !orb_false_r. }
  revert global. induction argv as [|arg argv IH]; intros global.
  - exists [], []. split; [done|]. split; [constructor|]. cbn. by rewrite Hnone.
  - destruct (JsString.startsWith "-" arg) eqn:Hdash.
    2: { exists [], (arg :: argv). split; [done|]. split; [constructor|].
         cbn -[JsString.startsWith String.eqb global_switch]. rewrite Hdash. cbn. by rewrite Hnone. }
    destruct (String.eqb arg "--") eqn:Hsep.
    { exists [], (arg :: argv). split; [done|]. split; [constructor|].
      cbn -[JsString.startsWith String.eqb global_switch]. rewrite Hdash, Hsep. cbn. by rewrite Hnone. }
    destruct (global_switch arg global) as [global'|] eqn:Hswitch.
    2: { exists [], (arg :: argv). split; [done|]. split; [constructor|].
         cbn -[JsString.startsWith String.eqb global_switch]. rewrite Hdash, Hsep, Hswitch. cbn.
         split; [by apply (global_switch_unknown _ global)|done]. }
    apply global_switch_known in Hswitch as [Hknown ->].
    destruct (IH {| help := help global || is_help arg;
                    version := version global || String.eqb "--version" arg;
                    json := json global || String.eqb "--json" arg;
                    noColor := noColor global || String.eqb "--no-color" arg;
                    quiet := quiet global
                             || (String.eqb arg "-q" || String.eqb arg "--quiet");
                    verbose := verbose global
                               || (String.eqb arg "-v" || String.eqb arg "--verbose") |})
      as (flags & rest & -> & Hflags & Hrest).
    exists (arg :: flags), rest. split; [done|]. split; [by constructor|].
    cbn zeta in *. cbn [help version json noColor quiet verbose flags_given existsb] in *.
    assert (parseGlobalArgs_from global (arg :: flags ++ rest)
            = parseGlobalArgs_from
                {| help := help global || is_help arg;
                   version := version global || String.eqb "--version" arg;
                   json := json global || String.eqb "--json" arg;
                   noColor := noColor global || String.eqb "--no-color" arg;
                   quiet := quiet global
                            || (String.eqb arg "-q" || String.eqb arg "--quiet");
                   verbose := verbose global
                              || (String.eqb arg "-v" || String.eqb arg "--verbose") |}
                (flags ++ rest)) as ->.
    { cbn -[JsString.startsWith String.eqb global_switch]. rewrite Hdash, Hsep.
      cbn -[JsString.startsWith String.eqb global_switch].
      destruct (global_switch arg global) as [global'|] eqn:Hswitch.
      - by apply global_switch_known in Hswitch as [_ ->].
      - apply global_switch_unknown in Hswitch. done. }
    destruct rest as [|arg0 rest'].
    { rewrite Hrest. by rewrite !orb_assoc. }
    destruct (negb (JsString.startsWith "-" arg0)).
    { rewrite Hrest. by rewrite !orb_assoc. }
    destruct (String.eqb arg0 "--").
    { rewrite Hrest. by rewrite !orb_assoc. }
    exact Hrest.
Qed.

(** X26. What [parseGlobalArgs] returns or throws.  The arguments split into
    the leading flags that the parser knows and the rest.  The flags may come
    in any order and any number of times.  When the rest is empty there is no
    command; when it starts with a word without a dash, the word is the
    command and what follows it is passed on as it is, dashes included; when
    it starts with [--], the command is the word after it; any other first
    word is an unknown flag, a usage error that names it. *)
Theorem parseGlobalArgs_cases (argv : list string) :
  exists flags rest,
    argv = flags ++ rest /\
    Forall (fun flag => flag ∈ GLOBAL_FLAGS) flags /\
    match rest with
    | [] =>
        parseGlobalArgs argv
        = Returned {| global := flags_given flags; command := None; args := [] |}
    | arg :: rest' =>
        if negb (JsString.startsWith "-" arg) then
          parseGlobalArgs argv
          = Returned {| global := flags_given flags; command := Some arg; args := rest' |}
        else if String.eqb arg "--" then
          parseGlobalArgs argv
          = Returned {| global := flags_given flags; command := head rest';
                        args := tail rest' |}
        else
          (arg ∉ GLOBAL_FLAGS) /\
          parseGlobalArgs argv
          = Threw (new_CliError usage_error ("Unknown global flag: " +:+ arg))
    end.
Proof.
  destruct (parseGlobalArgs_from_cases defaultGlobalFlags argv)
    as (flags & rest & Hargv & Hflags & Hrest).
  exists flags, rest. split; [done|]. split; [done|].
  unfold parseGlobalArgs. cbn zeta in Hrest. cbn [defaultGlobalFlags help version json
    noColor quiet verbose orb] in Hrest.
  by destruct (flags_given flags).
Qed.

Lemma no_dash_differs (value flag : string) :
  JsString.startsWith "-" value = false ->
  JsString.startsWith "-" flag = true ->
  value <> flag.
Proof. intros Hv Hf ->. congruence. Qed.

Lemma no_value_false value :
  no_value (Some value) = false ->
  value <> "" /\ JsString.startsWith "-" value = false.
Proof.
  unfold no_value. intros [H1 H2]%orb_false_iff. split; [|done]. by destruct value.
Qed.

Lemma last_value_skip flag init args result (skipped : list string) :
  Forall (fun word => word <> flag) skipped ->
  last_value flag init args result ->
  last_value flag init (skipped ++ args) result.
Proof.
  intros Hskipped [[Hno ->]|(before & value & after & -> & Hafter & -> & Hne & Hdash)].
  - left. split; [|done]. rewrite elem_of_app. intros [Hin|Hin]; [|done].
    rewrite Forall_forall in Hskipped. by apply (Hskipped flag).
  - right. exists (skipped ++ before), value, after. by rewrite <-app_assoc.
Qed.

Lemma parseRunArgs_from_outcome (n : nat) :
  forall (args : list string) (prefix0 outputFile0 : option string) (jsonMode0 : bool),
    (length args <= n)%nat ->
    match parseRunArgs_from prefix0 outputFile0 jsonMode0 args with
    | Returned parsed =>
        jsonMode parsed = jsonMode0 || existsb (String.eqb "--json") args /\
        last_value "--prefix" prefix0 args (prefix parsed) /\
        last_value "--output" outputFile0 args (outputFile parsed)
    | Threw err => ekind err = Some usage_error
    end.
Proof.
  induction n as [|n IH]; intros args prefix0 outputFile0 jsonMode0 Hlen.
  { destruct args; [|simpl in Hlen; lia]. simpl. rewrite orb_false_r.
    repeat split; left; split; try done; apply not_elem_of_nil. }
  destruct args as [|arg rest].
  { simpl. rewrite orb_false_r.
    repeat split; left; split; try done; apply not_elem_of_nil. }
  cbn -[String.eqb no_value].
  destruct (String.eqb_spec arg "--prefix") as [->|Hprefix].
  { destruct rest as [|value rest]; [done|].
    destruct (no_value (Some value)) eqn:Hvalue; [done|].
    apply no_value_false in Hvalue as [Hne Hdash].
    specialize (IH rest (Some value) outputFile0 jsonMode0 ltac:(simpl in Hlen; lia)).
    destruct (parseRunArgs_from (Some value) outputFile0 jsonMode0 rest) as [parsed|err];
      [|done].
    destruct IH as (Hjson & Hpre & Hout). split; [|split].
    - rewrite Hjson. cbn -[String.eqb].
      destruct (String.eqb_spec "--json" value) as [<-|_]; [done|].
      by destruct (String.eqb_spec "--json" "--prefix").
    - right. destruct Hpre as [[Hno ->]|(before & v & after & -> & Hafter & -> & ? & ?)].
      + by exists [], value, rest.
      + by exists ("--prefix" :: value :: before), v, after.
    - apply (last_value_skip _ _ _ _ ["--prefix"; value]); [|done].
      repeat constructor; [done|]. by apply no_dash_differs. }
  destruct (String.eqb_spec arg "--output") as [->|Houtput].
  { destruct rest as [|value rest]; [done|].
    destruct (no_value (Some value)) eqn:Hvalue; [done|].
    apply no_value_false in Hvalue as [Hne Hdash].
    specialize (IH rest prefix0 (Some value) jsonMode0 ltac:(simpl in Hlen; lia)).
    destruct (parseRunArgs_from prefix0 (Some value) jsonMode0 rest) as [parsed|err];
      [|done].
    destruct IH as (Hjson & Hpre & Hout). split; [|split].
    - rewrite Hjson. cbn -[String.eqb].
      destruct (String.eqb_spec "--json" value) as [<-|_]; [done|].
      by destruct (String.eqb_spec "--json" "--output").
    - apply (last_value_skip _ _ _ _ ["--output"; value]); [|done].
      repeat constructor; [done|]. by apply no_dash_differs.
    - right. destruct Hout as [[Hno ->]|(before & v & after & -> & Hafter & -> & ? & ?)].
      + by exists [], value, rest.
      + by exists ("--output" :: value :: before), v, after. }
  destruct (String.eqb_spec arg "--json") as [->|Hjson].
  { specialize (IH rest prefix0 outputFile0 true ltac:(simpl in Hlen; lia)).
    destruct (parseRunArgs_from prefix0 outputFile0 true rest) as [parsed|err]; [|done].
    destruct IH as (Hjson & Hpre & Hout). split; [|split].
    - rewrite Hjson. cbn. by rewrite orb_true_r.
    - apply (last_value_skip _ _ _ _ ["--json"]); [|done]. by repeat constructor.
    - apply (last_value_skip _ _ _ _ ["--json"]); [|done]. by repeat constructor. }
  by destruct (String.eqb arg "-h" || String.eqb arg "--help").
Qed.

(** X27. What [parseRunArgs] returns or throws.  When it returns, JSON mode
    is on exactly when it was inherited or [--json] is among the arguments,
    and the prefix and the output file are the words after the last
    [--prefix] and the last [--output], words that are not empty and do not
    start with a dash, or undefined when the flag is not given.  Everything
    it throws is a usage error. *)
Theorem parseRunArgs_outcome (args : list string) (inheritedJson : bool) :
  match parseRunArgs args inheritedJson with
  | Returned parsed =>
      jsonMode parsed = inheritedJson || existsb (String.eqb "--json") args /\
      last_value "--prefix" None args (prefix parsed) /\
      last_value "--output" None args (outputFile parsed)
  | Threw err => exitCodeForError err = EXIT_CODES.USAGE
  end.
Proof.
  pose proof (parseRunArgs_from_outcome (length args) args None None inheritedJson
                ltac:(done)) as H.
  unfold parseRunArgs. destruct (parseRunArgs_from None None inheritedJson args); [done|].
  unfold exitCodeForError. by rewrite H.
Qed.


Section cli_facts.

Variable cfg : RlmConfig.
Variable getEnv : EnvGetter.
Variable preflight : Outcome (list string).
Variable initial_code : string.
Variable JSON_stringify : value -> Outcome string.
Variable logFile : option string.
Variable faults : Faults.
Variable uuid : string.
Variable script : Script.
Variable stdin : string.
Variable stdinIsTty : bool.
Variable runSmokeCommand : bool -> Process -> Outcome Z * Process.
Variable JSON_parse : string -> option value.
Variable read_fault : option Exception.
Variable render :
  string -> list ViewLogs.LogEntry -> ViewLogs.Nodes -> Process -> Outcome unit * Process.

(** X28. The flag [--json] may stand before or after the subcommand: for
    [run] and for [smoke], giving it as a global flag and giving it as the
    first flag of the subcommand is the same, whatever follows. *)
Theorem runCli_json_position (rest : list string) (p : Process) :
  let cli :=
    runCli cfg getEnv preflight initial_code JSON_stringify logFile faults uuid script
      stdin stdinIsTty runSmokeCommand JSON_parse read_fault render in
  cli ("--json" :: "run" :: rest) p = cli ("run" :: "--json" :: rest) p /\
  cli ("--json" :: "smoke" :: rest) p = cli ("smoke" :: "--json" :: rest) p.
Proof.
  intros cli. subst cli. split.
  - reflexivity.
  - reflexivity.
Qed.


End cli_facts.

Lemma buildRunTree_children_witness :
  ("root", sample_node "root" Undefined 1 ["kid"]) ∈ ViewLogs.buildRunTree sample_log /\
  ViewLogs.children (sample_node "root" Undefined 1 ["kid"]) = ["kid"].
Proof.
  assert (("root", sample_node "root" Undefined 1 ["kid"])
          ∈ ViewLogs.buildRunTree sample_log) as Hin.
  { apply nodes_get_elem. vm_compute. reflexivity. }
  split; [exact Hin|].
  destruct (buildRunTree_children sample_log "root" _ Hin) as [-> _].
  vm_compute. reflexivity.
Defined.

Lemma buildRunTree_orphan_witness :
  ("lost", sample_node "lost" (Str "gone") 1 []) ∈ ViewLogs.buildRunTree sample_log /\
  (("lost", sample_node "lost" (Str "gone") 1 [])
   ∉ ViewLogs.roots (ViewLogs.buildRunTree sample_log)) /\
  (forall k m, (k, m) ∈ ViewLogs.buildRunTree sample_log -> "lost" ∉ ViewLogs.children m).
Proof.
  assert (("lost", sample_node "lost" (Str "gone") 1 [])
          ∈ ViewLogs.buildRunTree sample_log) as Hin.
  { apply nodes_get_elem. vm_compute. reflexivity. }
  split; [exact Hin|].
  apply (buildRunTree_orphan sample_log "lost" _ Hin).
  - reflexivity.
  - intros parent [= <-]. apply nodes_get_None. vm_compute. reflexivity.
Defined.

(** ** The list of models *)

Lemma map_entry_id_returned (TypeError : string -> Exception) entries ids :
  map_entry_id TypeError entries = Returned ids ->
  ids = (fun entry => Js.get entry "id") <$> entries.
Proof.
  revert ids. induction entries as [|entry entries IH]; intros ids; simpl.
  - by intros [= <-].
  - destruct (entry_id TypeError entry) as [id|err] eqn:Hid; [|done].
    destruct (map_entry_id TypeError entries) as [ids'|err]; [|done].
    intros [= <-]. rewrite (IH ids' eq_refl). csimpl. f_equal.
    unfold entry_id in Hid. destruct entry; try done; by injection Hid as <-.
Qed.

Lemma omap_model_id_fmap (entries : list value) :
  omap model_id ((fun entry => Js.get entry "id") <$> entries)
  = omap (fun entry => model_id (Js.get entry "id")) entries.
Proof.
  induction entries as [|entry entries IH]; [done|]. csimpl.
  by rewrite IH.
Qed.

Lemma model_id_nonempty id name : model_id id = Some name -> name <> "".
Proof. destruct id as [| | | |[|c s]| |]; try done. by intros [= <-]. Qed.

Lemma selected_available role requested available getEnv :
  available <> [] -> selected (pickModel role requested available getEnv) ∈ available.
Proof.
  intros Hne. destruct (decide (requested ∈ available)) as [Hin|Hout].
  - by rewrite pickModel_available.
  - by apply pickModel_unavailable.
Qed.

(** X30. The models that [fetchAvailableModels] returns are the ids of the
    entries of [data], in order, that are strings and not empty, and there is
    at least one; so the models that [resolveRuntimeModels] selects from them,
    whatever is requested, are among them and are never empty or
    undefined. *)
Theorem fetchAvailableModels_models
    (JSON_parse : string -> option value) (TypeError : string -> Exception)
    (client : ProxyClientConfig) (fetched : Outcome Response) (available : list string) :
  fetchAvailableModels JSON_parse TypeError client fetched = Returned available ->
  (exists response parsed entries,
     fetched = Returned response /\ ok response = true /\
     JSON_parse (bodyText response) = Some parsed /\
     Js.get parsed "data" = Arr entries /\
     available = omap (fun entry => model_id (Js.get entry "id")) entries) /\
  available <> [] /\
  Forall (fun name => name <> "") available /\
  forall requested getEnv,
    let resolved := resolveRuntimeModels requested available getEnv in
    primaryAgent resolved ∈ available /\ subAgent resolved ∈ available /\
    primaryAgent resolved <> "" /\ subAgent resolved <> "".
Proof.
  unfold fetchAvailableModels. destruct fetched as [response|err]; [|done].
  destruct (ok response) eqn:Hok; [|done]. simpl negb. cbv iota.
  destruct (JSON_parse (bodyText response)) as [parsed|] eqn:Hparse; [|done].
  intros H.
  assert (exists entries ids,
            Js.coalesce (Js.get parsed "data") (Arr []) = Arr entries /\
            map_entry_id TypeError entries = Returned ids /\
            available = omap model_id ids /\ available <> []) as
    (entries & ids & Hdata & Hids & -> & Hne).
  { destruct parsed; try done;
      (destruct (Js.coalesce _ _) as [| | | | |entries|] eqn:Hdata; try done;
       destruct (map_entry_id TypeError entries) as [ids|] eqn:Hids; [|done];
       cbv zeta in H;
       destruct (Z.of_nat (length (omap model_id ids)) =? 0) eqn:Hlen; [done|];
       injection H as <-; exists entries, ids; repeat split; try done;
       intros Hnil; by rewrite Hnil in Hlen). }
  apply map_entry_id_returned in Hids as ->.
  assert (Forall (fun name => name <> "")
            (omap model_id ((fun entry => Js.get entry "id") <$> entries))) as Hnames.
  { apply Forall_forall. intros name (id & _ & Hid)%list_elem_of_omap.
    by apply (model_id_nonempty id). }
  split; [|split; [done|split; [done|]]].
  - assert (Js.get parsed "data" = Arr entries \/
            (entries = [] /\ omap model_id ((fun entry => Js.get entry "id") <$> entries)
                             = [])) as [Hget|[-> Hnil]].
    { unfold Js.coalesce in Hdata.
      destruct (Js.get parsed "data"); try (by left); injection Hdata as <-; by right. }
    + exists response, parsed, entries. repeat split; try done.
      by rewrite omap_model_id_fmap.
    + done.
  - intros requested getEnv. unfold resolveRuntimeModels.
    cbv zeta. cbn [primaryAgent subAgent].
    pose proof (selected_available primary (requestedPrimary requested) _ getEnv Hne) as H1.
    pose proof (selected_available sub (requestedSub requested) _ getEnv Hne) as H2.
    rewrite Forall_forall in Hnames. repeat split; try done; by apply Hnames.
Qed.

Lemma fetchAvailableModels_models_witness :
  fetchAvailableModels (fun _ => Some sample_models) new_Error
    {| apiKey := "key"; baseURL := "http://127.0.0.1:8317/v1" |} (Returned sample_response)
  = Returned ["gpt-5"; "gemini-2.5-flash"] /\
  Forall (fun name => name <> "") ["gpt-5"; "gemini-2.5-flash"].
Proof.
  assert (fetchAvailableModels (fun _ => Some sample_models) new_Error
            {| apiKey := "key"; baseURL := "http://127.0.0.1:8317/v1" |}
            (Returned sample_response)
          = Returned ["gpt-5"; "gemini-2.5-flash"]) as H by (vm_compute; reflexivity).
  split; [exact H|].
  apply (fetchAvailableModels_models _ _ _ _ _ H).
Defined.
